(** * Read-live: the reader's content pipeline and the book service

    A shallow embedding of [src/Read/src/components/BookReader.tsx]
    (format resolution, retrieval through the relay list, normalisation,
    pagination, page navigation, settings), of the [BookService] class
    (search orchestration, the requests to the two providers and their
    replies, deduplication, book details, downloads, reading-progress
    persistence), and of the handlers of the card, the search box and
    the page that call them.

    JavaScript strings are sequences of UTF-16 code units, modelled as
    [list N].  The regular expressions of the source are kept as syntax
    trees and run by a backtracking matcher that follows the ECMAScript
    matching rules for the constructs the source uses. *)

From Stdlib Require Import ZArith NArith Lia String Ascii QArith.
From stdpp Require Import base list gmap.

Local Open Scope N_scope.

(** ** JavaScript strings *)

Abbreviation jsstring := (list N).

Definition js (s : string) : jsstring :=
  map N_of_ascii (list_ascii_of_string s).
Arguments js s%_string.

Definition nl : N := 10.
Definition cr : N := 13.
Definition tab : N := 9.

(** [LineTerminator] of the ECMAScript grammar. *)
Definition isLineTerminator (c : N) : bool :=
  (c =? 10) || (c =? 13) || (c =? 0x2028) || (c =? 0x2029).

(** [WhiteSpace] and [LineTerminator]: what [\s] matches and what
    [String.prototype.trim] removes. *)
Definition isWhiteSpace (c : N) : bool :=
  (c =? 9) || (c =? 10) || (c =? 11) || (c =? 12) || (c =? 13) || (c =? 32)
  || (c =? 0xA0) || (c =? 0x1680) || ((0x2000 <=? c) && (c <=? 0x200A))
  || (c =? 0x2028) || (c =? 0x2029) || (c =? 0x202F) || (c =? 0x205F)
  || (c =? 0x3000) || (c =? 0xFEFF).

Definition isDigit (c : N) : bool := (48 <=? c) && (c <=? 57).
Definition isUpper (c : N) : bool := (65 <=? c) && (c <=? 90).
Definition isLower (c : N) : bool := (97 <=? c) && (c <=? 122).

(** [\w]: letters, digits and the underscore. *)
Definition isWordChar (c : N) : bool :=
  isUpper c || isLower c || isDigit c || (c =? 95).

Definition upperAscii (c : N) : N := if isLower c then c - 32 else c.
Definition lowerAscii (c : N) : N := if isUpper c then c + 32 else c.

Fixpoint dropWhile (p : N -> bool) (s : jsstring) : jsstring :=
  match s with
  | [] => []
  | x :: s' => if p x then dropWhile p s' else s
  end.

Definition trimStart (s : jsstring) : jsstring := dropWhile isWhiteSpace s.
Definition trimEnd (s : jsstring) : jsstring := rev (trimStart (rev s)).

(** [s.trim()] *)
Definition trim (s : jsstring) : jsstring := trimEnd (trimStart s).

Fixpoint eqs (a b : jsstring) : bool :=
  match a, b with
  | [], [] => true
  | x :: a', y :: b' => (x =? y) && eqs a' b'
  | _, _ => false
  end.

Fixpoint startsWith (s sub : jsstring) : bool :=
  match sub, s with
  | [], _ => true
  | y :: sub', x :: s' => (x =? y) && startsWith s' sub'
  | _ :: _, [] => false
  end.

(** [s.includes(sub)] *)
Fixpoint includes (s sub : jsstring) : bool :=
  startsWith s sub ||
  match s with
  | [] => false
  | _ :: s' => includes s' sub
  end.

(** A string used as a condition: the empty string is falsy. *)
Definition truthy (s : jsstring) : bool :=
  match s with [] => false | _ :: _ => true end.

(** [parts.join(sep)] *)
Fixpoint join (sep : jsstring) (parts : list jsstring) : jsstring :=
  match parts with
  | [] => []
  | [p] => p
  | p :: rest => p ++ sep ++ join sep rest
  end.

(** ** Regular expressions *)

Inductive regex : Type :=
| Empty
| Cls (invert : bool) (p : N -> bool)
| Seq (r1 r2 : regex)
| Alt (r1 r2 : regex)
| Star (greedy : bool) (r : regex)
| Group (i : nat) (r : regex)
| NotAhead (r : regex)
| WordB
| Bol
| Eol.

Record flags : Type := { ignoreCase : bool; multiline : bool }.

Definition caps : Type := list (nat * jsstring).

(** The captures, the code unit before the end of the match, and the
    input left after it. *)
Definition mresult : Type := (caps * option N * jsstring)%type.

Definition cont : Type := option N -> jsstring -> caps -> option mresult.

(** Whether the set named by [p] has a member with the canonical form of
    [x].  Without the [i] flag that is [p x].  With it, [Canonicalize]
    takes a code unit to its upper case, and never takes a code unit from
    128 up to one below 128; the patterns of this program name only ASCII
    characters and the classes [\s], [\d] and [.], so the ASCII part of
    the case mapping decides every match. *)
Definition clsFound (fl : flags) (p : N -> bool) (x : N) : bool :=
  if ignoreCase fl then p x || p (upperAscii x) || p (lowerAscii x) else p x.

Definition clsOk (fl : flags) (invert : bool) (p : N -> bool) (x : N) : bool :=
  xorb invert (clsFound fl p x).

Definition isWordAt (o : option N) : bool :=
  match o with Some c => isWordChar c | None => false end.

Definition accept : cont := fun prev s c => Some (c, prev, s).

(** The matcher, in continuation-passing style as in the ECMAScript
    definition: [rmatch fl r k prev s c] matches [r] at the head of [s]
    ([prev] is the code unit before it) and hands what is left to [k];
    alternatives are tried in priority order.  An iteration of [*] that
    consumes nothing is rejected, so the input length bounds the loop.
    Captures are not reset between the iterations of a [*]: no pattern
    of the program has a group under a quantifier. *)
Fixpoint rmatch (fl : flags) (r : regex) (k : cont)
    (prev : option N) (s : jsstring) (c : caps) {struct r} : option mresult :=
  match r with
  | Empty => k prev s c
  | Cls invert p =>
      match s with
      | [] => None
      | x :: s' => if clsOk fl invert p x then k (Some x) s' c else None
      end
  | Seq r1 r2 => rmatch fl r1 (rmatch fl r2 k) prev s c
  | Alt r1 r2 =>
      match rmatch fl r1 k prev s c with
      | Some m => Some m
      | None => rmatch fl r2 k prev s c
      end
  | Star greedy r1 =>
      (fix loop (n : nat) (prev : option N) (s : jsstring) (c : caps)
           {struct n} : option mresult :=
         match n with
         | O => k prev s c
         | S n' =>
             if greedy then
               match rmatch fl r1
                       (fun prev' s' c' =>
                          if (length s' <? length s)%nat
                          then loop n' prev' s' c' else None) prev s c with
               | Some m => Some m
               | None => k prev s c
               end
             else
               match k prev s c with
               | Some m => Some m
               | None =>
                   rmatch fl r1
                     (fun prev' s' c' =>
                        if (length s' <? length s)%nat
                        then loop n' prev' s' c' else None) prev s c
               end
         end) (length s) prev s c
  | Group i r1 =>
      rmatch fl r1
        (fun prev' s' c' =>
           k prev' s' ((i, take (length s - length s') s) :: c')) prev s c
  | NotAhead r1 =>
      match rmatch fl r1 accept prev s c with
      | Some _ => None
      | None => k prev s c
      end
  | WordB =>
      if xorb (isWordAt prev) (isWordAt (head s)) then k prev s c else None
  | Bol =>
      match prev with
      | None => k prev s c
      | Some x =>
          if multiline fl && isLineTerminator x then k prev s c else None
      end
  | Eol =>
      match s with
      | [] => k prev s c
      | x :: _ =>
          if multiline fl && isLineTerminator x then k prev s c else None
      end
  end.

(** One match attempt at the current position. *)
Definition rexec (fl : flags) (r : regex) (prev : option N) (s : jsstring)
  : option mresult :=
  rmatch fl r accept prev s [].

(** Replacement templates: literal text and [$n]. *)
Inductive tpart : Type :=
| TLit (s : jsstring)
| TCap (i : nat).

Fixpoint capture (i : nat) (c : caps) : jsstring :=
  match c with
  | [] => []
  | (j, v) :: c' => if (i =? j)%nat then v else capture i c'
  end.

Fixpoint subst (tpl : list tpart) (c : caps) : jsstring :=
  match tpl with
  | [] => []
  | TLit s :: tpl' => s ++ subst tpl' c
  | TCap i :: tpl' => capture i c ++ subst tpl' c
  end.

(** [s.replace(/r/g, tpl)]: scan left to right; at the leftmost match
    emit the replacement and go on after the match (one code unit further
    when the match is empty); code units outside matches are copied. *)
Fixpoint replace_go (fl : flags) (r : regex) (tpl : list tpart)
    (n : nat) (prev : option N) (s : jsstring) : jsstring :=
  match n with
  | O => s
  | S n' =>
      match rexec fl r prev s with
      | Some (c, prev', rest) =>
          if (length rest <? length s)%nat
          then subst tpl c ++ replace_go fl r tpl n' prev' rest
          else subst tpl c ++
               match s with
               | [] => []
               | x :: s' => x :: replace_go fl r tpl n' (Some x) s'
               end
      | None =>
          match s with
          | [] => []
          | x :: s' => x :: replace_go fl r tpl n' (Some x) s'
          end
      end
  end.

Definition replace_all (fl : flags) (r : regex) (tpl : list tpart)
    (s : jsstring) : jsstring :=
  replace_go fl r tpl (S (length s)) None s.

(** [s.split(/r/)] for a separator without capture groups: [piece] is
    the text since the last separator; a match that ends where the piece
    began is skipped, as in the ECMAScript split loop. *)
Fixpoint split_go (fl : flags) (r : regex) (n : nat) (prev : option N)
    (s : jsstring) (piece : jsstring) : list jsstring :=
  match n with
  | O => [piece ++ s]
  | S n' =>
      match s with
      | [] => [piece]
      | x :: s' =>
          match rexec fl r prev s with
          | Some (_, prev', rest) =>
              if (length rest =? length s)%nat && negb (truthy piece)
              then split_go fl r n' (Some x) s' (piece ++ [x])
              else piece :: split_go fl r n' prev' rest []
          | None => split_go fl r n' (Some x) s' (piece ++ [x])
          end
      end
  end.

Definition split (fl : flags) (r : regex) (s : jsstring) : list jsstring :=
  match s with
  | [] => match rexec fl r None [] with Some _ => [] | None => [[]] end
  | _ :: _ => split_go fl r (S (2 * length s)) None s []
  end.

(** *** Pattern syntax *)

Definition chr (c : N) : regex := Cls false (N.eqb c).
Definition notchr (c : N) : regex := Cls true (N.eqb c).

Fixpoint lit_list (s : jsstring) : regex :=
  match s with
  | [] => Empty
  | [x] => chr x
  | x :: s' => Seq (chr x) (lit_list s')
  end.

Definition lit (s : string) : regex := lit_list (js s).
Arguments lit s%_string.

Fixpoint re_seq (rs : list regex) : regex :=
  match rs with
  | [] => Empty
  | [r] => r
  | r :: rs' => Seq r (re_seq rs')
  end.

Definition star (r : regex) : regex := Star true r.
Definition lazy_star (r : regex) : regex := Star false r.
Definition plus (r : regex) : regex := Seq r (Star true r).
Definition opt (r : regex) : regex := Alt r Empty.

Fixpoint at_least (n : nat) (r : regex) : regex :=
  match n with
  | O => Star true r
  | S n' => Seq r (at_least n' r)
  end.

(** [.] *)
Definition dot : regex := Cls false (fun c => negb (isLineTerminator c)).

Definition isSpaceTab (c : N) : bool := (c =? 32) || (c =? 9).

Definition flags_g : flags := {| ignoreCase := false; multiline := false |}.
Definition flags_gi : flags := {| ignoreCase := true; multiline := false |}.
Definition flags_gm : flags := {| ignoreCase := false; multiline := true |}.

Definition code (a : ascii) : N := N_of_ascii a.
Arguments code a%_char.

Definition ch (a : ascii) : regex := chr (code a).
Arguments ch a%_char.
Definition notch (a : ascii) : regex := notchr (code a).
Arguments notch a%_char.

Definition ws : regex := Cls false isWhiteSpace.
Definition spaceTab : regex := Cls false isSpaceTab.

(** Method chains read top to bottom. *)
Notation "x |> f" := (f x) (at level 45, left associativity, only parsing).

(** ** BookReader.tsx: normalisation *)

(** Line 220, flags g and i: [<script], a word boundary, a run of code
    units other than [<], any number of groups made of a [<] that does not
    start [</script>] followed by a run of code units other than [<], and
    [</script>]. *)
Definition re_script : regex :=
  re_seq [lit "<script"; WordB; star (notch "<");
       star (re_seq [NotAhead (lit "</script>"); ch "<"; star (notch "<")]);
       lit "</script>"].

(** Line 221: the same pattern for [style]. *)
Definition re_style : regex :=
  re_seq [lit "<style"; WordB; star (notch "<");
       star (re_seq [NotAhead (lit "</style>"); ch "<"; star (notch "<")]);
       lit "</style>"].

Definition is1to6 (c : N) : bool := (49 <=? c) && (c <=? 54).

(** Source pattern: "/<h[1-6][^>]*>(.*?)<\/h[1-6]>/gi" *)
Definition re_heading : regex :=
  re_seq [lit "<h"; Cls false is1to6; star (notch ">"); ch ">";
       Group 1 (lazy_star dot);
       lit "</h"; Cls false is1to6; ch ">"].

(** ['\n\n=== $1 ===\n\n'] *)
Definition banner : list tpart :=
  [TLit ([nl; nl] ++ js "=== "); TCap 1; TLit (js " ===" ++ [nl; nl])].

(** Source pattern: "/<\/p>/gi" *)
Definition re_p_close : regex := lit "</p>".
(** Source pattern: "/<p[^>]*>/gi" *)
Definition re_p_open : regex := re_seq [lit "<p"; star (notch ">"); ch ">"].
(** Source pattern: "/<br\s*\/?>/gi" *)
Definition re_br : regex := re_seq [lit "<br"; star ws; opt (ch "/"); ch ">"].
(** Source pattern: "/<[^>]+>/g" *)
Definition re_tag : regex := re_seq [ch "<"; plus (notch ">"); ch ">"].
(** Source pattern: "/[ \t]+/g" *)
Definition re_spaces : regex := plus spaceTab.
(** Source pattern: "/\n[ \t]+/g" *)
Definition re_nl_spaces : regex := re_seq [chr nl; plus spaceTab].
(** Source pattern: "/[ \t]+\n/g" *)
Definition re_spaces_nl : regex := re_seq [plus spaceTab; chr nl].
(** Source pattern: "/\n{3,}/g" *)
Definition re_nl3 : regex := at_least 3 (chr nl).

Definition isRomanOrDigit (c : N) : bool :=
  (c =? code "I") || (c =? code "V") || (c =? code "X") || (c =? code "L")
  || (c =? code "C") || isDigit c.

(** Line 251, flags g and i: one group holding [CHAPTER ], one or more of
    [IVXLC\d], and the rest of the line. *)
Definition re_chapter : regex :=
  Group 1 (re_seq [lit "CHAPTER "; plus (Cls false isRomanOrDigit); star dot]).

(** Source pattern: "/^\s*([A-Z][A-Z\s]{10,})\s*$/gm" *)
Definition re_caps_line : regex :=
  re_seq [Bol; star ws;
       Group 1 (re_seq [Cls false isUpper;
                     at_least 10 (Cls false (fun c => isUpper c || isWhiteSpace c))]);
       star ws; Eol].

(** Lines 219-237 of the markup branch: scripts, styles, headings,
    paragraphs, line breaks, remaining tags, entities. *)
Definition stripMarkup (text : jsstring) : jsstring :=
  text
  |> replace_all flags_gi re_script []
  |> replace_all flags_gi re_style []
  |> replace_all flags_gi re_heading banner
  |> replace_all flags_gi re_p_close [TLit [nl; nl]]
  |> replace_all flags_gi re_p_open []
  |> replace_all flags_gi re_br [TLit [nl]]
  |> replace_all flags_g re_tag []
  |> replace_all flags_g (lit "&nbsp;") [TLit (js " ")]
  |> replace_all flags_g (lit "&amp;") [TLit (js "&")]
  |> replace_all flags_g (lit "&lt;") [TLit (js "<")]
  |> replace_all flags_g (lit "&gt;") [TLit (js ">")]
  |> replace_all flags_g (lit "&quot;") [TLit [34]]
  |> replace_all flags_g (lit "&apos;") [TLit (js "'")].

(** Lines 238-244 of the markup branch: the white-space clean-up. *)
Definition collapseSpace (text : jsstring) : jsstring :=
  text
  |> replace_all flags_g re_spaces [TLit (js " ")]
  |> replace_all flags_g re_nl_spaces [TLit [nl]]
  |> replace_all flags_g re_spaces_nl [TLit [nl]]
  |> replace_all flags_g re_nl3 [TLit [nl; nl]]
  |> trim.

(** The branch of [processBookContent] for markup sources, lines
    219-244: one chain of calls, here in its two parts. *)
Definition normalizeMarkup (text : jsstring) : jsstring :=
  text |> stripMarkup |> collapseSpace.

(** Lines 247-252 of the plain-text branch: line endings, chapter
    markers, lines in capitals. *)
Definition markHeadings (text : jsstring) : jsstring :=
  text
  |> replace_all flags_g (lit_list [cr; nl]) [TLit [nl]]
  |> replace_all flags_g (chr cr) [TLit [nl]]
  |> replace_all flags_gi re_chapter banner
  |> replace_all flags_gm re_caps_line banner.

(** Lines 253-256 of the plain-text branch: the white-space clean-up. *)
Definition collapseSpacePlain (text : jsstring) : jsstring :=
  text
  |> replace_all flags_g re_spaces [TLit (js " ")]
  |> replace_all flags_g re_nl3 [TLit [nl; nl]]
  |> trim.

(** The branch of [processBookContent] for plain-text sources, lines
    247-256. *)
Definition normalizePlain (text : jsstring) : jsstring :=
  text |> markHeadings |> collapseSpacePlain.

(** [contentUrl.includes('html') || contentUrl === 'demo'] *)
Definition isMarkupSource (contentUrl : jsstring) : bool :=
  includes contentUrl (js "html") || eqs contentUrl (js "demo").

Definition normalize (text contentUrl : jsstring) : jsstring :=
  if isMarkupSource contentUrl then normalizeMarkup text else normalizePlain text.

(** ** BookReader.tsx: pagination *)

Definition wordsPerPage : nat := 400.

(** Source pattern: "/\n\n+/" *)
Definition re_blank_lines : regex := re_seq [chr nl; plus (chr nl)].
(** Source pattern: "/\s+/" *)
Definition re_ws_run : regex := plus ws.

(** [paragraph.trim().split(/\s+/).length] *)
Definition countWords (paragraph : jsstring) : nat :=
  length (split flags_g re_ws_run (trim paragraph)).

(** The loop variables [pages], [currentPageContent] and [wordCount]. *)
Record pageAcc : Type := mkAcc {
  acc_pages : list jsstring;
  acc_content : jsstring;
  acc_words : nat
}.

Definition emptyAcc : pageAcc := mkAcc [] [] 0.

(** The last page is added when it has content. *)
Definition closePages (a : pageAcc) : list jsstring :=
  if truthy (trim (acc_content a))
  then acc_pages a ++ [trim (acc_content a)]
  else acc_pages a.

(** Body of the loop in [processBookContent], lines 266-278. *)
Definition loadStep (a : pageAcc) (paragraph : jsstring) : pageAcc :=
  let paragraphWords := countWords paragraph in
  if (wordsPerPage <? acc_words a + paragraphWords)%nat
     && truthy (trim (acc_content a))
  then mkAcc (acc_pages a ++ [trim (acc_content a)])
             (paragraph ++ [nl; nl]) paragraphWords
  else mkAcc (acc_pages a) (acc_content a ++ paragraph ++ [nl; nl])
             (acc_words a + paragraphWords).

(** The page list computed at load time. *)
Definition loadPages (text : jsstring) : list jsstring :=
  closePages (fold_left loadStep (split flags_g re_blank_lines text) emptyAcc).

(** Body of the loop in [getCurrentPageContent], lines 316-327. *)
Definition renderStep (a : pageAcc) (paragraph : jsstring) : pageAcc :=
  let paragraphWords := length (split flags_g re_ws_run (trim paragraph)) in
  if (wordsPerPage <? acc_words a + paragraphWords)%nat
     && truthy (trim (acc_content a))
  then mkAcc (acc_pages a ++ [trim (acc_content a)])
             (paragraph ++ [nl; nl]) paragraphWords
  else mkAcc (acc_pages a) (acc_content a ++ paragraph ++ [nl; nl])
             (acc_words a + paragraphWords).

(** The page list computed at render time. *)
Definition renderPages (content : jsstring) : list jsstring :=
  let paragraphs := split flags_g re_blank_lines content in
  let a := fold_left renderStep paragraphs emptyAcc in
  if truthy (trim (acc_content a))
  then acc_pages a ++ [trim (acc_content a)]
  else acc_pages a.

(** ** BookReader.tsx: books, settings and the reader's state *)

(** The [Book] interface (the fields of the service's declaration; the
    reader's declaration has the first five and [formats]).  [formats]
    lists the object's entries in [Object.keys] order. *)
Record Book : Type := mkBook {
  bookId : jsstring;
  title : jsstring;
  authors : list jsstring;
  coverUrl : option jsstring;
  description : option jsstring;
  publishYear : option jsstring;
  language : option jsstring;
  subjects : option (list jsstring);
  formats : option (list (jsstring * jsstring));
  downloadCount : option Z
}.

Inductive Theme : Type := light | dark | sepia.

Record ReaderSettings : Type := mkSettings {
  fontSize : Z;
  theme : Theme;
  fontFamily : jsstring;
  lineHeight : Q
}.

(** The component's [useState] cells. *)
Record ReaderState : Type := mkReader {
  showSettings : bool;
  content : jsstring;
  loading : bool;
  error : option jsstring;
  currentPage : Z;
  totalPages : Z;
  isBookmarked : bool;
  settings : ReaderSettings
}.

Definition initialSettings : ReaderSettings :=
  mkSettings 18 light (js "serif") (16 # 10).

Definition initialState : ReaderState :=
  mkReader false [] true None 0 0 false initialSettings.

Definition setShowSettings (v : bool) (st : ReaderState) : ReaderState :=
  mkReader v (content st) (loading st) (error st) (currentPage st)
           (totalPages st) (isBookmarked st) (settings st).
Definition setContent (v : jsstring) (st : ReaderState) : ReaderState :=
  mkReader (showSettings st) v (loading st) (error st) (currentPage st)
           (totalPages st) (isBookmarked st) (settings st).
Definition setLoading (v : bool) (st : ReaderState) : ReaderState :=
  mkReader (showSettings st) (content st) v (error st) (currentPage st)
           (totalPages st) (isBookmarked st) (settings st).
Definition setError (v : option jsstring) (st : ReaderState) : ReaderState :=
  mkReader (showSettings st) (content st) (loading st) v (currentPage st)
           (totalPages st) (isBookmarked st) (settings st).
Definition setCurrentPage (v : Z) (st : ReaderState) : ReaderState :=
  mkReader (showSettings st) (content st) (loading st) (error st) v
           (totalPages st) (isBookmarked st) (settings st).
Definition setTotalPages (v : Z) (st : ReaderState) : ReaderState :=
  mkReader (showSettings st) (content st) (loading st) (error st)
           (currentPage st) v (isBookmarked st) (settings st).
Definition setIsBookmarked (v : bool) (st : ReaderState) : ReaderState :=
  mkReader (showSettings st) (content st) (loading st) (error st)
           (currentPage st) (totalPages st) v (settings st).
Definition setSettings (f : ReaderSettings -> ReaderSettings)
    (st : ReaderState) : ReaderState :=
  mkReader (showSettings st) (content st) (loading st) (error st)
           (currentPage st) (totalPages st) (isBookmarked st)
           (f (settings st)).

(** [processBookContent(text, contentUrl)].  [text] is [None] when the
    caller passes [undefined] (a JSON envelope without [contents]): the
    first [text.replace] then throws and the handler at line 291 records
    the error. *)
Definition processBookContent (text : option jsstring) (contentUrl : jsstring)
    (st : ReaderState) : ReaderState :=
  match text with
  | Some raw =>
      let text' := normalize raw contentUrl in
      let pages := loadPages text' in
      st |> setContent text'
         |> setTotalPages (Z.of_nat (length pages))
         |> setLoading false
  | None =>
      st |> setError (Some (js "Failed to process book content"))
         |> setLoading false
  end.

(** [pages[currentPage] || ''] *)
Definition pageAt (pages : list jsstring) (i : Z) : jsstring :=
  if (i <? 0)%Z then []
  else match pages !! Z.to_nat i with
       | Some p => p
       | None => []
       end.

Definition getCurrentPageContent (st : ReaderState) : jsstring :=
  if negb (truthy (content st)) then []
  else pageAt (renderPages (content st)) (currentPage st).

Definition loadReadingProgress (st : ReaderState) : ReaderState :=
  st |> setCurrentPage 0%Z |> setIsBookmarked false.

Definition handleNextPage (st : ReaderState) : ReaderState :=
  if (currentPage st <? totalPages st - 1)%Z
  then setCurrentPage (currentPage st + 1)%Z st
  else st.

Definition handlePrevPage (st : ReaderState) : ReaderState :=
  if (currentPage st >? 0)%Z
  then setCurrentPage (currentPage st - 1)%Z st
  else st.

(** The page slider's [onChange], line 632: the parsed value is stored
    as it is.  The slider element is given [min = 0] and
    [max = totalPages - 1]. *)
Definition seek (index : Z) (st : ReaderState) : ReaderState :=
  setCurrentPage index st.

Definition toggleBookmark (st : ReaderState) : ReaderState :=
  setIsBookmarked (negb (isBookmarked st)) st.

Definition resetProgress (st : ReaderState) : ReaderState :=
  st |> setCurrentPage 0%Z |> setIsBookmarked false.

(** The settings panel's handlers, lines 490-575. *)
Definition changeFontSize (v : Z) (st : ReaderState) : ReaderState :=
  setSettings (fun prev =>
    mkSettings v (theme prev) (fontFamily prev) (lineHeight prev)) st.
Definition changeLineHeight (v : Q) (st : ReaderState) : ReaderState :=
  setSettings (fun prev =>
    mkSettings (fontSize prev) (theme prev) (fontFamily prev) v) st.
Definition changeTheme (v : Theme) (st : ReaderState) : ReaderState :=
  setSettings (fun prev =>
    mkSettings (fontSize prev) v (fontFamily prev) (lineHeight prev)) st.
Definition changeFontFamily (v : jsstring) (st : ReaderState) : ReaderState :=
  setSettings (fun prev =>
    mkSettings (fontSize prev) (theme prev) v (lineHeight prev)) st.

Inductive SettingsUpdate : Type :=
| UpdFontSize (v : Z)
| UpdLineHeight (v : Q)
| UpdTheme (v : Theme)
| UpdFontFamily (v : jsstring).

Definition updateSettings (u : SettingsUpdate) (st : ReaderState) : ReaderState :=
  match u with
  | UpdFontSize v => changeFontSize v st
  | UpdLineHeight v => changeLineHeight v st
  | UpdTheme v => changeTheme v st
  | UpdFontFamily v => changeFontFamily v st
  end.

(** ** BookReader.tsx: retrieval *)

Definition generateDemoContent (book : Book) : jsstring :=
  join [nl]
    [js "=== " ++ title book ++ js " ===";
     [];
     js "By " ++ join (js ", ") (authors book);
     [];
     js "This is a demonstration of the book reader interface. ";
     [];
     js "Due to CORS (Cross-Origin Resource Sharing) restrictions, we cannot directly load the actual book content from external sources in this environment.";
     [];
     js "In a real implementation, you would need one of the following solutions:";
     [];
     js "1. **Server-side proxy**: Create a backend endpoint that fetches the book content and serves it to your frontend";
     js "2. **CORS-enabled API**: Use book APIs that properly support CORS";
     js "3. **Local files**: Store books locally and serve them from your domain";
     js "4. **Browser extension**: Create a browser extension that can bypass CORS restrictions";
     [];
     js "The book reader interface includes features like:";
     js "- Multiple theme options (light, dark, sepia)";
     js "- Adjustable font size and line height";
     js "- Page navigation with progress tracking";
     js "- Bookmark functionality";
     js "- Reading progress persistence";
     [];
     js "This reader would work perfectly with properly accessible book content sources.";
     [];
     js "For Project Gutenberg books, you might want to:";
     js "- Download books to your server first";
     js "- Use their official API endpoints";
     js "- Implement proper CORS handling on your backend";
     [];
     js "The interface is fully functional - it just needs a reliable content source that doesn't have CORS restrictions.";
     [];
     js "This demonstrates the pagination system working with the demo content across multiple pages.";
     [];
     js "Each page contains approximately 400 words for comfortable reading.";
     [];
     js "The navigation controls at the bottom allow you to move between pages easily.";
     [];
     js "You can also use the slider to jump to any specific page in the book.";
     [];
     js "The bookmark feature lets you save your current reading position.";
     [];
     js "Theme customization helps reduce eye strain during long reading sessions.";
     [];
     js "Font family options cater to different reading preferences - serif for traditional book feel, sans-serif for modern clarity, or monospace for code-like content.";
     [];
     js "Line height adjustment improves readability based on personal preference and screen size.";
     [];
     js "The responsive design ensures the reader works well on both desktop and mobile devices."].

(** [o[key]] on the entries of an object. *)
Fixpoint prop (o : list (jsstring * jsstring)) (key : jsstring) : option jsstring :=
  match o with
  | [] => None
  | (k, v) :: o' => if eqs k key then Some v else prop o' key
  end.

Definition keys (o : list (jsstring * jsstring)) : list jsstring := map fst o.

Definition truthyO (v : option jsstring) : bool :=
  match v with Some s => truthy s | None => false end.

Definition isReadableFormat (format : jsstring) : bool :=
  includes format (js "text") || includes format (js "html").

(** Lines 75-93: the value of [contentUrl] when line 95 tests it. *)
Definition resolveContentUrl (book : Book) : jsstring :=
  let formats := default [] (formats book) in
  if truthyO (prop formats (js "text/html"))
  then default [] (prop formats (js "text/html"))
  else if truthyO (prop formats (js "text/plain; charset=utf-8"))
  then default [] (prop formats (js "text/plain; charset=utf-8"))
  else if truthyO (prop formats (js "text/plain"))
  then default [] (prop formats (js "text/plain"))
  else
    let readableFormats := List.filter isReadableFormat (keys formats) in
    match readableFormats with
    | first :: _ => default [] (prop formats first)
    | [] => []
    end.

Definition corsProxies : list jsstring :=
  [js "https://cors-anywhere.herokuapp.com/";
   js "https://api.codetabs.com/v1/proxy?quest=";
   js "https://thingproxy.freeboard.io/fetch/";
   js "https://cors.bridged.cc/";
   js "https://yacdn.org/proxy/"].

(** A [fetch] response: its [ok] flag, what [text()] resolves to ([None]
    when it rejects), and what [(await json()).contents] evaluates to
    ([None] when that throws, [Some None] when it is not a string). *)
Record Response : Type := mkResponse {
  ok : bool;
  body : option jsstring;
  jsonContents : option (option jsstring)
}.

(** The outside world: the outcome of the [n]-th [fetch] of the open
    attempt, given its URL; [None] when the promise rejects. *)
Definition network : Type := nat -> jsstring -> option Response.

Definition isUnreserved (c : N) : bool :=
  isUpper c || isLower c || isDigit c
  || (c =? code "-") || (c =? code "_") || (c =? code ".") || (c =? code "!")
  || (c =? code "~") || (c =? code "*") || (c =? code "'") || (c =? code "(")
  || (c =? code ")").

Definition hexDigit (d : N) : N := if d <? 10 then 48 + d else 55 + d.

Definition pct (b : N) : jsstring := [code "%"; hexDigit (b / 16); hexDigit (b mod 16)].

(** [encodeURIComponent]: code units outside the unreserved set are
    written as the percent-escaped bytes of their UTF-8 encoding; a lone
    surrogate makes it throw ([None]). *)
Fixpoint encodeURIComponent (s : jsstring) : option jsstring :=
  match s with
  | [] => Some []
  | x :: s' =>
      if isUnreserved x then cons x <$> encodeURIComponent s'
      else if x <? 0x80 then app (pct x) <$> encodeURIComponent s'
      else if x <? 0x800 then
        app (pct (0xC0 + x / 64) ++ pct (0x80 + x mod 64))
          <$> encodeURIComponent s'
      else if (0xD800 <=? x) && (x <=? 0xDBFF) then
        match s' with
        | y :: s'' =>
            if (0xDC00 <=? y) && (y <=? 0xDFFF) then
              let cp := 0x10000 + (x - 0xD800) * 0x400 + (y - 0xDC00) in
              app (pct (0xF0 + cp / 0x40000)
                   ++ pct (0x80 + (cp / 0x1000) mod 64)
                   ++ pct (0x80 + (cp / 64) mod 64)
                   ++ pct (0x80 + cp mod 64))
                <$> encodeURIComponent s''
            else None
        | [] => None
        end
      else if (0xDC00 <=? x) && (x <=? 0xDFFF) then None
      else
        app (pct (0xE0 + x / 0x1000)
             ++ pct (0x80 + (x / 64) mod 64)
             ++ pct (0x80 + x mod 64))
          <$> encodeURIComponent s'
  end.

(** What one retrieval attempt yields: the argument it passes to
    [processBookContent], or nothing. *)
Inductive attempt : Type :=
| Got (text : option jsstring)
| Failed.

(** Lines 112-121. *)
Definition directAttempt (net : network) (contentUrl : jsstring) : attempt :=
  match net 0%nat contentUrl with
  | Some response =>
      if ok response then
        match body response with
        | Some text => Got (Some text)
        | None => Failed
        end
      else Failed
  | None => Failed
  end.

(** Lines 133-140: the payload of a relay's response; [None] when reading
    it throws. *)
Definition proxyText (proxy : jsstring) (response : Response)
  : option (option jsstring) :=
  if includes proxy (js "codetabs") || includes proxy (js "bridged")
  then Some <$> body response
  else if includes proxy (js "allorigins")
  then jsonContents response
  else Some <$> body response.

(** Lines 124-150: the relays in turn, [n] fetches having been made
    before; also the URLs fetched, in order. *)
Fixpoint tryProxies (net : network) (contentUrl : jsstring)
    (proxies : list jsstring) (n : nat) : attempt * list jsstring :=
  match proxies with
  | [] => (Failed, [])
  | proxy :: rest =>
      match encodeURIComponent contentUrl with
      | None => tryProxies net contentUrl rest n
      | Some enc =>
          let proxyUrl := proxy ++ enc in
          let next := tryProxies net contentUrl rest (S n) in
          match net n proxyUrl with
          | Some response =>
              if ok response then
                match proxyText proxy response with
                | Some text => (Got text, [proxyUrl])
                | None => (fst next, proxyUrl :: snd next)
                end
              else (fst next, proxyUrl :: snd next)
          | None => (fst next, proxyUrl :: snd next)
          end
      end
  end.

(** The text and source handed to [processBookContent] by an open
    attempt, and the URLs fetched on the way. *)
Definition retrieve (net : network) (book : Book)
  : option jsstring * jsstring * list jsstring :=
  let contentUrl := resolveContentUrl book in
  if negb (truthy contentUrl)
  then (Some (generateDemoContent book), js "demo", [])
  else
    match directAttempt net contentUrl with
    | Got text => (text, contentUrl, [contentUrl])
    | Failed =>
        match tryProxies net contentUrl corsProxies 1 with
        | (Got text, urls) => (text, contentUrl, contentUrl :: urls)
        | (Failed, urls) =>
            (Some (generateDemoContent book), js "demo", contentUrl :: urls)
        end
    end.

(** [loadBookContent]: the state it leaves and the URLs it fetched.  Every
    [throw] inside it, the one of line 96 included, is caught at line 155,
    which processes the demonstration text. *)
Definition loadBookContent (net : network) (book : Book) (st : ReaderState)
  : ReaderState * list jsstring :=
  let st1 := st |> setLoading true |> setError None in
  let '(text, source, urls) := retrieve net book in
  (processBookContent text source st1, urls).

(** The effect on [book], line 56: load the content, reset the
    progress. *)
Definition openBook (net : network) (book : Book) (st : ReaderState)
  : ReaderState * list jsstring :=
  let '(st', urls) := loadBookContent net book st in
  (loadReadingProgress st', urls).

(** ** BookService: search *)

Record SearchFilters : Type := mkFilters {
  filter_language : jsstring;
  filter_format : jsstring;
  sortBy : jsstring
}.

Record SearchResult : Type := mkResult {
  books : list Book;
  totalCount : Z;
  hasMore : bool
}.

(** The lower-case mapping on the Basic Latin and Latin-1 letters; other
    code units are left as they are. *)
Definition lowerUnit (c : N) : N :=
  if isUpper c then c + 32
  else if (0xC0 <=? c) && (c <=? 0xDE) && negb (c =? 0xD7) then c + 32
  else c.

Definition toLowerCase (s : jsstring) : jsstring := map lowerUnit s.

(** The key of line 204; a missing first author is printed as
    [undefined] by the template. *)
Definition dedupKey (book : Book) : jsstring :=
  toLowerCase (title book) ++ js "-" ++
  match head (authors book) with
  | Some a => toLowerCase a
  | None => js "undefined"
  end.

Fixpoint dedupFilter (seen : gset jsstring) (books : list Book) : list Book :=
  match books with
  | [] => []
  | book :: rest =>
      let key := dedupKey book in
      if decide (key ∈ seen) then dedupFilter seen rest
      else book :: dedupFilter ({[ key ]} ∪ seen) rest
  end.

Definition deduplicateBooks (books : list Book) : list Book :=
  dedupFilter ∅ books.

Inductive Provider : Type := Gutenberg | OpenLibrary.

(** [searchBooks], given what [searchGutenberg] and [searchOpenLibrary]
    (lines 57-158: one request each, the reply mapped to books) return;
    [None] stands for a thrown error.  Also the providers queried, in
    order. *)
Definition searchBooks
    (searchGutenberg searchOpenLibrary :
       jsstring -> SearchFilters -> Z -> option SearchResult)
    (query : jsstring) (filters : SearchFilters) (page : Z)
  : option SearchResult * list Provider :=
  match searchGutenberg query filters page with
  | None => (None, [Gutenberg])
  | Some gutenbergBooks =>
      if (length (books gutenbergBooks) <? 10)%nat then
        match searchOpenLibrary query filters page with
        | None => (None, [Gutenberg; OpenLibrary])
        | Some openLibraryBooks =>
            let allBooks := books gutenbergBooks ++ books openLibraryBooks in
            let uniqueBooks := deduplicateBooks allBooks in
            (Some (mkResult (take 20 uniqueBooks)
                     (totalCount gutenbergBooks + totalCount openLibraryBooks)%Z
                     (20 <=? length uniqueBooks)%nat),
             [Gutenberg; OpenLibrary])
        end
      else (Some gutenbergBooks, [Gutenberg])
  end.

(** ** BookService: reading progress in [localStorage] *)

#[local] Set Warnings "-register-all".
Inductive json : Type :=
| JNull
| JBool (b : bool)
| JNum (z : Z)
| JStr (s : jsstring)
| JArr (items : list json)
| JObj (members : list (jsstring * json)).

Fixpoint digitsGo (fuel : nat) (n : N) (acc : jsstring) : jsstring :=
  let acc' := (48 + n mod 10) :: acc in
  match fuel with
  | O => acc'
  | S f => if n / 10 =? 0 then acc' else digitsGo f (n / 10) acc'
  end.

(** The decimal digits of [n]. *)
Definition digitsOfN (n : N) : jsstring :=
  digitsGo (N.to_nat (N.log2 n)) n [].

(** [Number::toString] on an integer (plain digits: the form JavaScript
    prints below 10^21). *)
Definition numberToString (z : Z) : jsstring :=
  if (z <? 0)%Z then code "-" :: digitsOfN (Z.to_N (- z))
  else digitsOfN (Z.to_N z).

Definition hexLower (d : N) : N := if d <? 10 then 48 + d else 87 + d.

Definition uEscape (c : N) : jsstring :=
  js "\u" ++ [hexLower (c / 4096); hexLower ((c / 256) mod 16);
              hexLower ((c / 16) mod 16); hexLower (c mod 16)].

Definition isHighSurrogate (c : N) : bool := (0xD800 <=? c) && (c <=? 0xDBFF).
Definition isLowSurrogate (c : N) : bool := (0xDC00 <=? c) && (c <=? 0xDFFF).

(** [QuoteJSONString] without the enclosing quotes. *)
Fixpoint quoteChars (s : jsstring) : jsstring :=
  match s with
  | [] => []
  | x :: s' =>
      if x =? 8 then js "\b" ++ quoteChars s'
      else if x =? 9 then js "\t" ++ quoteChars s'
      else if x =? 10 then js "\n" ++ quoteChars s'
      else if x =? 12 then js "\f" ++ quoteChars s'
      else if x =? 13 then js "\r" ++ quoteChars s'
      else if x =? 34 then [92; 34] ++ quoteChars s'
      else if x =? 92 then [92; 92] ++ quoteChars s'
      else if x <? 0x20 then uEscape x ++ quoteChars s'
      else if isHighSurrogate x then
        match s' with
        | y :: s'' =>
            if isLowSurrogate y then x :: y :: quoteChars s''
            else uEscape x ++ quoteChars s'
        | [] => uEscape x
        end
      else if isLowSurrogate x then uEscape x ++ quoteChars s'
      else x :: quoteChars s'
  end.

Definition quote (s : jsstring) : jsstring := [34] ++ quoteChars s ++ [34].

(** [JSON.stringify(v)] *)
Fixpoint stringify (v : json) : jsstring :=
  match v with
  | JNull => js "null"
  | JBool true => js "true"
  | JBool false => js "false"
  | JNum z => numberToString z
  | JStr s => quote s
  | JArr items =>
      js "[" ++ join (js ",") (map stringify items) ++ js "]"
  | JObj members =>
      js "{" ++
      join (js ",")
        (map (fun m => quote (fst m) ++ js ":" ++ stringify (snd m)) members)
      ++ js "}"
  end.

Definition isJsonSpace (c : N) : bool :=
  (c =? 9) || (c =? 10) || (c =? 13) || (c =? 32).

Definition skipSpace (s : jsstring) : jsstring := dropWhile isJsonSpace s.

Definition hexVal (c : N) : option N :=
  if isDigit c then Some (c - 48)
  else if (97 <=? c) && (c <=? 102) then Some (c - 87)
  else if (65 <=? c) && (c <=? 70) then Some (c - 55)
  else None.

(** The code unit an escape letter stands for. *)
Definition unescape (e : N) : option N :=
  if e =? 34 then Some 34
  else if e =? 92 then Some 92
  else if e =? code "/" then Some 47
  else if e =? code "b" then Some 8
  else if e =? code "f" then Some 12
  else if e =? code "n" then Some 10
  else if e =? code "r" then Some 13
  else if e =? code "t" then Some 9
  else None.

Definition consChar (c : N) (r : option (jsstring * jsstring))
  : option (jsstring * jsstring) :=
  match r with
  | Some (str, rest) => Some (c :: str, rest)
  | None => None
  end.

(** A JSON string after its opening quote: its value and the input after
    the closing quote. *)
Fixpoint parseChars (s : jsstring) : option (jsstring * jsstring) :=
  match s with
  | [] => None
  | x :: s' =>
      if x =? 34 then Some ([], s')
      else if x =? 92 then
        match s' with
        | e :: s'' =>
            if e =? code "u" then
              match s'' with
              | h1 :: h2 :: h3 :: h4 :: s5 =>
                  match hexVal h1, hexVal h2, hexVal h3, hexVal h4 with
                  | Some a, Some b, Some c, Some d =>
                      consChar (a * 4096 + b * 256 + c * 16 + d) (parseChars s5)
                  | _, _, _, _ => None
                  end
              | _ => None
              end
            else
              match unescape e with
              | Some c => consChar c (parseChars s'')
              | None => None
              end
        | [] => None
        end
      else if x <? 0x20 then None
      else consChar x (parseChars s')
  end.

Fixpoint spanDigits (s : jsstring) : jsstring * jsstring :=
  match s with
  | [] => ([], [])
  | x :: s' =>
      if isDigit x
      then let r := spanDigits s' in (x :: fst r, snd r)
      else ([], s)
  end.

Definition digitsValue (ds : jsstring) : N :=
  fold_left (fun acc d => 10 * acc + (d - 48)) ds 0.

(** A JSON number that is an integer; a fraction or an exponent part is
    outside the model ([None]). *)
Definition parseNumber (s : jsstring) : option (Z * jsstring) :=
  let neg := match s with x :: _ => x =? code "-" | [] => false end in
  let s1 := if neg then tail s else s in
  let r := spanDigits s1 in
  match fst r with
  | [] => None
  | d :: more =>
      if (d =? 48) && truthy more then None
      else
        match snd r with
        | x :: _ =>
            if (x =? code ".") || (x =? code "e") || (x =? code "E") then None
            else Some (if neg then (- Z.of_N (digitsValue (fst r)))%Z
                       else Z.of_N (digitsValue (fst r)), snd r)
        | [] => Some (if neg then (- Z.of_N (digitsValue (fst r)))%Z
                      else Z.of_N (digitsValue (fst r)), snd r)
        end
  end.

(** The JSON grammar; [fuel] bounds the number of values and members
    read, each of which consumes input. *)
Fixpoint parseValue (fuel : nat) (s : jsstring) : option (json * jsstring) :=
  match fuel with
  | O => None
  | S f =>
      match skipSpace s with
      | [] => None
      | x :: s' =>
          if x =? code "{" then
            match skipSpace s' with
            | y :: s'' =>
                if y =? code "}" then Some (JObj [], s'')
                else
                  match parseMembers f (y :: s'') with
                  | Some (ms, rest) => Some (JObj ms, rest)
                  | None => None
                  end
            | [] => None
            end
          else if x =? code "[" then
            match skipSpace s' with
            | y :: s'' =>
                if y =? code "]" then Some (JArr [], s'')
                else
                  match parseItems f (y :: s'') with
                  | Some (vs, rest) => Some (JArr vs, rest)
                  | None => None
                  end
            | [] => None
            end
          else if x =? 34 then
            match parseChars s' with
            | Some (str, rest) => Some (JStr str, rest)
            | None => None
            end
          else if startsWith (x :: s') (js "true")
          then Some (JBool true, drop 4 (x :: s'))
          else if startsWith (x :: s') (js "false")
          then Some (JBool false, drop 5 (x :: s'))
          else if startsWith (x :: s') (js "null")
          then Some (JNull, drop 4 (x :: s'))
          else
            match parseNumber (x :: s') with
            | Some (z, rest) => Some (JNum z, rest)
            | None => None
            end
      end
  end
with parseMembers (fuel : nat) (s : jsstring)
  : option (list (jsstring * json) * jsstring) :=
  match fuel with
  | O => None
  | S f =>
      match skipSpace s with
      | q :: s' =>
          if q =? 34 then
            match parseChars s' with
            | Some (k, s1) =>
                match skipSpace s1 with
                | colon :: s2 =>
                    if colon =? code ":" then
                      match parseValue f s2 with
                      | Some (v, s3) =>
                          match skipSpace s3 with
                          | c :: s4 =>
                              if c =? code "," then
                                match parseMembers f s4 with
                                | Some (ms, rest) => Some ((k, v) :: ms, rest)
                                | None => None
                                end
                              else if c =? code "}" then Some ([(k, v)], s4)
                              else None
                          | [] => None
                          end
                      | None => None
                      end
                    else None
                | [] => None
                end
            | None => None
            end
          else None
      | [] => None
      end
  end
with parseItems (fuel : nat) (s : jsstring)
  : option (list json * jsstring) :=
  match fuel with
  | O => None
  | S f =>
      match parseValue f s with
      | Some (v, s1) =>
          match skipSpace s1 with
          | c :: s2 =>
              if c =? code "," then
                match parseItems f s2 with
                | Some (vs, rest) => Some (v :: vs, rest)
                | None => None
                end
              else if c =? code "]" then Some ([v], s2)
              else None
          | [] => None
          end
      | None => None
      end
  end.

(** [JSON.parse(text)]; [None] when it throws. *)
Definition JSON_parse (text : jsstring) : option json :=
  match parseValue (S (length text)) text with
  | Some (v, rest) =>
      match skipSpace rest with
      | [] => Some v
      | _ :: _ => None
      end
  | None => None
  end.

(** The outcome of [getReadingProgress]: [null], the parsed value, or a
    [SyntaxError] from [JSON.parse]. *)
Inductive ProgressResult : Type :=
| ProgressNull
| ProgressValue (v : json)
| ProgressThrows.

Definition progressKey (bookId : jsstring) : jsstring :=
  js "reading-progress-" ++ bookId.

Definition getReadingProgress (localStorage : gmap jsstring jsstring)
    (bookId : jsstring) : ProgressResult :=
  match localStorage !! progressKey bookId with
  | Some progress =>
      if truthy progress then
        match JSON_parse progress with
        | Some v => ProgressValue v
        | None => ProgressThrows
        end
      else ProgressNull
  | None => ProgressNull
  end.

(** The object literal of lines 300-304; [now] is what
    [new Date().toISOString()] returns at the time of the call. *)
Definition progressRecord (page : Z) (isBookmarked : bool) (now : jsstring)
  : json :=
  JObj [(js "page", JNum page);
        (js "isBookmarked", JBool isBookmarked);
        (js "lastRead", JStr now)].

(** [localStorage.setItem] on the store's map from keys to values (the
    store is taken to accept the write). *)
Definition saveReadingProgress (localStorage : gmap jsstring jsstring)
    (bookId : jsstring) (page : Z) (isBookmarked : bool) (now : jsstring)
  : gmap jsstring jsstring :=
  <[ progressKey bookId := stringify (progressRecord page isBookmarked now) ]>
    localStorage.

(** Property access on a parsed value: the last member of that name. *)
Fixpoint lastMember (key : jsstring) (ms : list (jsstring * json))
  : option json :=
  match ms with
  | [] => None
  | (k, v) :: ms' =>
      match lastMember key ms' with
      | Some v' => Some v'
      | None => if eqs k key then Some v else None
      end
  end.

Definition member (key : jsstring) (v : json) : option json :=
  match v with
  | JObj ms => lastMember key ms
  | _ => None
  end.

(** ** BookService: requests and replies *)

Definition GUTENBERG_API : jsstring := js "https://gutendex.com/books".
Definition OPENLIBRARY_API : jsstring := js "https://openlibrary.org".
Definition OPENLIBRARY_COVERS : jsstring := js "https://covers.openlibrary.org/b".
Definition CORS_PROXY : jsstring := js "https://api.allorigins.win/get?url=".

(** The code points of a string read as a [USVString]: a surrogate pair
    is one code point, a lone surrogate is replaced by U+FFFD. *)
Fixpoint scalarValues (s : jsstring) : list N :=
  match s with
  | [] => []
  | x :: s' =>
      if isHighSurrogate x then
        match s' with
        | y :: s'' =>
            if isLowSurrogate y
            then (0x10000 + (x - 0xD800) * 0x400 + (y - 0xDC00)) :: scalarValues s''
            else 0xFFFD :: scalarValues s'
        | [] => [0xFFFD]
        end
      else if isLowSurrogate x then 0xFFFD :: scalarValues s'
      else x :: scalarValues s'
  end.

(** The bytes of the UTF-8 encoding of a code point. *)
Definition utf8 (cp : N) : list N :=
  if cp <? 0x80 then [cp]
  else if cp <? 0x800 then [0xC0 + cp / 64; 0x80 + cp mod 64]
  else if cp <? 0x10000
  then [0xE0 + cp / 0x1000; 0x80 + (cp / 64) mod 64; 0x80 + cp mod 64]
  else [0xF0 + cp / 0x40000; 0x80 + (cp / 0x1000) mod 64;
        0x80 + (cp / 64) mod 64; 0x80 + cp mod 64].

(** What the [application/x-www-form-urlencoded] serializer leaves as it
    is: the ASCII letters and digits and [*-._]. *)
Definition isFormSafe (c : N) : bool :=
  isUpper c || isLower c || isDigit c
  || (c =? code "*") || (c =? code "-") || (c =? code ".") || (c =? code "_").

Definition formByte (b : N) : jsstring :=
  if b =? 32 then [code "+"] else if isFormSafe b then [b] else pct b.

(** A name or a value as [URLSearchParams] serializes it. *)
Definition formEncode (s : jsstring) : jsstring :=
  flat_map (fun cp => flat_map formByte (utf8 cp)) (scalarValues s).

(** [`${params}`] for a [URLSearchParams] holding [params] in order. *)
Definition serializeParams (params : list (jsstring * jsstring)) : jsstring :=
  join (js "&")
    (map (fun '(name, value) => formEncode name ++ js "=" ++ formEncode value)
       params).

Definition getMimeType (format : jsstring) : jsstring :=
  let f := toLowerCase format in
  if eqs f (js "epub") then js "application/epub+zip"
  else if eqs f (js "txt") then js "text/plain"
  else if eqs f (js "html") then js "text/html"
  else if eqs f (js "pdf") then js "application/pdf"
  else js "text/plain".

(** Lines 62-85: the parameters of the Gutendex request. *)
Definition gutenbergParams (query : jsstring) (filters : SearchFilters) (page : Z)
  : list (jsstring * jsstring) :=
  [(js "search", query); (js "page", numberToString page)]
  ++ (if negb (eqs (filter_language filters) (js "all"))
      then [(js "languages", filter_language filters)] else [])
  ++ (if negb (eqs (filter_format filters) (js "all"))
      then [(js "mime_type", getMimeType (filter_format filters))] else [])
  ++ (if eqs (sortBy filters) (js "downloads") then [(js "sort", js "download_count")]
      else if eqs (sortBy filters) (js "title") then [(js "sort", js "title")]
      else if eqs (sortBy filters) (js "author") then [(js "sort", js "author")]
      else []).

(** Line 87: the URL fetched by [searchGutenberg]. *)
Definition gutenbergSearchUrl (query : jsstring) (filters : SearchFilters) (page : Z)
  : jsstring :=
  GUTENBERG_API ++ js "?" ++ serializeParams (gutenbergParams query filters page).

(** Lines 121-129: the parameters of the Open Library request. *)
Definition openLibraryParams (query : jsstring) (filters : SearchFilters) (page : Z)
  : list (jsstring * jsstring) :=
  [(js "q", query); (js "page", numberToString page); (js "limit", js "10")]
  ++ (if negb (eqs (filter_language filters) (js "all"))
      then [(js "language", filter_language filters)] else []).

(** Line 131: the URL fetched by [searchOpenLibrary]. *)
Definition openLibrarySearchUrl (query : jsstring) (filters : SearchFilters) (page : Z)
  : jsstring :=
  OPENLIBRARY_API ++ js "/search.json?"
  ++ serializeParams (openLibraryParams query filters page).

(** What a [fetch] of the service resolves to: the [ok] flag and what
    [json()] resolves to, [None] when it rejects or the value has not
    the shape the caller reads. *)
Record Reply (A : Type) : Type := mkReply {
  reply_ok : bool;
  reply_json : option A
}.
Arguments mkReply {A} _ _.
Arguments reply_ok {A} _.
Arguments reply_json {A} _.

(** A book of the Gutendex reply, with the members the service reads;
    [item_authors] holds the [name] of each author. *)
Record GutendexItem : Type := mkItem {
  item_id : Z;
  item_title : jsstring;
  item_authors : list jsstring;
  item_subjects : list jsstring;
  item_languages : list jsstring;
  item_formats : list (jsstring * jsstring);
  item_download_count : Z
}.

Record GutendexPage : Type := mkPage {
  page_results : list GutendexItem;
  page_count : Z;
  page_next : option jsstring
}.

(** A document of the Open Library reply; an absent member is [None]. *)
Record OpenLibraryDoc : Type := mkDoc {
  doc_key : option jsstring;
  doc_title : jsstring;
  doc_author_name : option (list jsstring);
  doc_cover_i : option Z;
  doc_first_sentence : option (list jsstring);
  doc_first_publish_year : option Z;
  doc_language : option (list jsstring);
  doc_subject : option (list jsstring);
  doc_want_to_read_count : option Z
}.

Record OpenLibraryPage : Type := mkDocs {
  page_docs : list OpenLibraryDoc;
  page_numFound : Z
}.

(** The upper-case mapping on the Basic Latin and Latin-1 letters (the
    sharp s becomes two letters, the micro sign and the y with diaeresis
    leave Latin-1); other code units are left as they are. *)
Definition upperUnit (c : N) : jsstring :=
  if isLower c then [c - 32]
  else if c =? 0xDF then [83; 83]
  else if c =? 0xB5 then [0x39C]
  else if c =? 0xFF then [0x178]
  else if (0xE0 <=? c) && (c <=? 0xFE) && negb (c =? 0xF7) then [c - 32]
  else [c].

Definition toUpperCase (s : jsstring) : jsstring := flat_map upperUnit s.

Definition imageFormats : list jsstring :=
  [js "image/jpeg"; js "image/png"; js "image/gif"].

(** The loop of [findBestCover] over the formats still to try. *)
Fixpoint firstCover (formats : list (jsstring * jsstring))
    (candidates : list jsstring) : option jsstring :=
  match candidates with
  | [] => None
  | format :: rest =>
      if truthyO (prop formats format) then prop formats format
      else firstCover formats rest
  end.

Definition findBestCover (formats : list (jsstring * jsstring)) : option jsstring :=
  firstCover formats imageFormats.

(** [s.replace(pattern, replacement)] for a string pattern and a
    replacement without [$]: the first occurrence is replaced. *)
Fixpoint replaceFirst (pattern replacement s : jsstring) : jsstring :=
  if startsWith s pattern then replacement ++ drop (length pattern) s
  else match s with
       | [] => []
       | x :: s' => x :: replaceFirst pattern replacement s'
       end.

(** Lines 96-107: a book of the Gutendex reply as a [Book]. *)
Definition gutenbergBook (item : GutendexItem) : Book :=
  mkBook (js "gutenberg-" ++ numberToString (item_id item))
         (item_title item)
         (item_authors item)
         (findBestCover (item_formats item))
         (Some (join (js ", ") (item_subjects item)))
         (if (1000 <? item_download_count item)%Z then Some (js "Classic") else None)
         (toUpperCase <$> head (item_languages item))
         (Some (take 5 (item_subjects item)))
         (Some (item_formats item))
         (Some (item_download_count item)).

Definition searchGutenberg (fetch : jsstring -> option (Reply GutendexPage))
    (query : jsstring) (filters : SearchFilters) (page : Z) : option SearchResult :=
  match fetch (gutenbergSearchUrl query filters page) with
  | Some response =>
      if reply_ok response then
        match reply_json response with
        | Some data =>
            Some (mkResult (map gutenbergBook (page_results data))
                    (page_count data)
                    (match page_next data with Some _ => true | None => false end))
        | None => None
        end
      else None
  | None => None
  end.

Definition createOpenLibraryFormats (key : option jsstring)
  : list (jsstring * jsstring) :=
  if truthyO key
  then [(js "text/html", OPENLIBRARY_API ++ default [] key)]
  else [].

(** Lines 140-151: a document of the Open Library reply as a [Book]; a
    number is falsy when it is 0. *)
Definition openLibraryBook (item : OpenLibraryDoc) : Book :=
  mkBook (js "openlibrary-" ++
          match doc_key item with
          | Some key => replaceFirst (js "/works/") [] key
          | None => js "undefined"
          end)
         (doc_title item)
         (default [js "Unknown Author"] (doc_author_name item))
         (match doc_cover_i item with
          | Some cover =>
              if (cover =? 0)%Z then None
              else Some (OPENLIBRARY_COVERS ++ js "/id/" ++ numberToString cover
                         ++ js "-M.jpg")
          | None => None
          end)
         (join (js " ") <$> doc_first_sentence item)
         (numberToString <$> doc_first_publish_year item)
         (toUpperCase <$> (doc_language item ≫= head))
         (take 5 <$> doc_subject item)
         (Some (createOpenLibraryFormats (doc_key item)))
         (Some (match doc_want_to_read_count item with
                | Some n => n
                | None => 0%Z
                end)).

Definition searchOpenLibrary (fetch : jsstring -> option (Reply OpenLibraryPage))
    (query : jsstring) (filters : SearchFilters) (page : Z) : option SearchResult :=
  match fetch (openLibrarySearchUrl query filters page) with
  | Some response =>
      if reply_ok response then
        match reply_json response with
        | Some data =>
            Some (mkResult (map openLibraryBook (take 10 (page_docs data)))
                    (page_numFound data)
                    (10 <=? length (page_docs data))%nat)
        | None => None
        end
      else None
  | None => None
  end.

(** [getBookDetails]: the book, [None] for [null], and the URLs
    fetched.  Whatever is thrown inside is caught at line 288. *)
Definition getBookDetails (fetch : jsstring -> option (Reply GutendexItem))
    (bookId : jsstring) : option Book * list jsstring :=
  if startsWith bookId (js "gutenberg-") then
    let id := replaceFirst (js "gutenberg-") [] bookId in
    let url := GUTENBERG_API ++ js "/" ++ id in
    match fetch url with
    | Some response =>
        if reply_ok response then
          match reply_json response with
          | Some item =>
              (Some (mkBook bookId
                       (item_title item)
                       (item_authors item)
                       (findBestCover (item_formats item))
                       (Some (join (js ", ") (item_subjects item)))
                       (if (1000 <? item_download_count item)%Z
                        then Some (js "Classic") else None)
                       (toUpperCase <$> head (item_languages item))
                       (Some (item_subjects item))
                       (Some (item_formats item))
                       (Some (item_download_count item))),
               [url])
          | None => (None, [url])
          end
        else (None, [url])
    | None => (None, [url])
    end
  else (None, []).

(** ** BookService: downloads *)

(** The names every object inherits from [Object.prototype]. *)
Definition objectPrototypeNames : list jsstring :=
  [js "constructor"; js "hasOwnProperty"; js "isPrototypeOf";
   js "propertyIsEnumerable"; js "toLocaleString"; js "toString"; js "valueOf";
   js "__proto__"; js "__defineGetter__"; js "__defineSetter__";
   js "__lookupGetter__"; js "__lookupSetter__"].

(** [formats[format]] for a name chosen by the caller: the object's own
    string, a function or object inherited from [Object.prototype], or
    [undefined]. *)
Inductive PropertyValue : Type :=
| OwnString (v : jsstring)
| Inherited
| Undefined.

Definition getProperty (o : list (jsstring * jsstring)) (name : jsstring)
  : PropertyValue :=
  match prop o name with
  | Some v => OwnString v
  | None => if existsb (eqs name) objectPrototypeNames then Inherited else Undefined
  end.

(** [s.split(c)] for a separator [c] of one code unit; [piece] is the
    text since the last separator. *)
Fixpoint splitAt (c : N) (piece : jsstring) (s : jsstring) : list jsstring :=
  match s with
  | [] => [piece]
  | x :: s' =>
      if x =? c then piece :: splitAt c [] s' else splitAt c (piece ++ [x]) s'
  end.

Definition splitChar (c : N) (s : jsstring) : list jsstring := splitAt c [] s.

(** [parts.pop()] inside a template: the last element, [undefined] for
    an empty array. *)
Definition pop (parts : list jsstring) : jsstring :=
  default (js "undefined") (last parts).

(** Source pattern: "/[^a-z0-9]/gi" *)
Definition re_unsafe : regex := Cls true (fun c => isLower c || isDigit c).

(** Line 219 *)
Definition downloadFilename (book : Book) (format : jsstring) : jsstring :=
  toLowerCase (replace_all flags_gi re_unsafe [TLit (js "_")] (title book))
  ++ js "." ++ pop (splitChar (code "/") format).

Definition notAvailable : jsstring := js "Format not available for download".
Definition downloadFailed : jsstring :=
  js "Failed to download book - try the direct link instead".

(** What [downloadBook] does: it throws, or clicks a link to the book's
    own URL (in a new tab), or clicks a link to a blob made of the
    reply's [contents] ([None] when it is not a string). *)
Inductive DownloadResult : Type :=
| DownloadThrows (message : jsstring)
| LinkClicked (href download : jsstring)
| BlobSaved (contents : option jsstring) (download : jsstring).

(** [downloadBook]: the outcome and the URLs fetched. *)
Definition downloadBook (fetch : jsstring -> option Response)
    (book : Book) (format : jsstring) : DownloadResult * list jsstring :=
  match formats book with
  | None => (DownloadThrows notAvailable, [])
  | Some fs =>
      match getProperty fs format with
      | Undefined => (DownloadThrows notAvailable, [])
      | Inherited =>
          (* [url.includes] is not a function: thrown inside the try *)
          (DownloadThrows downloadFailed, [])
      | OwnString url =>
          if negb (truthy url) then (DownloadThrows notAvailable, [])
          else
            let filename := downloadFilename book format in
            if includes url (js "gutenberg.org")
            then (LinkClicked url filename, [])
            else
              match encodeURIComponent url with
              | None => (DownloadThrows downloadFailed, [])
              | Some enc =>
                  let proxyUrl := CORS_PROXY ++ enc in
                  match fetch proxyUrl with
                  | Some response =>
                      if ok response then
                        match jsonContents response with
                        | Some contents => (BlobSaved contents filename, [proxyUrl])
                        | None => (DownloadThrows downloadFailed, [proxyUrl])
                        end
                      else (DownloadThrows downloadFailed, [proxyUrl])
                  | None => (DownloadThrows downloadFailed, [proxyUrl])
                  end
              end
      end
  end.

(** ** BookCard.tsx *)

(** [truncateText] of BookCard.tsx, lines 47-50; [substring] takes a
    negative end for 0. *)
Definition truncateText (text : jsstring) (maxLength : Z) : jsstring :=
  if (Z.of_nat (length text) <=? maxLength)%Z then text
  else take (Z.to_nat maxLength) text ++ js "...".

(** The later revision of the card (part_000, lines 353-357) returns the
    empty string for an empty text first. *)
Definition truncateTextChecked (text : jsstring) (maxLength : Z) : jsstring :=
  if negb (truthy text) then []
  else if (Z.of_nat (length text) <=? maxLength)%Z then text
  else take (Z.to_nat maxLength) text ++ js "...".

Definition downloadExtensions : list jsstring :=
  [js "epub"; js "txt"; js "html"; js "pdf"].

Definition getAvailableFormats (book : Book) : list jsstring :=
  match formats book with
  | None => []
  | Some fs =>
      List.filter
        (fun format =>
           existsb (fun ext => includes (toLowerCase format) ext) downloadExtensions)
        (keys fs)
  end.

(** ** BookSearch and Index *)

Module BookSearch.

(** The component's [useState] cells. *)
Record State : Type := mkState {
  query : jsstring;
  showFilters : bool;
  filters : SearchFilters;
  placeholderIndex : nat
}.

Definition initialState : State :=
  mkState [] false (mkFilters (js "all") (js "all") (js "relevance")) 0.

Definition quoted (s : jsstring) : jsstring := [34] ++ s ++ [34].

Definition placeholders : list jsstring :=
  [js "Search for " ++ quoted (js "Pride and Prejudice") ++ js "...";
   js "Find books by " ++ quoted (js "Charles Dickens") ++ js "...";
   js "Explore " ++ quoted (js "science fiction") ++ js "...";
   js "Discover " ++ quoted (js "classic literature") ++ js "...";
   js "Search for " ++ quoted (js "programming books") ++ js "..."].

(** The interval's callback, line 738. *)
Definition tick (st : State) : State :=
  mkState (query st) (showFilters st) (filters st)
          ((placeholderIndex st + 1) mod length placeholders).

(** [placeholders[placeholderIndex]], [None] for [undefined]. *)
Definition placeholder (st : State) : option jsstring :=
  placeholders !! placeholderIndex st.

(** [handleSearch]: the call of [onSearch] it makes, if any. *)
Definition handleSearch (st : State) : option (jsstring * SearchFilters) :=
  if truthy (trim (query st))
  then Some (trim (query st), filters st)
  else None.

(** [keyof SearchFilters] *)
Inductive FilterKey : Type := KLanguage | KFormat | KSortBy.

Definition withFilter (key : FilterKey) (value : jsstring) (f : SearchFilters)
  : SearchFilters :=
  match key with
  | KLanguage => mkFilters value (filter_format f) (sortBy f)
  | KFormat => mkFilters (filter_language f) value (sortBy f)
  | KSortBy => mkFilters (filter_language f) (filter_format f) value
  end.

(** [handleFilterChange]: the new state and the call of [onSearch] it
    makes, if any. *)
Definition handleFilterChange (key : FilterKey) (value : jsstring) (st : State)
  : State * option (jsstring * SearchFilters) :=
  let newFilters := withFilter key value (filters st) in
  (mkState (query st) (showFilters st) newFilters (placeholderIndex st),
   if truthy (trim (query st))
   then Some (trim (query st), newFilters)
   else None).

End BookSearch.

Module Index.

Inductive ViewMode : Type := GridView | ListView.

(** The members of a search result; the page's cells take their names
    below. *)
Definition foundBooks : SearchResult -> list Book := books.
Definition foundMore : SearchResult -> bool := hasMore.

Record Toast : Type := mkToast {
  toast_title : jsstring;
  toast_description : jsstring;
  toast_destructive : bool
}.

(** The page's [useState] cells, and the toasts shown so far, the
    latest first. *)
Record State : Type := mkState {
  books : list Book;
  loading : bool;
  viewMode : ViewMode;
  currentReader : option Book;
  searchPerformed : bool;
  hasMore : bool;
  currentPage : Z;
  toasts : list Toast
}.

Definition initialState : State :=
  mkState [] false GridView None false false 1 [].

Definition searchFailed : jsstring := js "Failed to search books. Please try again.".

(** [handleSearch], given the two providers: the state it leaves and
    the providers queried.  [searchBooks] is called for page 1. *)
Definition handleSearch
    (searchGutenberg searchOpenLibrary :
       jsstring -> SearchFilters -> Z -> option SearchResult)
    (query : jsstring) (filters : SearchFilters) (st : State)
  : State * list Provider :=
  let '(outcome, asked) :=
    searchBooks searchGutenberg searchOpenLibrary query filters 1 in
  (match outcome with
   | Some result =>
       mkState (foundBooks result) false (viewMode st) (currentReader st)
               true (foundMore result) 1
               (mkToast (js "Search completed")
                  (js "Found "
                   ++ numberToString (Z.of_nat (length (foundBooks result)))
                   ++ js " books") false :: toasts st)
   | None =>
       mkState (books st) false (viewMode st) (currentReader st)
               (searchPerformed st) (hasMore st) 1
               (mkToast (js "Search failed") searchFailed true :: toasts st)
   end, asked).

(** [handleDownload]: the state it leaves and the URLs fetched. *)
Definition handleDownload (fetch : jsstring -> option Response)
    (book : Book) (format : jsstring) (st : State)
  : State * list jsstring :=
  let '(outcome, requests) := downloadBook fetch book format in
  let toast :=
    match outcome with
    | DownloadThrows message => mkToast (js "Download failed") message true
    | _ =>
        mkToast (js "Download started")
          (js "Downloading " ++ [34] ++ title book ++ [34] ++ js " in "
           ++ toUpperCase (pop (splitChar (code "/") format)) ++ js " format")
          false
    end in
  (mkState (books st) (loading st) (viewMode st) (currentReader st)
           (searchPerformed st) (hasMore st) (currentPage st)
           (toast :: toasts st),
   requests).

Definition setLoading (v : bool) (st : State) : State :=
  mkState (books st) v (viewMode st) (currentReader st)
          (searchPerformed st) (hasMore st) (currentPage st) (toasts st).

Definition loadMoreBooks (st : State) : State :=
  if negb (hasMore st) || loading st then st
  else st |> setLoading true |> setLoading false.

End Index.

(** ** Predicates of the statements *)

(** The index is a valid page, a page count of 0 counting as one empty
    page. *)
Definition pageInRange (st : ReaderState) : Prop :=
  (0 <= currentPage st < Z.max (totalPages st) 1)%Z.

(** No key of the format map contains [text] or [html] (so none is
    [text/html], [text/plain; charset=utf-8] or [text/plain]); an absent
    or empty map is such a map. *)
Definition noReadableKey (book : Book) : bool :=
  forallb (fun k => negb (isReadableFormat k)) (keys (default [] (formats book))).


(** The page buffer after the paragraphs of [g] have been appended. *)
Definition bufferOf (g : list jsstring) : jsstring :=
  concat (map (fun p => p ++ [nl; nl]) g).

(** The page made of the paragraphs of [g]. *)
Definition pageOf (g : list jsstring) : jsstring := trim (bufferOf g).

(** The words of a text, in order: its maximal runs of code units that
    are not white space; [w] is the word being read. *)
Fixpoint wordsFrom (w : jsstring) (s : jsstring) : list jsstring :=
  match s with
  | [] => if truthy w then [w] else []
  | x :: s' =>
      if isWhiteSpace x
      then (if truthy w then [w] else []) ++ wordsFrom [] s'
      else wordsFrom (w ++ [x]) s'
  end.

Definition wordsOf (s : jsstring) : list jsstring := wordsFrom [] s.

(** The number of occurrences of a code unit. *)
Definition occurrences (c : N) (s : jsstring) : nat :=
  length (List.filter (N.eqb c) s).

(** The characters that separate the parts of a URL. *)
Definition isUrlSeparator (c : N) : bool :=
  (c =? code "/") || (c =? code "?") || (c =? code "&") || (c =? code "#")
  || (c =? code ":") || (c =? code "=") || (c =? code " ").

(** A small ASCII letter, a digit or an underscore. *)
Definition isNameChar (c : N) : bool := isLower c || isDigit c || (c =? code "_").

(** The URL the book has for [format], the empty string when it has
    none. *)
Definition ownUrl (book : Book) (format : jsstring) : jsstring :=
  match formats book with
  | Some fs =>
      match getProperty fs format with
      | OwnString url => url
      | _ => []
      end
  | None => []
  end.

(** ** Notions of the proofs: strings and patterns *)

(** The line feed, as a predicate. *)
Definition isNl (x : N) : bool := nl =? x.

(** Nothing but white space. *)
Definition allWs (s : jsstring) : Prop := Forall (fun x => isWhiteSpace x = true) s.

(** The code unit before the position reached by skipping the leading
    run of [q]. *)
Fixpoint lastOf (q : N -> bool) (prev : option N) (s : jsstring) : option N :=
  match s with
  | x :: s' => if q x then lastOf q (Some x) s' else prev
  | [] => prev
  end.

(** Every match of [r] starts with the code unit [c]. *)
Fixpoint headIs (c : N) (r : regex) : Prop :=
  match r with
  | Cls false p => forall x, p x = true -> x = c
  | Seq r1 _ => headIs c r1
  | Group _ r1 => headIs c r1
  | _ => False
  end.

(** Not an ASCII letter, so not changed by the case mapping. *)
Definition notLetter (c : N) : Prop := isUpper c = false /\ isLower c = false.

(** ** Notions of the proofs: paragraphs and words *)




(** The number of maximal runs of white space, [inRun] telling whether
    the text continues one. *)
Fixpoint wsRuns (inRun : bool) (s : jsstring) : nat :=
  match s with
  | [] => 0
  | x :: s' =>
      if isWhiteSpace x
      then (if inRun then 0 else 1) + wsRuns true s'
      else wsRuns false s'
  end.

(** The number of maximal runs of code units that are not white space. *)
Fixpoint tokens (inToken : bool) (s : jsstring) : nat :=
  match s with
  | [] => 0
  | x :: s' =>
      if isWhiteSpace x
      then tokens false s'
      else (if inToken then 0 else 1) + tokens true s'
  end.

(** A truth value as a number. *)
Definition bit (b : bool) : nat := if b then 1 else 0.

(** Whether the text ends in white space, [w] telling it for the empty
    text. *)
Fixpoint endsWs (w : bool) (s : jsstring) : bool :=
  match s with
  | [] => w
  | x :: s' => endsWs (isWhiteSpace x) s'
  end.



(** ** Notions of the proofs: the clean-up as one-pass scanners *)

(** Runs of spaces and tabs become one space; [inRun] tells that the
    run's space has been written. *)
Fixpoint squeeze (inRun : bool) (s : jsstring) : jsstring :=
  match s with
  | [] => []
  | x :: s' =>
      if isSpaceTab x
      then if inRun then squeeze true s' else 32 :: squeeze true s'
      else x :: squeeze false s'
  end.

(** Spaces and tabs after a line feed are dropped; [dropping] tells that
    the scanner is right after one. *)
Fixpoint dropAfterNl (dropping : bool) (s : jsstring) : jsstring :=
  match s with
  | [] => []
  | x :: s' =>
      if dropping && isSpaceTab x then dropAfterNl true s'
      else x :: dropAfterNl (isNl x) s'
  end.

(** The run of spaces and tabs at the head of [s] ends at a line feed. *)
Definition beforeNl (s : jsstring) : bool :=
  match dropWhile isSpaceTab s with
  | x :: _ => isNl x
  | [] => false
  end.

(** Spaces and tabs before a line feed are dropped. *)
Fixpoint dropBeforeNl (s : jsstring) : jsstring :=
  match s with
  | [] => []
  | x :: s' =>
      if isSpaceTab x && beforeNl s' then dropBeforeNl s'
      else x :: dropBeforeNl s'
  end.

(** Line feeds after two line feeds are dropped; [k] counts the line
    feeds just written. *)
Fixpoint capNl (k : nat) (s : jsstring) : jsstring :=
  match s with
  | [] => []
  | x :: s' =>
      if isNl x
      then if (2 <=? k)%nat then capNl k s' else x :: capNl (S k) s'
      else x :: capNl 0 s'
  end.

(** [prev] and [x] are a [bad] pair. *)
Definition badAfter (bad : N -> N -> bool) (prev : option N) (x : N) : bool :=
  match prev with Some p => bad p x | None => false end.

(** No two neighbours of [s] (nor [prev] and the head of [s]) are a
    [bad] pair. *)
Fixpoint noPair (bad : N -> N -> bool) (prev : option N) (s : jsstring) : bool :=
  match s with
  | [] => true
  | x :: s' => negb (badAfter bad prev x) && noPair bad (Some x) s'
  end.

(** No third line feed in a row, [k] line feeds coming before [s]. *)
Fixpoint noNl3 (k : nat) (s : jsstring) : bool :=
  match s with
  | [] => true
  | x :: s' => if isNl x then (k <? 2)%nat && noNl3 (S k) s' else noNl3 0 s'
  end.

(** The pairs of neighbours that the clean-up removes. *)
Definition twoBlanks (a b : N) : bool := isSpaceTab a && isSpaceTab b.
Definition blankAfterNl (a b : N) : bool := isNl a && isSpaceTab b.
Definition blankBeforeNl (a b : N) : bool := isSpaceTab a && isNl b.
Definition noTab (s : jsstring) : Prop := Forall (fun x => (x =? tab) = false) s.

(** Whether the code unit before the position is a blank, or a line
    feed. *)
Definition isBlankAt (o : option N) : bool :=
  match o with Some c => isSpaceTab c | None => false end.
Definition isNlAt (o : option N) : bool :=
  match o with Some c => isNl c | None => false end.

(** What the markup clean-up leaves: no tab, no two blanks in a row, no
    blank next to a line feed, no third line feed in a row, no white
    space at either end. *)
Record cleanMarkup (s : jsstring) : Prop := {
  cm_noTab : noTab s;
  cm_twoBlanks : noPair twoBlanks None s = true;
  cm_afterNl : noPair blankAfterNl None s = true;
  cm_beforeNl : noPair blankBeforeNl None s = true;
  cm_nl3 : noNl3 0 s = true;
  cm_trim : trim s = s
}.

(** What the plain-text clean-up leaves. *)
Record cleanPlain (s : jsstring) : Prop := {
  cp_noTab : noTab s;
  cp_twoBlanks : noPair twoBlanks None s = true;
  cp_nl3 : noNl3 0 s = true;
  cp_trim : trim s = s
}.

(** ** Notions of the proofs: JSON text *)

(** Horner's rule on decimal digits. *)
Definition horner (acc d : N) : N := 10 * acc + (d - 48).

(** What may follow a number in a JSON text read back by the parser
    here: a comma or a closing bracket. *)
Definition endsNumber (x : N) : bool :=
  negb (isDigit x) && negb ((x =? code ".") || (x =? code "e") || (x =? code "E")).

(** [true] and [false] as JSON text. *)
Definition boolText (b : bool) : jsstring := if b then js "true" else js "false".

(** ** Notions of the proofs: matches, pages, query strings *)

(** Captures, match results and continuations that hold nothing but
    code units satisfying [P]. *)
Definition capsIn (P : N -> Prop) (c : caps) : Prop :=
  Forall (fun e => Forall P (snd e)) c.

Definition resultIn (P : N -> Prop) (m : option mresult) : Prop :=
  match m with
  | Some (c, _, rest) => capsIn P c /\ Forall P rest
  | None => True
  end.

Definition contIn (P : N -> Prop) (k : cont) : Prop :=
  forall prev s c, Forall P s -> capsIn P c -> resultIn P (k prev s c).

Definition templateIn (P : N -> Prop) (tpl : list tpart) : Prop :=
  Forall (fun part => match part with TLit s => Forall P s | TCap _ => True end) tpl.

(** A page with content and without white space at either end. *)
Definition tidyPage (page : jsstring) : Prop := truthy page = true /\ trim page = page.

(** The words of a group of paragraphs, as the program counts them. *)
Definition groupWords (g : list jsstring) : nat := list_sum (map countWords g).

(** Every closed group is a page, and the paragraph after it would not
    have fitted. *)
Definition forcedBreaks (groups : list (list jsstring)) (g : list jsstring) : Prop :=
  forall (i : nat) (gi : list jsstring),
    groups !! i = Some gi ->
    truthy (pageOf gi) = true
    /\ exists p : jsstring,
         head (concat (drop (S i) groups) ++ g) = Some p
         /\ (wordsPerPage < groupWords gi + countWords p)%nat.

(** The characters that delimit the parts of a query string. *)
Definition isDelimiter (c : N) : bool :=
  (c =? code "&") || (c =? code "=") || (c =? code "?") || (c =? code "#").

(** One parameter of a query string. *)
Definition pairText (p : jsstring * jsstring) : jsstring :=
  formEncode (fst p) ++ js "=" ++ formEncode (snd p).

(** ** Notions of the proofs: entities and line ends *)

(** A literal is replaced wherever it starts, left to right; [skip]
    counts the code units of the current occurrence still to pass. *)
Fixpoint replaceLit (L R : jsstring) (skip : nat) (s : jsstring) : jsstring :=
  match s with
  | [] => []
  | x :: s' =>
      match skip with
      | S k => replaceLit L R k s'
      | O =>
          if startsWith s L
          then R ++ replaceLit L R (length L - 1) s'
          else x :: replaceLit L R 0 s'
      end
  end.

(** No end of [e] is a beginning of [L] that a following text could
    complete. *)
Fixpoint selfContained (e L : jsstring) : bool :=
  match e with
  | [] => true
  | _ :: e' =>
      negb (startsWith L e && (length e <? length L)%nat) && selfContained e' L
  end.

(** Text with no tag and no entity in it. *)
Definition plainText (s : jsstring) : Prop :=
  Forall (fun x => x <> code "<" /\ x <> code "&") s.

(** The six entity rules, in the order of the source, on a text that the
    tag rules leave as it is. *)
Definition decodeEntities (u : jsstring) : jsstring :=
  u |> replaceLit (js "&nbsp;") (js " ") 0
    |> replaceLit (js "&amp;") (js "&") 0
    |> replaceLit (js "&lt;") (js "<") 0
    |> replaceLit (js "&gt;") (js ">") 0
    |> replaceLit (js "&quot;") [34] 0
    |> replaceLit (js "&apos;") (js "'") 0.

(** The text of one line: no line end in it. *)
Definition lineText (p : jsstring) : Prop :=
  Forall (fun x => x <> cr /\ x <> nl) p.

(** Every carriage return becomes a line feed. *)
Definition crToNl (s : jsstring) : jsstring :=
  flat_map (fun x => if cr =? x then [nl] else [x]) s.

(** Lines 248-249 of the plain-text branch: the two rules on line ends. *)
Definition unifyLineEnds (text : jsstring) : jsstring :=
  text
  |> replace_all flags_g (lit_list [cr; nl]) [TLit [nl]]
  |> replace_all flags_g (chr cr) [TLit [nl]].

(** ** Sample data of the scenarios *)

Definition introMarkup : jsstring := js "<h1>Intro</h1><p>Hello world.</p><p>Bye.</p>".
Definition plainSample : jsstring :=
  js "Call me   Ishmael." ++ [cr; nl; cr; nl; cr; nl; tab] ++ js "Some years ago.  ".

Definition twoParagraphs : jsstring := js "One two." ++ [nl; nl] ++ js "Three.".

(** A paragraph of 401 words between two short ones. *)
Definition longParagraph : jsstring := join (js " ") (replicate 401 (js "word")).
Definition threeParagraphs : jsstring :=
  js "Before." ++ [nl; nl] ++ longParagraph ++ [nl; nl] ++ js "After.".





Definition anyFilters : SearchFilters := mkFilters (js "all") (js "all") (js "relevance").

Definition emptyFormatsBook : Book :=
  mkBook (js "gutenberg-84") (js "Frankenstein") [js "Shelley, Mary"]
         None None None None None (Some []) None.

Definition plainTextBook : Book :=
  mkBook (js "gutenberg-84") (js "Frankenstein") [js "Shelley, Mary"]
         None None None None None
         (Some [(js "text/plain", js "https://www.gutenberg.org/files/84/84-0.txt")])
         None.

(** The JSON envelope of the scenario: an object whose [contents] member
    is the string [text]. *)
Definition envelope : jsstring :=
  js "{" ++ [34] ++ js "contents" ++ [34] ++ js ": " ++ [34] ++ js "text"
  ++ [34] ++ js "}".

(** Every fetch is answered with status 500, except the second one (the
    first relay), which succeeds with the envelope. *)
Definition envelopeNetwork : network :=
  fun n url =>
    if (n =? 1)%nat
    then Some (mkResponse true (Some envelope) (Some (Some (js "text"))))
    else Some (mkResponse false (Some []) None).

Definition offline : network := fun _ _ => None.

(** A Gutendex record and an Open Library document of the same work. *)
Definition oneHit : GutendexItem :=
  mkItem 2701 (js "Moby Dick") [js "Melville, Herman"] [js "Whaling"] [js "en"]
    [(js "text/html", js "https://www.gutenberg.org/ebooks/2701.html.images")] 5000.

Definition oneDoc : OpenLibraryDoc :=
  mkDoc (Some (js "/works/OL102749W")) (js "MOBY DICK") (Some [js "MELVILLE, HERMAN"])
    None None (Some 1851%Z) (Some [js "eng"]) None None.

(** * Properties *)

(** ** Strings *)

Ltac bools :=
  repeat match goal with
         | H : (_ || _) = true |- _ => apply orb_prop in H as [H|H]
         | H : (_ && _) = true |- _ => apply andb_prop in H as [? H]
         | H : (_ =? _) = true |- _ => apply N.eqb_eq in H
         | H : (_ <=? _) = true |- _ => apply N.leb_le in H
         | H : (_ <? _) = true |- _ => apply N.ltb_lt in H
         | H : (_ <? _) = false |- _ => apply N.ltb_ge in H
         end.


Lemma eqs_eq (a b : jsstring) : eqs a b = true <-> a = b.
Proof.
  revert b; induction a as [|x a IH]; intros [|y b]; simpl;
    try (split; congruence).
  split.
  - intros H. apply andb_prop in H as [H1 H2].
    apply N.eqb_eq in H1. apply IH in H2. congruence.
  - intros H. injection H as -> ->.
    rewrite N.eqb_refl. simpl. apply IH. reflexivity.
Qed.

Lemma eqs_refl (a : jsstring) : eqs a a = true.
Proof. apply eqs_eq; reflexivity. Qed.

Lemma dropWhile_length (q : N -> bool) (s : jsstring) :
  (length (dropWhile q s) <= length s)%nat.
Proof.
  induction s as [|x s IH]; simpl; [lia|]. destruct (q x); simpl; lia.
Qed.



Lemma dropWhile_split (q : N -> bool) (s : jsstring) :
  exists w, s = w ++ dropWhile q s /\ Forall (fun x => q x = true) w.
Proof.
  induction s as [|x s (w & E & Hw)]; cbn [dropWhile].
  - exists []. split; [reflexivity|constructor].
  - destruct (q x) eqn:Ex.
    + exists (x :: w). split; [cbn [app]; congruence|constructor; assumption].
    + exists []. split; [reflexivity|constructor].
Qed.

Lemma dropWhile_head (q : N -> bool) (s : jsstring) (x : N) (r : jsstring) :
  dropWhile q s = x :: r -> q x = false.
Proof.
  induction s as [|y s IH]; cbn [dropWhile]; [discriminate|].
  destruct (q y) eqn:E; [exact IH|]. intros H. injection H as -> _. exact E.
Qed.


Lemma shorter_after_skip (q : N -> bool) (x : N) (s : jsstring) :
  (length (dropWhile q s) <? length (x :: s))%nat = true.
Proof. apply Nat.ltb_lt. pose proof (dropWhile_length q s). simpl. lia. Qed.

Lemma trimEnd_split (s : jsstring) :
  exists w, s = trimEnd s ++ w /\ allWs w.
Proof.
  unfold trimEnd, trimStart.
  destruct (dropWhile_split isWhiteSpace (rev s)) as (w & E & Hw).
  exists (rev w). split.
  - rewrite <- rev_app_distr, <- E, rev_involutive. reflexivity.
  - apply Forall_rev. exact Hw.
Qed.


Lemma trimEnd_last (s : jsstring) :
  trimEnd s = [] \/ exists r x, trimEnd s = r ++ [x] /\ isWhiteSpace x = false.
Proof.
  unfold trimEnd, trimStart.
  destruct (dropWhile isWhiteSpace (rev s)) as [|x r] eqn:E; [left; reflexivity|].
  right. exists (rev r), x. split; [reflexivity|].
  eapply dropWhile_head. exact E.
Qed.




Lemma trim_head (s : jsstring) :
  match trim s with x :: _ => isWhiteSpace x = false | [] => True end.
Proof.
  unfold trim. destruct (trimEnd_split (trimStart s)) as (w & E & Hw).
  destruct (trimEnd (trimStart s)) as [|x r] eqn:T; [exact I|].
  unfold trimStart at 1 in E. cbn [app] in E.
  eapply dropWhile_head. exact E.
Qed.

Lemma trim_factor (s : jsstring) : exists w w', s = w ++ trim s ++ w'.
Proof.
  destruct (dropWhile_split isWhiteSpace s) as (w & E & _).
  destruct (trimEnd_split (trimStart s)) as (w' & E' & _).
  exists w, w'. unfold trim. rewrite <- E'. exact E.
Qed.

Lemma trim_Forall (P : N -> Prop) (s : jsstring) : Forall P s -> Forall P (trim s).
Proof.
  destruct (trim_factor s) as (w & w' & E). intros H. rewrite E in H.
  apply Forall_app in H as [_ H]. apply Forall_app in H as [H _]. exact H.
Qed.

Lemma trim_trim (s : jsstring) : trim (trim s) = trim s.
Proof.
  assert (D : forall q (u : jsstring), dropWhile q (dropWhile q u) = dropWhile q u).
  { intros q u. destruct (dropWhile q u) as [|x r] eqn:E; [reflexivity|].
    cbn [dropWhile]. rewrite (dropWhile_head _ _ _ _ E). reflexivity. }
  assert (H : trimStart (trim s) = trim s).
  { pose proof (trim_head s) as H. unfold trimStart.
    destruct (trim s) as [|x r]; [reflexivity|].
    cbn [dropWhile]. rewrite H. reflexivity. }
  unfold trim at 1. rewrite H. unfold trim, trimEnd.
  rewrite rev_involutive. unfold trimStart at 1. rewrite D. reflexivity.
Qed.

Lemma isNl_eq (x : N) : isNl x = true -> x = nl.
Proof. unfold isNl. intros H. apply N.eqb_eq in H. congruence. Qed.

Lemma isNl_not_spaceTab (x : N) : isNl x = true -> isSpaceTab x = false.
Proof. intros H. apply isNl_eq in H. subst x. reflexivity. Qed.

Lemma isSpaceTab_not_nl (x : N) : isSpaceTab x = true -> isNl x = false.
Proof.
  intros H. destruct (isNl x) eqn:E; [|reflexivity].
  apply isNl_not_spaceTab in E. congruence.
Qed.

Lemma spaceTab_cases (x : N) : isSpaceTab x = true -> x = 32 \/ x = tab.
Proof.
  unfold isSpaceTab. intros H. apply orb_prop in H as [H|H];
    apply N.eqb_eq in H; [left|right]; exact H.
Qed.


(** ** Regular expressions *)

Lemma clsOk_g (p : N -> bool) (x : N) : clsOk flags_g false p x = p x.
Proof. reflexivity. Qed.

(** A greedy star over a character class runs to the end of the leading
    run of the class, when the continuation either always succeeds or
    fails in front of a member of the class. *)
Lemma star_cls (fl : flags) (invert : bool) (p : N -> bool) (k : cont) :
  (forall prev s c, is_Some (k prev s c))
  \/ (forall prev x s c, clsOk fl invert p x = true -> k prev (x :: s) c = None) ->
  forall (s : jsstring) (prev : option N) (c : caps),
    rmatch fl (Star true (Cls invert p)) k prev s c
    = k (lastOf (clsOk fl invert p) prev s) (dropWhile (clsOk fl invert p) s) c.
Proof.
  intros Hk s prev c. cbn [rmatch].
  generalize (Nat.le_refl (length s)).
  generalize (length s) at 2 3 as n.
  intros n; revert s prev c.
  induction n as [|n IH]; intros s prev c Hlen.
  - destruct s; [reflexivity|simpl in Hlen; lia].
  - destruct s as [|x s]; [reflexivity|].
    cbn [lastOf dropWhile]. destruct (clsOk fl invert p x) eqn:E; [|reflexivity].
    replace (length s <? length (x :: s))%nat with true
      by (symmetry; apply Nat.ltb_lt; simpl; lia).
    rewrite IH by (simpl in Hlen; lia).
    destruct (k _ _ c) as [m|] eqn:Ek; [reflexivity|].
    destruct Hk as [Hk|Hk].
    + destruct (Hk (lastOf (clsOk fl invert p) (Some x) s)
                  (dropWhile (clsOk fl invert p) s) c) as [m Hm].
      rewrite Hm in Ek. discriminate Ek.
    + apply Hk, E.
Qed.

Lemma clsFound_only (fl : flags) (p : N -> bool) (c x : N) :
  notLetter c -> (forall y, p y = true -> y = c) -> x <> c ->
  clsFound fl p x = false.
Proof.
  intros [Hu Hl] Hp Hx. unfold clsFound.
  assert (P : forall y, y <> c -> p y = false).
  { intros y Hy. destruct (p y) eqn:E; [|reflexivity]. apply Hp in E. congruence. }
  assert (U : upperAscii x <> c).
  { unfold upperAscii. destruct (isLower x) eqn:E; [|exact Hx].
    intros <-. unfold isUpper, isLower in *.
    apply andb_prop in E as [E1 E2]. apply N.leb_le in E1, E2.
    apply andb_false_iff in Hu as [H|H]; apply N.leb_gt in H; lia. }
  assert (L : lowerAscii x <> c).
  { unfold lowerAscii. destruct (isUpper x) eqn:E; [|exact Hx].
    intros <-. unfold isUpper, isLower in *.
    apply andb_prop in E as [E1 E2]. apply N.leb_le in E1, E2.
    apply andb_false_iff in Hl as [H|H]; apply N.leb_gt in H; lia. }
  rewrite (P x Hx), (P _ U), (P _ L). destruct (ignoreCase fl); reflexivity.
Qed.

Lemma headIs_fails (fl : flags) (c : N) (r : regex) :
  notLetter c -> headIs c r ->
  forall (k : cont) (prev : option N) (s : jsstring) (cs : caps),
    match s with x :: _ => x <> c | [] => True end ->
    rmatch fl r k prev s cs = None.
Proof.
  intros Hc. induction r as [|inv p|r1 IH1 r2 _| | |i r1 IH1| | | |];
    cbn [headIs]; intros H k prev s cs Hs; try contradiction.
  - destruct inv; [contradiction|]. cbn [rmatch].
    destruct s as [|x s]; [reflexivity|]. unfold clsOk.
    rewrite (clsFound_only fl p c x Hc H Hs). reflexivity.
  - cbn [rmatch]. apply IH1; assumption.
  - cbn [rmatch]. apply IH1; assumption.
Qed.

Lemma replace_go_without_head (fl : flags) (c : N) (r : regex) (tpl : list tpart) :
  notLetter c -> headIs c r ->
  forall (n : nat) (prev : option N) (s : jsstring),
    Forall (fun x => x <> c) s -> replace_go fl r tpl n prev s = s.
Proof.
  intros Hc Hr. induction n as [|n IH]; intros prev s Hs; [reflexivity|].
  cbn [replace_go]. unfold rexec. rewrite (headIs_fails fl c r Hc Hr).
  - destruct s as [|x s]; [reflexivity|]. inversion Hs; subst.
    rewrite IH by assumption. reflexivity.
  - destruct s as [|x s]; [exact I|]. inversion Hs; assumption.
Qed.

Lemma replace_all_without_head (fl : flags) (c : N) (r : regex)
    (tpl : list tpart) (s : jsstring) :
  notLetter c -> headIs c r -> Forall (fun x => x <> c) s ->
  replace_all fl r tpl s = s.
Proof. intros Hc Hr Hs. apply (replace_go_without_head fl c r tpl Hc Hr), Hs. Qed.

(** *** A match holds nothing but code units of the subject *)

Section Subject.
Variable P : N -> Prop.

Lemma accept_in : contIn P accept.
Proof. intros prev s c Hs Hc. split; assumption. Qed.

Lemma rmatch_in (fl : flags) (r : regex) :
  forall k : cont, contIn P k -> contIn P (rmatch fl r k).
Proof.
  induction r as [|invert p|r1 IH1 r2 IH2|r1 IH1 r2 IH2|greedy r1 IH1|i r1 IH1
                 |r1 IH1| | |]; intros k Hk prev s c Hs Hc; cbn [rmatch].
  - apply Hk; assumption.
  - destruct s as [|x s']; [exact I|].
    destruct (clsOk fl invert p x); [|exact I].
    apply Hk; [|exact Hc]. inversion Hs; assumption.
  - apply IH1; [|assumption|assumption]. apply IH2, Hk.
  - pose proof (IH1 k Hk prev s c Hs Hc) as H1.
    destruct (rmatch fl r1 k prev s c); [exact H1|].
    apply IH2; assumption.
  - generalize (length s) as n. intros n. revert prev s c Hs Hc.
    induction n as [|n IHn]; intros prev s c Hs Hc; [apply Hk; assumption|].
    assert (Hloop : contIn P
              (fun prev' s' c' =>
                 if (length s' <? length s)%nat
                 then (fix loop (n : nat) (prev : option N) (s : jsstring) (c : caps)
                         {struct n} : option mresult :=
                         match n with
                         | O => k prev s c
                         | S n' =>
                             if greedy then
                               match rmatch fl r1
                                       (fun prev' s' c' =>
                                          if (length s' <? length s)%nat
                                          then loop n' prev' s' c' else None) prev s c with
                               | Some m => Some m
                               | None => k prev s c
                               end
                             else
                               match k prev s c with
                               | Some m => Some m
                               | None =>
                                   rmatch fl r1
                                     (fun prev' s' c' =>
                                        if (length s' <? length s)%nat
                                        then loop n' prev' s' c' else None) prev s c
                               end
                         end) n prev' s' c'
                 else None)).
    { intros prev' s' c' Hs' Hc'. destruct (length s' <? length s)%nat; [|exact I].
      apply IHn; assumption. }
    pose proof (IH1 _ Hloop prev s c Hs Hc) as H1.
    pose proof (Hk prev s c Hs Hc) as H2.
    destruct greedy.
    + destruct (rmatch fl r1 _ prev s c); [exact H1|exact H2].
    + destruct (k prev s c); [exact H2|exact H1].
  - apply IH1; [|assumption|assumption].
    intros prev' s' c' Hs' Hc'. apply Hk; [exact Hs'|].
    constructor; [|exact Hc']. cbn [snd]. apply Forall_take, Hs.
  - destruct (rmatch fl r1 accept prev s c); [exact I|]. apply Hk; assumption.
  - destruct (xorb _ _); [|exact I]. apply Hk; assumption.
  - destruct prev as [x|]; [|apply Hk; assumption].
    destruct (multiline fl && isLineTerminator x); [|exact I]. apply Hk; assumption.
  - destruct s as [|x s']; [apply Hk; assumption|].
    destruct (multiline fl && isLineTerminator x); [|exact I]. apply Hk; assumption.
Qed.

Lemma rexec_in (fl : flags) (r : regex) (prev : option N) (s : jsstring) :
  Forall P s -> resultIn P (rexec fl r prev s).
Proof.
  intros Hs. apply (rmatch_in fl r accept accept_in); [exact Hs|constructor].
Qed.

Lemma capture_in (i : nat) (c : caps) : capsIn P c -> Forall P (capture i c).
Proof.
  induction 1 as [|[j v] c Hv _ IH]; cbn [capture]; [constructor|].
  destruct (i =? j)%nat; [exact Hv|exact IH].
Qed.

Lemma subst_in (tpl : list tpart) (c : caps) :
  templateIn P tpl -> capsIn P c -> Forall P (subst tpl c).
Proof.
  intros Ht Hc. induction Ht as [|part tpl Hp _ IH]; cbn [subst]; [constructor|].
  destruct part as [lit|i]; apply Forall_app; split;
    [exact Hp|exact IH|apply capture_in, Hc|exact IH].
Qed.

Lemma replace_go_in (fl : flags) (r : regex) (tpl : list tpart) (n : nat) :
  templateIn P tpl ->
  forall (prev : option N) (s : jsstring),
    Forall P s -> Forall P (replace_go fl r tpl n prev s).
Proof.
  intros Ht. induction n as [|n IH]; intros prev s Hs; [exact Hs|].
  cbn [replace_go]. pose proof (rexec_in fl r prev s Hs) as H.
  assert (Hcopy : Forall P match s with
                           | [] => []
                           | x :: s' => x :: replace_go fl r tpl n (Some x) s'
                           end).
  { destruct s as [|x s']; [constructor|].
    inversion Hs; subst. constructor; [assumption|]. apply IH. assumption. }
  destruct (rexec fl r prev s) as [[[c prev'] rest]|]; [|exact Hcopy].
  destruct H as [Hc Hrest].
  destruct (length rest <? length s)%nat; apply Forall_app; split;
    try (apply subst_in; assumption); [apply IH, Hrest|exact Hcopy].
Qed.

Lemma replace_all_in (fl : flags) (r : regex) (tpl : list tpart) (s : jsstring) :
  templateIn P tpl -> Forall P s -> Forall P (replace_all fl r tpl s).
Proof. intros Ht Hs. apply replace_go_in; assumption. Qed.
End Subject.

Lemma replace_go_cls (fl : flags) (invert : bool) (p : N -> bool) (tpl : list tpart) :
  forall (s : jsstring) (n : nat) (prev : option N),
    (length s < n)%nat ->
    replace_go fl (Cls invert p) tpl n prev s
    = flat_map (fun x => if clsOk fl invert p x then subst tpl [] else [x]) s.
Proof.
  induction s as [|x s IH]; intros n prev Hn; (destruct n as [|n]; [simpl in Hn; lia|]).
  - reflexivity.
  - cbn [replace_go flat_map]. unfold rexec, accept. cbn [rmatch].
    destruct (clsOk fl invert p x).
    + replace (length s <? length (x :: s))%nat with true
        by (symmetry; apply Nat.ltb_lt; simpl; lia).
      rewrite IH by (simpl in Hn; lia). reflexivity.
    + rewrite IH by (simpl in Hn; lia). reflexivity.
Qed.

Lemma replace_all_cls (fl : flags) (invert : bool) (p : N -> bool) (tpl : list tpart)
    (s : jsstring) :
  replace_all fl (Cls invert p) tpl s
  = flat_map (fun x => if clsOk fl invert p x then subst tpl [] else [x]) s.
Proof. apply replace_go_cls. lia. Qed.

(** *** One match of the patterns of the clean-up and of the paginator *)

Lemma rexec_spaces (prev : option N) (s : jsstring) :
  rexec flags_g re_spaces prev s
  = match s with
    | x :: s' =>
        if isSpaceTab x
        then Some ([], lastOf isSpaceTab (Some x) s', dropWhile isSpaceTab s')
        else None
    | [] => None
    end.
Proof.
  unfold rexec, re_spaces, plus, spaceTab. cbn [rmatch].
  destruct s as [|x s']; [reflexivity|].
  rewrite clsOk_g. destruct (isSpaceTab x); [|reflexivity].
  change (rmatch flags_g (Star true (Cls false isSpaceTab)) accept (Some x) s' []
          = Some ([], lastOf isSpaceTab (Some x) s', dropWhile isSpaceTab s')).
  rewrite star_cls by (left; intros; eexists; reflexivity).
  reflexivity.
Qed.

Lemma rexec_nl_spaces (prev : option N) (s : jsstring) :
  rexec flags_g re_nl_spaces prev s
  = match s with
    | x :: y :: s' =>
        if isNl x && isSpaceTab y
        then Some ([], lastOf isSpaceTab (Some y) s', dropWhile isSpaceTab s')
        else None
    | _ => None
    end.
Proof.
  unfold rexec, re_nl_spaces, plus, spaceTab, chr. cbn [re_seq rmatch].
  destruct s as [|x s]; [reflexivity|].
  change (clsOk flags_g false (N.eqb nl) x) with (isNl x).
  destruct (isNl x); [|destruct s; reflexivity].
  destruct s as [|y s]; [reflexivity|].
  rewrite clsOk_g. destruct (isSpaceTab y); [|reflexivity]. cbn [andb].
  change (rmatch flags_g (Star true (Cls false isSpaceTab)) accept (Some y) s []
          = Some ([], lastOf isSpaceTab (Some y) s, dropWhile isSpaceTab s)).
  rewrite star_cls by (left; intros; eexists; reflexivity).
  reflexivity.
Qed.

Lemma rexec_spaces_nl (prev : option N) (s : jsstring) :
  rexec flags_g re_spaces_nl prev s
  = match s with
    | x :: s' =>
        if isSpaceTab x
        then match dropWhile isSpaceTab s' with
             | y :: rest => if isNl y then Some ([], Some y, rest) else None
             | [] => None
             end
        else None
    | [] => None
    end.
Proof.
  unfold rexec, re_spaces_nl, plus, spaceTab, chr. cbn [re_seq rmatch].
  destruct s as [|x s']; [reflexivity|].
  rewrite clsOk_g. destruct (isSpaceTab x); [|reflexivity].
  change (rmatch flags_g (Star true (Cls false isSpaceTab))
            (rmatch flags_g (Cls false (N.eqb nl)) accept) (Some x) s' []
          = match dropWhile isSpaceTab s' with
            | y :: rest => if isNl y then Some ([], Some y, rest) else None
            | [] => None
            end).
  rewrite star_cls.
  - rewrite clsOk_g || idtac. cbn [rmatch].
    change (clsOk flags_g false isSpaceTab) with isSpaceTab.
    destruct (dropWhile isSpaceTab s') as [|y rest]; [reflexivity|].
    reflexivity.
  - right. intros prev' y s c Hy. cbn [rmatch].
    change (clsOk flags_g false (N.eqb nl) y) with (isNl y).
    rewrite clsOk_g in Hy. rewrite (isSpaceTab_not_nl y Hy). reflexivity.
Qed.

Lemma rexec_nl3 (prev : option N) (s : jsstring) :
  rexec flags_g re_nl3 prev s
  = match s with
    | x :: y :: z :: s' =>
        if isNl x && isNl y && isNl z
        then Some ([], lastOf isNl (Some z) s', dropWhile isNl s')
        else None
    | _ => None
    end.
Proof.
  unfold rexec, re_nl3, chr. cbn [at_least rmatch].
  destruct s as [|x s]; [reflexivity|].
  change (clsOk flags_g false (N.eqb nl) x) with (isNl x).
  destruct (isNl x); [|destruct s as [|? [|? ?]]; reflexivity].
  destruct s as [|y s]; [reflexivity|].
  change (clsOk flags_g false (N.eqb nl) y) with (isNl y).
  destruct (isNl y); [|destruct s; reflexivity].
  destruct s as [|z s]; [reflexivity|].
  change (clsOk flags_g false (N.eqb nl) z) with (isNl z).
  destruct (isNl z); [|reflexivity]. cbn [andb].
  change (rmatch flags_g (Star true (Cls false (N.eqb nl))) accept (Some z) s []
          = Some ([], lastOf isNl (Some z) s, dropWhile isNl s)).
  rewrite star_cls by (left; intros; eexists; reflexivity).
  reflexivity.
Qed.

Lemma rexec_blank_lines (prev : option N) (s : jsstring) :
  rexec flags_g re_blank_lines prev s
  = match s with
    | a :: b :: s' =>
        if isNl a && isNl b
        then Some ([], lastOf isNl (Some b) s', dropWhile isNl s')
        else None
    | _ => None
    end.
Proof.
  unfold rexec, re_blank_lines, plus, chr. cbn [re_seq rmatch].
  destruct s as [|a s]; [reflexivity|].
  change (clsOk flags_g false (N.eqb nl) a) with (xorb false (isNl a)).
  rewrite xorb_false_l. destruct (isNl a); [|destruct s; reflexivity].
  destruct s as [|b s]; [reflexivity|].
  change (clsOk flags_g false (N.eqb nl) b) with (xorb false (isNl b)).
  rewrite xorb_false_l. destruct (isNl b); [|reflexivity].
  cbn [andb].
  change (rmatch flags_g (Star true (Cls false (N.eqb nl))) accept (Some b) s [] = 
     Some ([], lastOf isNl (Some b) s, dropWhile isNl s)).
  rewrite star_cls by (left; intros; eexists; reflexivity).
  reflexivity.
Qed.

Lemma rexec_ws_run (prev : option N) (s : jsstring) :
  rexec flags_g re_ws_run prev s
  = match s with
    | x :: s' =>
        if isWhiteSpace x
        then Some ([], lastOf isWhiteSpace (Some x) s', dropWhile isWhiteSpace s')
        else None
    | [] => None
    end.
Proof.
  unfold rexec, re_ws_run, plus, ws. cbn [rmatch].
  destruct s as [|x s']; [reflexivity|].
  change (clsOk flags_g false isWhiteSpace x) with (xorb false (isWhiteSpace x)).
  rewrite xorb_false_l. destruct (isWhiteSpace x); [|reflexivity].
  change (rmatch flags_g (Star true (Cls false isWhiteSpace)) accept (Some x) s' [] = 
     Some ([], lastOf isWhiteSpace (Some x) s', dropWhile isWhiteSpace s')).
  rewrite star_cls by (left; intros; eexists; reflexivity).
  reflexivity.
Qed.

(** ** Normalisation *)

(** C3: the markup input "<h1>Intro</h1><p>Hello world.</p><p>Bye.</p>"
    normalises to "=== Intro ===", a blank line, "Hello world.", a blank
    line, "Bye."; this is also the content the reader stores when the
    text comes from a source whose URL contains "html". *)
Theorem normalize_intro_scenario :
  normalizeMarkup (js "<h1>Intro</h1><p>Hello world.</p><p>Bye.</p>")
  = js "=== Intro ===" ++ [nl; nl] ++ js "Hello world." ++ [nl; nl] ++ js "Bye."
  /\ content (processBookContent
                (Some (js "<h1>Intro</h1><p>Hello world.</p><p>Bye.</p>"))
                (js "https://www.gutenberg.org/files/1/1-h.html") initialState)
     = js "=== Intro ===" ++ [nl; nl] ++ js "Hello world." ++ [nl; nl] ++ js "Bye.".
Proof. split; vm_compute; reflexivity. Qed.

(** C2, refuted: on the markup path the entities of "&lt;b&gt;" decode
    to a tag that a second pass strips; on the plain path the banner made
    for "CHAPTER 1" contains a chapter marker that a second pass wraps
    again. *)
Lemma normalize_not_idempotent :
  normalizeMarkup (js "&lt;b&gt;") = js "<b>"
  /\ normalizeMarkup (normalizeMarkup (js "&lt;b&gt;")) = []
  /\ normalizeMarkup (normalizeMarkup (js "&lt;b&gt;"))
     <> normalizeMarkup (js "&lt;b&gt;")
  /\ normalizePlain (js "CHAPTER 1") = js "=== CHAPTER 1 ==="
  /\ normalizePlain (normalizePlain (js "CHAPTER 1"))
     = js "=== " ++ [nl; nl] ++ js "=== CHAPTER 1 === ==="
  /\ normalizePlain (normalizePlain (js "CHAPTER 1"))
     <> normalizePlain (js "CHAPTER 1").
Proof.
  repeat split; try (vm_compute; reflexivity); vm_compute; discriminate.
Qed.

Lemma normalize_demo (text : jsstring) :
  normalize text (js "demo") = normalizeMarkup text.
Proof.
  unfold normalize.
  replace (isMarkupSource (js "demo")) with true by (vm_compute; reflexivity).
  reflexivity.
Qed.

(** *** The replacements of the clean-up are one-pass scanners *)

Lemma squeeze_skip (s : jsstring) :
  squeeze true s = squeeze false (dropWhile isSpaceTab s).
Proof.
  induction s as [|x s IH]; [reflexivity|]. cbn [squeeze dropWhile].
  destruct (isSpaceTab x) eqn:E; [exact IH|]. cbn [squeeze]. rewrite E.
  reflexivity.
Qed.

Lemma replace_spaces_go (n : nat) : forall (s : jsstring) (prev : option N),
  (length s < n)%nat ->
  replace_go flags_g re_spaces [TLit (js " ")] n prev s = squeeze false s.
Proof.
  induction n as [|n IH]; intros s prev Hlen; [lia|].
  destruct s as [|x s]; [reflexivity|]. cbn [replace_go squeeze].
  rewrite rexec_spaces. destruct (isSpaceTab x).
  - rewrite shorter_after_skip, IH, squeeze_skip; [reflexivity|].
    pose proof (dropWhile_length isSpaceTab s). simpl in Hlen. lia.
  - rewrite IH by (simpl in Hlen; lia). reflexivity.
Qed.

Lemma replace_spaces (s : jsstring) :
  replace_all flags_g re_spaces [TLit (js " ")] s = squeeze false s.
Proof. apply replace_spaces_go. lia. Qed.

Lemma dropAfterNl_skip (s : jsstring) :
  dropAfterNl true s = dropAfterNl false (dropWhile isSpaceTab s).
Proof.
  induction s as [|x s IH]; [reflexivity|]. cbn [dropAfterNl dropWhile andb].
  destruct (isSpaceTab x) eqn:E; [exact IH|]. reflexivity.
Qed.

Lemma dropAfterNl_head (s : jsstring) :
  match s with x :: _ => isSpaceTab x = false | [] => True end ->
  dropAfterNl true s = dropAfterNl false s.
Proof.
  destruct s as [|x s]; [reflexivity|]. intros H. cbn [dropAfterNl].
  rewrite H. reflexivity.
Qed.

Lemma replace_nl_spaces_go (n : nat) : forall (s : jsstring) (prev : option N),
  (length s < n)%nat ->
  replace_go flags_g re_nl_spaces [TLit [nl]] n prev s = dropAfterNl false s.
Proof.
  induction n as [|n IH]; intros s prev Hlen; [lia|].
  destruct s as [|x s]; [reflexivity|]. cbn [replace_go].
  rewrite rexec_nl_spaces. cbn [dropAfterNl andb].
  destruct s as [|y s'].
  - rewrite IH by (simpl in Hlen; simpl; lia). reflexivity.
  - destruct (isNl x) eqn:Ex; cbn [andb].
    + destruct (isSpaceTab y) eqn:Ey.
      * replace (length (dropWhile isSpaceTab s') <? length (x :: y :: s'))%nat
          with true.
        2:{ symmetry. apply Nat.ltb_lt.
            pose proof (dropWhile_length isSpaceTab s'). simpl. lia. }
        rewrite IH.
        2:{ pose proof (dropWhile_length isSpaceTab s'). simpl in Hlen. lia. }
        cbn [subst app dropAfterNl andb]. rewrite Ey.
        rewrite (isNl_eq x Ex), dropAfterNl_skip. reflexivity.
      * rewrite IH by (simpl in Hlen; simpl; lia).
        rewrite dropAfterNl_head by exact Ey. reflexivity.
    + rewrite IH by (simpl in Hlen; simpl; lia). reflexivity.
Qed.

Lemma replace_nl_spaces (s : jsstring) :
  replace_all flags_g re_nl_spaces [TLit [nl]] s = dropAfterNl false s.
Proof. apply replace_nl_spaces_go. lia. Qed.

Lemma dropBeforeNl_run (s : jsstring) (y : N) (rest : jsstring) :
  dropWhile isSpaceTab s = y :: rest -> isNl y = true ->
  dropBeforeNl s = y :: dropBeforeNl rest.
Proof.
  intros H Hy. induction s as [|x s IH]; [discriminate H|].
  cbn [dropWhile] in H. cbn [dropBeforeNl]. destruct (isSpaceTab x) eqn:E.
  - unfold beforeNl. rewrite H, Hy. cbn [andb]. apply IH, H.
  - injection H as -> ->. reflexivity.
Qed.

Lemma replace_spaces_nl_go (n : nat) : forall (s : jsstring) (prev : option N),
  (length s < n)%nat ->
  replace_go flags_g re_spaces_nl [TLit [nl]] n prev s = dropBeforeNl s.
Proof.
  induction n as [|n IH]; intros s prev Hlen; [lia|].
  destruct s as [|x s]; [reflexivity|]. cbn [replace_go].
  rewrite rexec_spaces_nl. cbn [dropBeforeNl]. unfold beforeNl.
  destruct (isSpaceTab x) eqn:Ex; cbn [andb].
  - destruct (dropWhile isSpaceTab s) as [|y rest] eqn:D.
    + rewrite IH by (simpl in Hlen; lia). reflexivity.
    + destruct (isNl y) eqn:Ey.
      * assert (Hr : (length rest < length s)%nat).
        { pose proof (dropWhile_length isSpaceTab s) as L. rewrite D in L.
          simpl in L. lia. }
        replace (length rest <? length (x :: s))%nat with true
          by (symmetry; apply Nat.ltb_lt; simpl; lia).
        rewrite IH by (simpl in Hlen; lia).
        rewrite (dropBeforeNl_run s y rest D Ey).
        cbn [subst app]. rewrite (isNl_eq y Ey). reflexivity.
      * rewrite IH by (simpl in Hlen; lia). reflexivity.
  - rewrite IH by (simpl in Hlen; lia). reflexivity.
Qed.

Lemma replace_spaces_nl (s : jsstring) :
  replace_all flags_g re_spaces_nl [TLit [nl]] s = dropBeforeNl s.
Proof. apply replace_spaces_nl_go. lia. Qed.

Lemma capNl_skip (s : jsstring) : capNl 2 s = capNl 0 (dropWhile isNl s).
Proof.
  induction s as [|x s IH]; [reflexivity|]. cbn [capNl dropWhile].
  destruct (isNl x) eqn:E; [exact IH|]. cbn [capNl]. rewrite E. reflexivity.
Qed.

Lemma replace_nl3_go (n : nat) : forall (s : jsstring) (prev : option N),
  (length s < n)%nat ->
  replace_go flags_g re_nl3 [TLit [nl; nl]] n prev s = capNl 0 s.
Proof.
  induction n as [|n IH]; intros s prev Hlen; [lia|].
  destruct s as [|x s]; [reflexivity|]. cbn [replace_go].
  rewrite rexec_nl3.
  assert (Hcopy : capNl 1 s = capNl 0 s \/ isNl x = false ->
                  x :: replace_go flags_g re_nl3 [TLit [nl; nl]] n (Some x) s
                  = capNl 0 (x :: s)).
  { intros H. rewrite IH by (simpl in Hlen; lia). cbn [capNl].
    destruct (isNl x); [|reflexivity].
    destruct H as [H|H]; [|discriminate H]. rewrite H. reflexivity. }
  destruct s as [|y [|z s]].
  - apply Hcopy. left. reflexivity.
  - apply Hcopy. left. cbn [capNl]. destruct (isNl y); reflexivity.
  - destruct (isNl x) eqn:Ex; [|apply Hcopy; right; reflexivity].
    destruct (isNl y) eqn:Ey; cbn [andb].
    2:{ apply Hcopy. left. cbn [capNl]. rewrite Ey. reflexivity. }
    destruct (isNl z) eqn:Ez.
    2:{ apply Hcopy. left. cbn [capNl]. rewrite Ey, Ez. reflexivity. }
    replace (length (dropWhile isNl s) <? length (x :: y :: z :: s))%nat with true.
    2:{ symmetry. apply Nat.ltb_lt. pose proof (dropWhile_length isNl s).
        simpl. lia. }
    rewrite IH.
    2:{ pose proof (dropWhile_length isNl s). simpl in Hlen. lia. }
    cbn [subst app capNl]. rewrite Ex, Ey, Ez. cbn [Nat.leb].
    rewrite (isNl_eq x Ex), (isNl_eq y Ey), capNl_skip. reflexivity.
Qed.

Lemma replace_nl3 (s : jsstring) :
  replace_all flags_g re_nl3 [TLit [nl; nl]] s = capNl 0 s.
Proof. apply replace_nl3_go. lia. Qed.

(** *** What each scanner establishes, what it keeps, what it leaves as it is *)

Lemma squeeze_noTab (s : jsstring) : forall b, noTab (squeeze b s).
Proof.
  induction s as [|x s IH]; intros b; [constructor|]. cbn [squeeze].
  destruct (isSpaceTab x) eqn:E.
  - destruct b; [apply IH|]. constructor; [reflexivity|apply IH].
  - constructor; [|apply IH]. apply N.eqb_neq. intros ->. discriminate E.
Qed.

Lemma squeeze_noPair (s : jsstring) : forall (b : bool) (o : option N),
  (b = false -> isBlankAt o = false) ->
  noPair twoBlanks o (squeeze b s) = true.
Proof.
  induction s as [|x s IH]; intros b o Ho; [reflexivity|]. cbn [squeeze].
  destruct (isSpaceTab x) eqn:E.
  - destruct b; [apply IH; exact Ho|]. cbn [noPair].
    rewrite IH by discriminate. rewrite andb_true_r.
    destruct o as [c|]; [|reflexivity]. cbn [badAfter]. unfold twoBlanks.
    cbn [isBlankAt] in Ho. rewrite (Ho eq_refl). reflexivity.
  - cbn [noPair]. rewrite IH by (intros _; exact E). rewrite andb_true_r.
    destruct o as [c|]; [|reflexivity]. cbn [badAfter]. unfold twoBlanks.
    rewrite E, andb_false_r. reflexivity.
Qed.

Lemma squeeze_fixed (s : jsstring) : forall o : option N,
  noTab s -> noPair twoBlanks o s = true -> squeeze (isBlankAt o) s = s.
Proof.
  induction s as [|x s IH]; intros o Ht Hp; [reflexivity|].
  inversion Ht as [|? ? Hx Hs]; subst. cbn [noPair] in Hp.
  apply andb_prop in Hp as [H1 H2]. apply negb_true_iff in H1.
  cbn [squeeze]. specialize (IH (Some x) Hs H2). cbn [isBlankAt] in IH.
  destruct (isSpaceTab x) eqn:E.
  - assert (Ho : isBlankAt o = false).
    { destruct o as [c|]; [|reflexivity]. cbn [badAfter] in H1.
      unfold twoBlanks in H1. rewrite E, andb_true_r in H1. exact H1. }
    rewrite Ho, IH. destruct (spaceTab_cases x E) as [->| ->]; [reflexivity|].
    discriminate Hx.
  - rewrite IH. reflexivity.
Qed.

Lemma dropAfterNl_Forall (P : N -> Prop) (s : jsstring) : forall b,
  Forall P s -> Forall P (dropAfterNl b s).
Proof.
  induction s as [|x s IH]; intros b H; [constructor|].
  inversion H; subst. cbn [dropAfterNl].
  destruct (b && isSpaceTab x); [apply IH; assumption|].
  constructor; [assumption|apply IH; assumption].
Qed.

Lemma dropAfterNl_noPair (s : jsstring) : forall o : option N,
  noPair blankAfterNl o (dropAfterNl (isNlAt o) s) = true.
Proof.
  induction s as [|x s IH]; intros o; [reflexivity|]. cbn [dropAfterNl].
  destruct (isNlAt o && isSpaceTab x) eqn:E.
  { apply andb_prop in E as [E _]. specialize (IH o). rewrite E in IH. exact IH. }
  cbn [noPair]. pose proof (IH (Some x)) as H. cbn [isNlAt] in H.
  rewrite H, andb_true_r.
  destruct o as [c|]; [|reflexivity]. cbn [badAfter isNlAt] in *.
  unfold blankAfterNl. rewrite E. reflexivity.
Qed.

(** Dropping blanks after a line feed makes no new pair, when no pair
    starting with a line feed is bad. *)
Lemma dropAfterNl_keeps (bad : N -> N -> bool) (s : jsstring) :
  (forall b, bad nl b = false) ->
  forall (dropping : bool) (pin pout : option N),
    (dropping = false -> pout = pin) ->
    (dropping = true -> pout = Some nl) ->
    noPair bad pin s = true ->
    noPair bad pout (dropAfterNl dropping s) = true.
Proof.
  intros Hbad. induction s as [|x s IH]; intros d pin pout H0 H1 Hp;
    [reflexivity|].
  cbn [noPair] in Hp. apply andb_prop in Hp as [Hx Hs].
  cbn [dropAfterNl]. destruct (d && isSpaceTab x) eqn:E.
  - apply andb_prop in E as [-> _].
    apply (IH true (Some x) pout); [discriminate|exact H1|exact Hs].
  - cbn [noPair]. rewrite (IH (isNl x) (Some x) (Some x)).
    + rewrite andb_true_r. destruct d.
      * rewrite (H1 eq_refl). cbn [badAfter]. rewrite Hbad. reflexivity.
      * rewrite (H0 eq_refl). exact Hx.
    + reflexivity.
    + intros H. rewrite (isNl_eq x H). reflexivity.
    + exact Hs.
Qed.

Lemma dropAfterNl_fixed (s : jsstring) : forall o : option N,
  noPair blankAfterNl o s = true -> dropAfterNl (isNlAt o) s = s.
Proof.
  induction s as [|x s IH]; intros o Hp; [reflexivity|].
  cbn [noPair] in Hp. apply andb_prop in Hp as [H1 H2].
  apply negb_true_iff in H1. cbn [dropAfterNl].
  assert (E : isNlAt o && isSpaceTab x = false).
  { destruct o as [c|]; [exact H1|reflexivity]. }
  rewrite E. pose proof (IH (Some x) H2) as H. cbn [isNlAt] in H.
  rewrite H. reflexivity.
Qed.

Lemma dropBeforeNl_Forall (P : N -> Prop) (s : jsstring) :
  Forall P s -> Forall P (dropBeforeNl s).
Proof.
  induction s as [|x s IH]; intros H; [constructor|].
  inversion H; subst. cbn [dropBeforeNl].
  destruct (isSpaceTab x && beforeNl s); [apply IH; assumption|].
  constructor; [assumption|apply IH; assumption].
Qed.

Lemma beforeNl_cons (x : N) (s : jsstring) :
  beforeNl (x :: s) = if isSpaceTab x then beforeNl s else isNl x.
Proof. unfold beforeNl. cbn [dropWhile]. destruct (isSpaceTab x); reflexivity. Qed.

Lemma dropBeforeNl_noPair (s : jsstring) : forall o : option N,
  (isBlankAt o = true -> beforeNl s = false) ->
  noPair blankBeforeNl o (dropBeforeNl s) = true.
Proof.
  induction s as [|x s IH]; intros o Ho; [reflexivity|].
  rewrite beforeNl_cons in Ho. cbn [dropBeforeNl].
  destruct (isSpaceTab x) eqn:Ex; cbn [andb].
  - destruct (beforeNl s) eqn:Eb.
    + apply IH. exact Ho.
    + cbn [noPair]. rewrite (IH (Some x)) by (intros _; reflexivity).
      rewrite andb_true_r. destruct o as [c|]; [|reflexivity].
      cbn [badAfter]. unfold blankBeforeNl.
      rewrite (isSpaceTab_not_nl x Ex), andb_false_r. reflexivity.
  - cbn [noPair]. rewrite (IH (Some x)) by (cbn [isBlankAt]; congruence).
    rewrite andb_true_r. destruct o as [c|]; [|reflexivity].
    cbn [badAfter isBlankAt] in *. unfold blankBeforeNl.
    destruct (isSpaceTab c); [|reflexivity]. rewrite (Ho eq_refl). reflexivity.
Qed.

(** Dropping blanks before a line feed makes no new pair, when no pair
    ending with a line feed is bad. *)
Lemma dropBeforeNl_keeps (bad : N -> N -> bool) (s : jsstring) :
  (forall a, bad a nl = false) ->
  forall pin pout : option N,
    pout = pin \/ beforeNl s = true ->
    noPair bad pin s = true ->
    noPair bad pout (dropBeforeNl s) = true.
Proof.
  intros Hbad. induction s as [|x s IH]; intros pin pout Ho Hp; [reflexivity|].
  cbn [noPair] in Hp. apply andb_prop in Hp as [Hx Hs].
  rewrite beforeNl_cons in Ho. cbn [dropBeforeNl].
  destruct (isSpaceTab x && beforeNl s) eqn:E.
  - apply andb_prop in E as [_ E]. apply (IH (Some x) pout); [right; exact E|exact Hs].
  - cbn [noPair]. rewrite (IH (Some x) (Some x)) by (auto).
    rewrite andb_true_r. destruct Ho as [->|Ho]; [exact Hx|].
    destruct (isSpaceTab x) eqn:Ex.
    + cbn [andb] in E. congruence.
    + rewrite (isNl_eq x Ho). destruct pout as [c|]; [|reflexivity].
      cbn [badAfter]. rewrite Hbad. reflexivity.
Qed.

Lemma beforeNl_pair (s : jsstring) (x : N) :
  isSpaceTab x = true -> beforeNl s = true ->
  noPair blankBeforeNl (Some x) s = false.
Proof.
  revert x; induction s as [|y s IH]; intros x Hx Hb; [discriminate Hb|].
  rewrite beforeNl_cons in Hb. cbn [noPair badAfter]. unfold blankBeforeNl at 1.
  rewrite Hx. cbn [andb]. destruct (isSpaceTab y) eqn:Ey.
  - rewrite (IH y Ey Hb), andb_false_r. reflexivity.
  - rewrite Hb. reflexivity.
Qed.

Lemma dropBeforeNl_fixed (s : jsstring) : forall o : option N,
  noPair blankBeforeNl o s = true -> dropBeforeNl s = s.
Proof.
  induction s as [|x s IH]; intros o Hp; [reflexivity|].
  cbn [noPair] in Hp. apply andb_prop in Hp as [_ H2].
  cbn [dropBeforeNl]. rewrite (IH (Some x) H2).
  destruct (isSpaceTab x) eqn:Ex; [|reflexivity].
  destruct (beforeNl s) eqn:Eb; [|reflexivity].
  rewrite (beforeNl_pair s x Ex Eb) in H2. discriminate H2.
Qed.

Lemma capNl_Forall (P : N -> Prop) (s : jsstring) : forall k,
  Forall P s -> Forall P (capNl k s).
Proof.
  induction s as [|x s IH]; intros k H; [constructor|].
  inversion H; subst. cbn [capNl].
  destruct (isNl x); [destruct (2 <=? k)%nat|];
    try (constructor; [assumption|]); apply IH; assumption.
Qed.

Lemma capNl_noNl3 (s : jsstring) : forall k : nat,
  (k <= 2)%nat -> noNl3 k (capNl k s) = true.
Proof.
  induction s as [|x s IH]; intros k Hk; [reflexivity|]. cbn [capNl].
  destruct (isNl x) eqn:E.
  - destruct (Nat.leb_spec 2 k) as [H|H]; [apply IH; exact Hk|].
    cbn [noNl3]. rewrite E, IH by lia.
    rewrite andb_true_r. apply Nat.ltb_lt. exact H.
  - cbn [noNl3]. rewrite E. apply IH. lia.
Qed.

Lemma capNl_keeps (bad : N -> N -> bool) (s : jsstring) :
  forall (k : nat) (p : option N),
    ((1 <= k)%nat -> p = Some nl) ->
    noPair bad p s = true -> noPair bad p (capNl k s) = true.
Proof.
  induction s as [|x s IH]; intros k p Hk Hp; [reflexivity|].
  cbn [noPair] in Hp. apply andb_prop in Hp as [Hx Hs]. cbn [capNl].
  destruct (isNl x) eqn:E.
  - destruct (Nat.leb_spec 2 k) as [H|H].
    + apply IH; [exact Hk|]. rewrite Hk by lia.
      rewrite <- (isNl_eq x E). exact Hs.
    + cbn [noPair]. rewrite Hx. cbn [andb]. apply IH; [|exact Hs].
      intros _. rewrite (isNl_eq x E). reflexivity.
  - cbn [noPair]. rewrite Hx. cbn [andb]. apply IH; [|exact Hs]. lia.
Qed.

Lemma capNl_fixed (s : jsstring) : forall k : nat,
  noNl3 k s = true -> capNl k s = s.
Proof.
  induction s as [|x s IH]; intros k H; [reflexivity|].
  cbn [noNl3] in H. cbn [capNl]. destruct (isNl x).
  - apply andb_prop in H as [H1 H2]. apply Nat.ltb_lt in H1.
    destruct (Nat.leb_spec 2 k); [lia|]. rewrite (IH _ H2). reflexivity.
  - rewrite (IH _ H). reflexivity.
Qed.

Lemma noPair_weaken (bad : N -> N -> bool) (p : option N) (s : jsstring) :
  noPair bad p s = true -> noPair bad None s = true.
Proof.
  destruct s as [|x s]; [reflexivity|]. cbn [noPair badAfter]. intros H.
  apply andb_prop in H as [_ H]. exact H.
Qed.

Lemma noPair_app (bad : N -> N -> bool) (a b : jsstring) : forall p : option N,
  noPair bad p (a ++ b) = true ->
  noPair bad p a = true /\ noPair bad None b = true.
Proof.
  induction a as [|x a IH]; intros p H.
  - split; [reflexivity|]. eapply noPair_weaken. exact H.
  - cbn [app noPair] in *. apply andb_prop in H as [H1 H2].
    destruct (IH _ H2) as [Ha Hb]. rewrite H1, Ha. split; [reflexivity|exact Hb].
Qed.

Lemma noNl3_mono (s : jsstring) (k k' : nat) :
  (k' <= k)%nat -> noNl3 k s = true -> noNl3 k' s = true.
Proof.
  revert k k'; induction s as [|x s IH]; intros k k' Hk H; [reflexivity|].
  cbn [noNl3] in *. destruct (isNl x); [|exact H].
  apply andb_prop in H as [H1 H2]. apply Nat.ltb_lt in H1.
  rewrite (IH (S k) (S k')) by (lia || exact H2). rewrite andb_true_r.
  apply Nat.ltb_lt. lia.
Qed.

Lemma noNl3_app (a b : jsstring) : forall k : nat,
  noNl3 k (a ++ b) = true -> noNl3 k a = true /\ noNl3 0 b = true.
Proof.
  induction a as [|x a IH]; intros k H.
  - split; [reflexivity|]. apply (noNl3_mono b k 0); [lia|exact H].
  - cbn [app noNl3] in *. destruct (isNl x).
    + apply andb_prop in H as [H1 H2]. destruct (IH _ H2) as [Ha Hb].
      rewrite H1, Ha. split; [reflexivity|exact Hb].
    + apply IH, H.
Qed.

Lemma trim_noPair (bad : N -> N -> bool) (s : jsstring) :
  noPair bad None s = true -> noPair bad None (trim s) = true.
Proof.
  destruct (trim_factor s) as (w & w' & E). intros H. rewrite E in H.
  apply noPair_app in H as [_ H]. apply noPair_app in H as [H _]. exact H.
Qed.

Lemma trim_noNl3 (s : jsstring) : noNl3 0 s = true -> noNl3 0 (trim s) = true.
Proof.
  destruct (trim_factor s) as (w & w' & E). intros H. rewrite E in H.
  apply noNl3_app in H as [_ H]. apply noNl3_app in H as [H _]. exact H.
Qed.

(** *** The clean-up reaches a fixed point in one pass *)

Lemma collapseSpace_scan (s : jsstring) :
  collapseSpace s
  = trim (capNl 0 (dropBeforeNl (dropAfterNl false (squeeze false s)))).
Proof.
  unfold collapseSpace.
  rewrite replace_spaces, replace_nl_spaces, replace_spaces_nl, replace_nl3.
  reflexivity.
Qed.

Lemma collapseSpacePlain_scan (s : jsstring) :
  collapseSpacePlain s = trim (capNl 0 (squeeze false s)).
Proof.
  unfold collapseSpacePlain. rewrite replace_spaces, replace_nl3. reflexivity.
Qed.

Lemma nl_not_blank_left (b : N) : twoBlanks nl b = false.
Proof. reflexivity. Qed.

Lemma nl_not_blank_right (a : N) : twoBlanks a nl = false.
Proof. unfold twoBlanks. rewrite andb_false_r. reflexivity. Qed.

Lemma nl_not_afterNl_right (a : N) : blankAfterNl a nl = false.
Proof. unfold blankAfterNl. rewrite andb_false_r. reflexivity. Qed.

Lemma collapseSpace_clean (s : jsstring) : cleanMarkup (collapseSpace s).
Proof.
  rewrite collapseSpace_scan. constructor.
  - apply trim_Forall, capNl_Forall, dropBeforeNl_Forall, dropAfterNl_Forall,
      squeeze_noTab.
  - apply trim_noPair, capNl_keeps; [lia|].
    apply (dropBeforeNl_keeps _ _ nl_not_blank_right None None); [left; reflexivity|].
    apply (dropAfterNl_keeps _ _ nl_not_blank_left false None None);
      [reflexivity|discriminate|].
    apply squeeze_noPair. reflexivity.
  - apply trim_noPair, capNl_keeps; [lia|].
    apply (dropBeforeNl_keeps _ _ nl_not_afterNl_right None None); [left; reflexivity|].
    apply (dropAfterNl_noPair _ None).
  - apply trim_noPair, capNl_keeps; [lia|].
    apply dropBeforeNl_noPair. discriminate.
  - apply trim_noNl3, capNl_noNl3. lia.
  - apply trim_trim.
Qed.

Lemma squeeze_clean (u : jsstring) :
  noTab u -> noPair twoBlanks None u = true -> squeeze false u = u.
Proof. exact (squeeze_fixed u None). Qed.

Lemma dropAfterNl_clean (u : jsstring) :
  noPair blankAfterNl None u = true -> dropAfterNl false u = u.
Proof. exact (dropAfterNl_fixed u None). Qed.

Lemma collapseSpace_fixed (u : jsstring) : cleanMarkup u -> collapseSpace u = u.
Proof.
  intros [H1 H2 H3 H4 H5 H6]. rewrite collapseSpace_scan.
  rewrite (squeeze_clean u H1 H2), (dropAfterNl_clean u H3),
    (dropBeforeNl_fixed u None H4), (capNl_fixed u 0 H5). exact H6.
Qed.

Lemma collapseSpacePlain_clean (s : jsstring) : cleanPlain (collapseSpacePlain s).
Proof.
  rewrite collapseSpacePlain_scan. constructor.
  - apply trim_Forall, capNl_Forall, squeeze_noTab.
  - apply trim_noPair, capNl_keeps; [lia|]. apply squeeze_noPair. reflexivity.
  - apply trim_noNl3, capNl_noNl3. lia.
  - apply trim_trim.
Qed.

Lemma collapseSpacePlain_fixed (u : jsstring) :
  cleanPlain u -> collapseSpacePlain u = u.
Proof.
  intros [H1 H2 H3 H4]. rewrite collapseSpacePlain_scan.
  rewrite (squeeze_clean u H1 H2), (capNl_fixed u 0 H3). exact H4.
Qed.

Lemma collapseSpace_idempotent (s : jsstring) :
  collapseSpace (collapseSpace s) = collapseSpace s.
Proof. apply collapseSpace_fixed, collapseSpace_clean. Qed.

Lemma collapseSpacePlain_idempotent (s : jsstring) :
  collapseSpacePlain (collapseSpacePlain s) = collapseSpacePlain s.
Proof. apply collapseSpacePlain_fixed, collapseSpacePlain_clean. Qed.

Ltac head_is :=
  cbv [headIs re_script re_style re_heading re_p_close re_p_open re_br re_tag
       re_seq lit lit_list js list_ascii_of_string map chr ch];
  let x := fresh "x" in
  let H := fresh "H" in
  intros x H; apply N.eqb_eq in H; symmetry; exact H.

(** A text without [<] and [&] has nothing for the tag and entity rules
    to rewrite. *)
Lemma stripMarkup_fixed (u : jsstring) :
  Forall (fun x => x <> code "<" /\ x <> code "&") u -> stripMarkup u = u.
Proof.
  intros H.
  assert (Hlt : Forall (fun x => x <> code "<") u)
    by (eapply Forall_impl; [exact H|]; intros x [? ?]; assumption).
  assert (Hamp : Forall (fun x => x <> code "&") u)
    by (eapply Forall_impl; [exact H|]; intros x [? ?]; assumption).
  assert (Nlt : notLetter (code "<")) by (split; reflexivity).
  assert (Namp : notLetter (code "&")) by (split; reflexivity).
  unfold stripMarkup.
  rewrite (replace_all_without_head flags_gi (code "<") re_script [] u Nlt)
    by (exact Hlt || head_is).
  rewrite (replace_all_without_head flags_gi (code "<") re_style [] u Nlt)
    by (exact Hlt || head_is).
  rewrite (replace_all_without_head flags_gi (code "<") re_heading banner u Nlt)
    by (exact Hlt || head_is).
  rewrite (replace_all_without_head flags_gi (code "<") re_p_close _ u Nlt)
    by (exact Hlt || head_is).
  rewrite (replace_all_without_head flags_gi (code "<") re_p_open [] u Nlt)
    by (exact Hlt || head_is).
  rewrite (replace_all_without_head flags_gi (code "<") re_br _ u Nlt)
    by (exact Hlt || head_is).
  rewrite (replace_all_without_head flags_g (code "<") re_tag [] u Nlt)
    by (exact Hlt || head_is).
  rewrite (replace_all_without_head flags_g (code "&") (lit "&nbsp;") _ u Namp)
    by (exact Hamp || head_is).
  rewrite (replace_all_without_head flags_g (code "&") (lit "&amp;") _ u Namp)
    by (exact Hamp || head_is).
  rewrite (replace_all_without_head flags_g (code "&") (lit "&lt;") _ u Namp)
    by (exact Hamp || head_is).
  rewrite (replace_all_without_head flags_g (code "&") (lit "&gt;") _ u Namp)
    by (exact Hamp || head_is).
  rewrite (replace_all_without_head flags_g (code "&") (lit "&quot;") _ u Namp)
    by (exact Hamp || head_is).
  rewrite (replace_all_without_head flags_g (code "&") (lit "&apos;") _ u Namp)
    by (exact Hamp || head_is).
  reflexivity.
Qed.

(** C2, amended: the white-space clean-up that ends both branches is
    idempotent; so normalising twice is normalising once for every text
    whose normalised form is left as it is by the rules that come before
    the clean-up: on the markup path the tag and entity rules, which is
    the case whenever the normalised text has no [<] and no [&]; on the
    plain path the line-ending and heading rules. *)
Theorem normalize_idempotent_once_nothing_is_rewritten :
  (forall s : jsstring, collapseSpace (collapseSpace s) = collapseSpace s)
  /\ (forall s : jsstring,
        collapseSpacePlain (collapseSpacePlain s) = collapseSpacePlain s)
  /\ (forall text : jsstring,
        stripMarkup (normalizeMarkup text) = normalizeMarkup text ->
        normalizeMarkup (normalizeMarkup text) = normalizeMarkup text)
  /\ (forall text : jsstring,
        Forall (fun x => x <> code "<" /\ x <> code "&") (normalizeMarkup text) ->
        normalizeMarkup (normalizeMarkup text) = normalizeMarkup text)
  /\ (forall text : jsstring,
        markHeadings (normalizePlain text) = normalizePlain text ->
        normalizePlain (normalizePlain text) = normalizePlain text).
Proof.
  split; [exact collapseSpace_idempotent|].
  split; [exact collapseSpacePlain_idempotent|].
  assert (M : forall text : jsstring,
             stripMarkup (normalizeMarkup text) = normalizeMarkup text ->
             normalizeMarkup (normalizeMarkup text) = normalizeMarkup text).
  { intros text H. unfold normalizeMarkup at 1. rewrite H.
    unfold normalizeMarkup. apply collapseSpace_idempotent. }
  split; [exact M|]. split.
  - intros text H. apply M, stripMarkup_fixed, H.
  - intros text H. unfold normalizePlain at 1. rewrite H.
    unfold normalizePlain. apply collapseSpacePlain_idempotent.
Qed.

(** The theorem on the markup of the scenario and on a plain text. *)
Lemma normalize_idempotent_once_nothing_is_rewritten_witness :
  normalizeMarkup (normalizeMarkup introMarkup) = normalizeMarkup introMarkup
  /\ normalizePlain (normalizePlain plainSample) = normalizePlain plainSample.
Proof.
  destruct normalize_idempotent_once_nothing_is_rewritten as (_ & _ & _ & M & P).
  split.
  - apply M. vm_compute.
    repeat (constructor; [split; discriminate|]). constructor.
  - apply P. vm_compute. reflexivity.
Defined.

(** *** What the normalised text looks like *)

Lemma no_cr_left (s : jsstring) :
  Forall (fun x => x <> cr) (replace_all flags_g (chr cr) [TLit [nl]] s).
Proof.
  unfold chr. rewrite replace_all_cls.
  induction s as [|x s IH]; [constructor|]. cbn [flat_map].
  rewrite clsOk_g. destruct (N.eqb_spec cr x) as [E|E]; cbn [subst app].
  - constructor; [discriminate|exact IH].
  - constructor; [congruence|exact IH].
Qed.

Lemma squeeze_Forall (P : N -> Prop) (s : jsstring) : P 32 ->
  forall b, Forall P s -> Forall P (squeeze b s).
Proof.
  intros H32. induction s as [|x s IH]; intros b Hs; [constructor|].
  inversion Hs; subst. cbn [squeeze].
  destruct (isSpaceTab x); [destruct b|]; auto.
Qed.

Lemma normalizePlain_no_cr (text : jsstring) :
  Forall (fun x => x <> cr) (normalizePlain text).
Proof.
  unfold normalizePlain, markHeadings. rewrite collapseSpacePlain_scan.
  apply trim_Forall, capNl_Forall, squeeze_Forall; [discriminate|].
  assert (Hb : templateIn (fun x => x <> cr) banner).
  { repeat constructor; discriminate. }
  apply replace_all_in; [exact Hb|]. apply replace_all_in; [exact Hb|].
  apply no_cr_left.
Qed.

Lemma noPair_includes (bad : N -> N -> bool) (a b : N) :
  bad a b = true ->
  forall (s : jsstring) (prev : option N),
    noPair bad prev s = true -> includes s [a; b] = false.
Proof.
  intros Hbad. induction s as [|x s IH]; intros prev H; [reflexivity|].
  cbn [noPair] in H. apply andb_prop in H as [_ H].
  cbn [includes startsWith]. rewrite (IH (Some x) H), orb_false_r.
  destruct (N.eqb_spec x a) as [->|]; [|reflexivity]. cbn [andb].
  destruct s as [|y s]; [reflexivity|]. cbn [startsWith].
  destruct (N.eqb_spec y b) as [->|]; [|reflexivity].
  cbn [noPair badAfter] in H. rewrite Hbad in H. discriminate H.
Qed.

Lemma noTab_includes (s : jsstring) : noTab s -> includes s [tab] = false.
Proof.
  induction 1 as [|x s Hx _ IH]; [reflexivity|].
  cbn [includes startsWith]. rewrite IH, Hx. reflexivity.
Qed.

Lemma Forall_includes (c : N) (s : jsstring) :
  Forall (fun x => x <> c) s -> includes s [c] = false.
Proof.
  induction 1 as [|x s Hx _ IH]; [reflexivity|].
  cbn [includes startsWith]. rewrite IH.
  destruct (N.eqb_spec x c); [contradiction|reflexivity].
Qed.

Lemma noNl3_includes (s : jsstring) : forall k : nat,
  noNl3 k s = true ->
  includes s [nl; nl; nl] = false
  /\ ((1 <= k)%nat -> startsWith s [nl; nl] = false)
  /\ ((2 <= k)%nat -> startsWith s [nl] = false).
Proof.
  induction s as [|x s IH]; intros k H; [repeat split; reflexivity|].
  cbn [noNl3] in H. cbn [includes startsWith].
  unfold isNl in H. rewrite N.eqb_sym in H.
  destruct (N.eqb_spec x nl) as [->|Hx].
  - apply andb_prop in H as [Hk H]. apply Nat.ltb_lt in Hk.
    destruct (IH (S k) H) as (H1 & H2 & H3). rewrite H1. cbn [andb].
    rewrite (H2 ltac:(lia)). repeat split; try reflexivity.
    + intros Hk1. apply H3. lia.
    + intros Hk2. lia.
  - destruct (IH 0%nat H) as (H1 & _). rewrite H1. repeat split; reflexivity.
Qed.

(** X5: the text left by the markup branch has no tab, no two spaces in
    a row, no space next to a line feed, no three line feeds in a row
    and no white space at either end; the text left by the plain-text
    branch has no carriage return, no tab, no two spaces in a row, no
    three line feeds in a row and no white space at either end. *)
Theorem normalized_text_is_tidy (text : jsstring) :
  (let out := normalizeMarkup text in
   includes out [tab] = false
   /\ includes out (js "  ") = false
   /\ includes out (js " " ++ [nl]) = false
   /\ includes out ([nl] ++ js " ") = false
   /\ includes out [nl; nl; nl] = false
   /\ trim out = out)
  /\ (let out := normalizePlain text in
      includes out [cr] = false
      /\ includes out [tab] = false
      /\ includes out (js "  ") = false
      /\ includes out [nl; nl; nl] = false
      /\ trim out = out).
Proof.
  split.
  - destruct (collapseSpace_clean (stripMarkup text)) as [H1 H2 H3 H4 H5 H6].
    cbv zeta. unfold normalizeMarkup.
    split; [apply noTab_includes, H1|].
    split; [apply (noPair_includes twoBlanks 32 32 eq_refl _ None H2)|].
    split; [apply (noPair_includes blankBeforeNl 32 nl eq_refl _ None H4)|].
    split; [apply (noPair_includes blankAfterNl nl 32 eq_refl _ None H3)|].
    split; [apply (noNl3_includes _ 0 H5)|exact H6].
  - destruct (collapseSpacePlain_clean (markHeadings text)) as [H1 H2 H3 H4].
    pose proof (normalizePlain_no_cr text) as H0.
    cbv zeta. unfold normalizePlain in *.
    split; [apply Forall_includes, H0|].
    split; [apply noTab_includes, H1|].
    split; [apply (noPair_includes twoBlanks 32 32 eq_refl _ None H2)|].
    split; [apply (noNl3_includes _ 0 H3)|exact H4].
Qed.

(** *** Entities and line ends *)

Lemma rmatch_lit (L : jsstring) : L <> [] ->
  forall (k : cont) (prev : option N) (s : jsstring) (c : caps),
    rmatch flags_g (lit_list L) k prev s c
    = if startsWith s L then k (last L) (drop (length L) s) c else None.
Proof.
  induction L as [|x L IH]; [contradiction|]. intros _ k prev s c.
  destruct L as [|y L].
  - cbn [lit_list]. unfold chr. cbn [rmatch]. destruct s as [|z s]; [reflexivity|].
    rewrite clsOk_g. cbn [startsWith length drop last].
    rewrite N.eqb_sym. destruct (N.eqb_spec z x) as [->|]; [|reflexivity].
    destruct s; reflexivity.
  - change (lit_list (x :: y :: L)) with (Seq (chr x) (lit_list (y :: L))).
    cbn [rmatch]. unfold chr at 1. cbn [rmatch].
    destruct s as [|z s]; [reflexivity|]. rewrite clsOk_g.
    cbn [startsWith]. rewrite N.eqb_sym.
    destruct (N.eqb_spec z x) as [->|]; [|reflexivity]. cbn [andb].
    rewrite IH by discriminate. rewrite last_cons_cons. reflexivity.
Qed.

Lemma replaceLit_skip (L R : jsstring) (s : jsstring) : forall k : nat,
  replaceLit L R k s = replaceLit L R 0 (drop k s).
Proof.
  induction s as [|x s IH]; intros k; [destruct k; reflexivity|].
  destruct k as [|k]; [reflexivity|]. cbn [replaceLit drop]. apply IH.
Qed.

Lemma replace_go_lit (L R : jsstring) (n : nat) : L <> [] ->
  forall (s : jsstring) (prev : option N),
    (length s < n)%nat ->
    replace_go flags_g (lit_list L) [TLit R] n prev s = replaceLit L R 0 s.
Proof.
  intros HL. induction n as [|n IH]; intros s prev Hn; [lia|].
  destruct s as [|x s]; cbn [replace_go].
  - unfold rexec. rewrite rmatch_lit by exact HL.
    destruct L as [|y L]; [contradiction|]. reflexivity.
  - unfold rexec. rewrite rmatch_lit by exact HL. cbn [replaceLit].
    destruct (startsWith (x :: s) L) eqn:E.
    + unfold accept. destruct L as [|y L]; [contradiction|].
      change (length (y :: L) - 1)%nat with (length L - 0)%nat.
      rewrite Nat.sub_0_r. cbn [length drop].
      assert (Hlt : (length (drop (length L) s) <? S (length s))%nat = true)
        by (apply Nat.ltb_lt; rewrite length_drop; lia).
      rewrite Hlt.
      rewrite IH by (rewrite length_drop; simpl in Hn; lia).
      cbn [subst]. rewrite app_nil_r, (replaceLit_skip _ _ s (length L)).
      reflexivity.
    + rewrite IH by (simpl in Hn; lia). reflexivity.
Qed.

Lemma replace_all_lit (L R s : jsstring) : L <> [] ->
  replace_all flags_g (lit_list L) [TLit R] s = replaceLit L R 0 s.
Proof. intros HL. apply replace_go_lit; [exact HL|lia]. Qed.

Lemma replaceLit_without_head (c : N) (L R : jsstring) (s : jsstring) :
  Forall (fun x => x <> c) s -> replaceLit (c :: L) R 0 s = s.
Proof.
  induction 1 as [|x s Hx _ IH]; [reflexivity|]. cbn [replaceLit startsWith].
  destruct (N.eqb_spec x c); [contradiction|]. cbn [andb]. rewrite IH. reflexivity.
Qed.

Lemma replaceLit_prefix (c : N) (L R : jsstring) (a s : jsstring) :
  Forall (fun x => x <> c) a ->
  replaceLit (c :: L) R 0 (a ++ s) = a ++ replaceLit (c :: L) R 0 s.
Proof.
  induction 1 as [|x a Hx _ IH]; [reflexivity|]. cbn [app replaceLit startsWith].
  destruct (N.eqb_spec x c); [contradiction|]. cbn [andb]. rewrite IH. reflexivity.
Qed.

Lemma plainText_lt (s : jsstring) : plainText s -> Forall (fun x => x <> code "<") s.
Proof. intros H. eapply Forall_impl; [exact H|]. intros x [? ?]. assumption. Qed.

Lemma plainText_amp (s : jsstring) : plainText s -> Forall (fun x => x <> code "&") s.
Proof. intros H. eapply Forall_impl; [exact H|]. intros x [? ?]. assumption. Qed.

(** The tag rules leave a text without [<] as it is. *)
Lemma tags_fixed (u : jsstring) :
  Forall (fun x => x <> code "<") u ->
  (u |> replace_all flags_gi re_script []
     |> replace_all flags_gi re_style []
     |> replace_all flags_gi re_heading banner
     |> replace_all flags_gi re_p_close [TLit [nl; nl]]
     |> replace_all flags_gi re_p_open []
     |> replace_all flags_gi re_br [TLit [nl]]
     |> replace_all flags_g re_tag []) = u.
Proof.
  intros Hlt. assert (Nlt : notLetter (code "<")) by (split; reflexivity).
  rewrite (replace_all_without_head flags_gi (code "<") re_script [] u Nlt)
    by (exact Hlt || head_is).
  rewrite (replace_all_without_head flags_gi (code "<") re_style [] u Nlt)
    by (exact Hlt || head_is).
  rewrite (replace_all_without_head flags_gi (code "<") re_heading banner u Nlt)
    by (exact Hlt || head_is).
  rewrite (replace_all_without_head flags_gi (code "<") re_p_close _ u Nlt)
    by (exact Hlt || head_is).
  rewrite (replace_all_without_head flags_gi (code "<") re_p_open [] u Nlt)
    by (exact Hlt || head_is).
  rewrite (replace_all_without_head flags_gi (code "<") re_br _ u Nlt)
    by (exact Hlt || head_is).
  rewrite (replace_all_without_head flags_g (code "<") re_tag [] u Nlt)
    by (exact Hlt || head_is).
  reflexivity.
Qed.

Lemma stripMarkup_entities (u : jsstring) :
  Forall (fun x => x <> code "<") u -> stripMarkup u = decodeEntities u.
Proof.
  intros H. unfold stripMarkup. rewrite (tags_fixed u H).
  unfold lit, decodeEntities. rewrite !replace_all_lit by discriminate. reflexivity.
Qed.

Lemma without_unit (c : N) (e : jsstring) :
  forallb (fun x => negb (x =? c)) e = true -> Forall (fun x => x <> c) e.
Proof.
  induction e as [|x e IH]; [constructor|]. cbn [forallb]. intros H.
  apply andb_true_iff in H as [Hx He]. constructor; [|exact (IH He)].
  intros ->. rewrite N.eqb_refl in Hx. discriminate.
Qed.

Lemma no_lt_around (a e b : jsstring) :
  plainText a -> plainText b -> Forall (fun x => x <> code "<") e ->
  Forall (fun x => x <> code "<") (a ++ e ++ b).
Proof.
  intros Ha Hb He. apply Forall_app. split; [apply plainText_lt, Ha|].
  apply Forall_app. split; [exact He|apply plainText_lt, Hb].
Qed.

Lemma replaceLit_at (L R a s : jsstring) :
  head L = Some (code "&") -> Forall (fun x => x <> code "&") a ->
  replaceLit L R 0 (a ++ s) = a ++ replaceLit L R 0 s.
Proof.
  destruct L as [|c L]; [discriminate|]. intros [= ->]. apply replaceLit_prefix.
Qed.

(** An ampersand that no rule's name follows stays. *)
Lemma replaceLit_miss (L R b : jsstring) :
  Forall (fun x => x <> code "&") b -> startsWith b L = false ->
  replaceLit (code "&" :: L) R 0 (code "&" :: b) = code "&" :: b.
Proof.
  intros Hb E. cbn [replaceLit startsWith]. rewrite N.eqb_refl, E. cbn [andb].
  rewrite replaceLit_without_head by exact Hb. reflexivity.
Qed.

Lemma startsWith_length (s sub : jsstring) :
  startsWith s sub = true -> (length sub <= length s)%nat.
Proof.
  revert s; induction sub as [|y sub IH]; intros s; [simpl; lia|].
  destruct s as [|x s]; cbn [startsWith]; [discriminate|].
  intros H. apply andb_true_iff in H as [_ H]. apply IH in H. simpl. lia.
Qed.

Lemma startsWith_completed (e b L : jsstring) :
  e <> [] -> startsWith L e && (length e <? length L)%nat = false ->
  startsWith (e ++ b) L = startsWith e L.
Proof.
  revert e; induction L as [|y L IH]; intros e He H;
    (destruct e as [|x e]; [contradiction|]); [reflexivity|].
  cbn [app startsWith] in *.
  rewrite (N.eqb_sym y x) in H.
  destruct (x =? y); [|reflexivity]. cbn [andb] in *.
  destruct e as [|x' e].
  - destruct L; [destruct b; reflexivity|discriminate H].
  - apply IH; [discriminate|]. exact H.
Qed.

Lemma replaceLit_inside (L R e b : jsstring) :
  head L = Some (code "&") -> Forall (fun x => x <> code "&") b ->
  selfContained e L = true ->
  forall k : nat, (k <= length e)%nat ->
    replaceLit L R k (e ++ b) = replaceLit L R k e ++ b.
Proof.
  intros HL Hb. induction e as [|x e IH]; intros Hs k Hk.
  - assert (k = 0%nat) as -> by (simpl in Hk; lia).
    destruct L as [|c L]; [discriminate|]. injection HL as ->.
    cbn [app]. rewrite replaceLit_without_head by exact Hb. reflexivity.
  - cbn [selfContained] in Hs. apply andb_true_iff in Hs as [Hx Hs].
    apply negb_true_iff in Hx. cbn [app replaceLit].
    destruct k as [|k]; [|apply (IH Hs); simpl in Hk; lia].
    change (x :: e ++ b) with ((x :: e) ++ b).
    rewrite (startsWith_completed (x :: e) b L) by (discriminate || exact Hx).
    destruct (startsWith (x :: e) L) eqn:E.
    + rewrite IH; [rewrite app_assoc; reflexivity|exact Hs|].
      apply startsWith_length in E. simpl in E. lia.
    + rewrite (IH Hs) by lia. reflexivity.
Qed.

(** One rule on a text that holds ampersands only in the part [e]. *)
Lemma replaceLit_middle (L R a e e' b : jsstring) :
  head L = Some (code "&") ->
  Forall (fun x => x <> code "&") a -> Forall (fun x => x <> code "&") b ->
  selfContained e L = true -> replaceLit L R 0 e = e' ->
  replaceLit L R 0 (a ++ e ++ b) = a ++ e' ++ b.
Proof.
  intros HL Ha Hb Hs <-. rewrite (replaceLit_at L R a _ HL Ha).
  rewrite (replaceLit_inside L R e b HL Hb Hs) by lia. reflexivity.
Qed.

Ltac entity_step :=
  match goal with
  | |- context [replaceLit ?L ?R 0 (?a ++ ?e ++ ?b)] =>
      let e' := eval vm_compute in (replaceLit L R 0 e) in
      rewrite (replaceLit_middle L R a e e' b)
        by (assumption || (vm_compute; reflexivity))
  end.

Ltac decode :=
  rewrite stripMarkup_entities
    by (apply no_lt_around; [assumption|assumption|apply without_unit; reflexivity]);
  unfold decodeEntities;
  repeat entity_step; reflexivity.

Lemma plainText_check (s : jsstring) :
  forallb (fun x => negb (x =? code "<") && negb (x =? code "&")) s = true ->
  plainText s.
Proof.
  induction s as [|x s IH]; [constructor|]. cbn [forallb]. intros H.
  apply andb_true_iff in H as [Hx Hs]. apply andb_true_iff in Hx as [H1 H2].
  constructor; [|exact (IH Hs)].
  split; intros ->; [rewrite N.eqb_refl in H1|rewrite N.eqb_refl in H2]; discriminate.
Qed.

(** X29: the entity rules run one after the other over the whole text,
    the ampersand's second.  Around text without [<] and [&], each of
    the other five entities is decoded to its character, and so is
    [&amp;] unless the name of a later rule follows it; an escaped
    entity of a later rule ([&amp;lt;], which stands for the text
    [&lt;]) is decoded twice and shows as the character, while an
    escaped [&nbsp;] or [&amp;] is decoded once. *)
Theorem entities_are_decoded_in_rule_order (a b : jsstring) :
  plainText a -> plainText b ->
  stripMarkup (a ++ js "&nbsp;" ++ b) = a ++ js " " ++ b
  /\ stripMarkup (a ++ js "&lt;" ++ b) = a ++ js "<" ++ b
  /\ stripMarkup (a ++ js "&gt;" ++ b) = a ++ js ">" ++ b
  /\ stripMarkup (a ++ js "&quot;" ++ b) = a ++ [34] ++ b
  /\ stripMarkup (a ++ js "&apos;" ++ b) = a ++ js "'" ++ b
  /\ ((forall name : jsstring,
         In name [js "lt;"; js "gt;"; js "quot;"; js "apos;"] ->
         startsWith b name = false) ->
      stripMarkup (a ++ js "&amp;" ++ b) = a ++ js "&" ++ b)
  /\ stripMarkup (a ++ js "&amp;lt;" ++ b) = a ++ js "<" ++ b
  /\ stripMarkup (a ++ js "&amp;gt;" ++ b) = a ++ js ">" ++ b
  /\ stripMarkup (a ++ js "&amp;quot;" ++ b) = a ++ [34] ++ b
  /\ stripMarkup (a ++ js "&amp;apos;" ++ b) = a ++ js "'" ++ b
  /\ stripMarkup (a ++ js "&amp;nbsp;" ++ b) = a ++ js "&nbsp;" ++ b
  /\ stripMarkup (a ++ js "&amp;amp;" ++ b) = a ++ js "&amp;" ++ b.
Proof.
  intros Ha Hb. pose proof (plainText_amp a Ha) as Aa.
  pose proof (plainText_amp b Hb) as Ab.
  repeat (split; [solve [decode]|]).
  split; [|repeat split; decode].
  intros Hn.
  rewrite stripMarkup_entities
    by (apply no_lt_around; [assumption|assumption|apply without_unit; reflexivity]).
  unfold decodeEntities. do 2 entity_step.
  change (a ++ [38] ++ b) with (a ++ code "&" :: b).
  rewrite (replaceLit_at (js "&lt;")) by (reflexivity || assumption).
  rewrite (replaceLit_miss (js "lt;")) by (assumption || (apply Hn; simpl; tauto)).
  rewrite (replaceLit_at (js "&gt;")) by (reflexivity || assumption).
  rewrite (replaceLit_miss (js "gt;")) by (assumption || (apply Hn; simpl; tauto)).
  rewrite (replaceLit_at (js "&quot;")) by (reflexivity || assumption).
  rewrite (replaceLit_miss (js "quot;")) by (assumption || (apply Hn; simpl; tauto)).
  rewrite (replaceLit_at (js "&apos;")) by (reflexivity || assumption).
  rewrite (replaceLit_miss (js "apos;")) by (assumption || (apply Hn; simpl; tauto)).
  reflexivity.
Qed.

(** The theorem around the letters of "R&D", written with one escape and
    with two. *)
Lemma entities_are_decoded_in_rule_order_witness :
  stripMarkup (js "R&amp;D") = js "R&D"
  /\ stripMarkup (js "R&amp;amp;D") = js "R&amp;D"
  /\ stripMarkup (js "R&amp;lt;D") = js "R<D".
Proof.
  destruct (entities_are_decoded_in_rule_order (js "R") (js "D"))
    as (_ & _ & _ & _ & _ & H1 & H2 & _ & _ & _ & _ & H3);
    [apply plainText_check; reflexivity|apply plainText_check; reflexivity|].
  split; [|split; [exact H3|exact H2]].
  apply H1. intros name Hn. simpl in Hn.
  destruct Hn as [<-|[<-|[<-|[<-|[]]]]]; reflexivity.
Defined.

Lemma startsWith_nil (s : jsstring) : startsWith s [] = true.
Proof. destruct s; reflexivity. Qed.

Lemma lineText_cr (p : jsstring) : lineText p -> Forall (fun x => x <> cr) p.
Proof. intros H. eapply Forall_impl; [exact H|]. intros x [? ?]. assumption. Qed.

Lemma lineText_nl (p : jsstring) : lineText p -> Forall (fun x => x <> nl) p.
Proof. intros H. eapply Forall_impl; [exact H|]. intros x [? ?]. assumption. Qed.

Lemma join_cons (sep p : jsstring) (rest : list jsstring) :
  rest <> [] -> join sep (p :: rest) = p ++ sep ++ join sep rest.
Proof. destruct rest; [contradiction|reflexivity]. Qed.

Lemma join_without (c : N) (sep : jsstring) (lines : list jsstring) :
  Forall (fun x => x <> c) sep -> Forall (Forall (fun x => x <> c)) lines ->
  Forall (fun x => x <> c) (join sep lines).
Proof.
  intros Hs. induction 1 as [|p rest Hp Hrest IH]; [constructor|].
  destruct rest as [|q rest]; [exact Hp|].
  rewrite join_cons by discriminate.
  apply Forall_app; split; [exact Hp|]. apply Forall_app; split; [exact Hs|exact IH].
Qed.

(** The first rule of the plain-text branch on lines joined by carriage
    return and line feed. *)
Lemma crlf_joined (lines : list jsstring) :
  Forall lineText lines ->
  replaceLit [cr; nl] [nl] 0 (join [cr; nl] lines) = join [nl] lines.
Proof.
  induction 1 as [|p rest Hp Hrest IH]; [reflexivity|].
  destruct rest as [|q rest].
  - apply replaceLit_without_head, lineText_cr, Hp.
  - rewrite !join_cons by discriminate.
    rewrite replaceLit_prefix by (apply lineText_cr, Hp).
    cbn [app replaceLit startsWith length Nat.sub].
    rewrite !N.eqb_refl, startsWith_nil. cbn [andb app]. rewrite IH. reflexivity.
Qed.

Lemma crlf_absent (s : jsstring) :
  Forall (fun x => x <> nl) s -> replaceLit [cr; nl] [nl] 0 s = s.
Proof.
  induction 1 as [|x s Hx Hs IH]; [reflexivity|]. cbn [replaceLit startsWith].
  destruct Hs as [|y s Hy Hs].
  - rewrite andb_false_r. reflexivity.
  - cbn [startsWith]. destruct (N.eqb_spec y nl); [contradiction|].
    cbn [andb]. rewrite andb_false_r. rewrite IH. reflexivity.
Qed.

Lemma replace_all_cr (s : jsstring) :
  replace_all flags_g (chr cr) [TLit [nl]] s = crToNl s.
Proof. unfold chr. rewrite replace_all_cls. reflexivity. Qed.

Lemma crToNl_without (s : jsstring) : Forall (fun x => x <> cr) s -> crToNl s = s.
Proof.
  induction 1 as [|x s Hx _ IH]; [reflexivity|]. unfold crToNl in *.
  cbn [flat_map]. rewrite IH. destruct (N.eqb_spec cr x); [congruence|reflexivity].
Qed.

Lemma crToNl_app (s t : jsstring) : crToNl (s ++ t) = crToNl s ++ crToNl t.
Proof. apply flat_map_app. Qed.

Lemma cr_joined (lines : list jsstring) :
  Forall lineText lines -> crToNl (join [cr] lines) = join [nl] lines.
Proof.
  induction 1 as [|p rest Hp Hrest IH]; [reflexivity|].
  destruct rest as [|q rest].
  - apply crToNl_without, lineText_cr, Hp.
  - rewrite !join_cons by discriminate. rewrite !crToNl_app, IH.
    rewrite (crToNl_without p) by (apply lineText_cr, Hp). reflexivity.
Qed.

Lemma unifyLineEnds_scan (text : jsstring) :
  unifyLineEnds text = crToNl (replaceLit [cr; nl] [nl] 0 text).
Proof.
  unfold unifyLineEnds. rewrite replace_all_lit by discriminate.
  apply replace_all_cr.
Qed.

Lemma markHeadings_unified (s t : jsstring) :
  unifyLineEnds s = unifyLineEnds t -> markHeadings s = markHeadings t.
Proof. unfold markHeadings, unifyLineEnds. intros ->. reflexivity. Qed.

(** X30: a plain text shows the same whether its lines end with
    carriage return and line feed, with a carriage return alone or with
    a line feed: the three texts of the same lines have the same
    normalised text, and so the same pages. *)
Theorem line_ends_are_unified (lines : list jsstring) :
  Forall lineText lines ->
  normalizePlain (join [cr; nl] lines) = normalizePlain (join [nl] lines)
  /\ normalizePlain (join [cr] lines) = normalizePlain (join [nl] lines)
  /\ loadPages (normalizePlain (join [cr; nl] lines))
     = loadPages (normalizePlain (join [nl] lines))
  /\ loadPages (normalizePlain (join [cr] lines))
     = loadPages (normalizePlain (join [nl] lines)).
Proof.
  intros H.
  assert (Hcr : Forall (Forall (fun x => x <> cr)) lines)
    by (eapply Forall_impl; [exact H|apply lineText_cr]).
  assert (Hnl : Forall (Forall (fun x => x <> nl)) lines)
    by (eapply Forall_impl; [exact H|apply lineText_nl]).
  assert (U : unifyLineEnds (join [nl] lines) = join [nl] lines).
  { rewrite unifyLineEnds_scan.
    assert (N : Forall (fun x => x <> cr) (join [nl] lines))
      by (apply join_without; [repeat constructor; discriminate|exact Hcr]).
    rewrite (replaceLit_without_head cr [nl] [nl]) by exact N.
    apply crToNl_without, N. }
  assert (A : normalizePlain (join [cr; nl] lines) = normalizePlain (join [nl] lines)).
  { unfold normalizePlain. f_equal. apply markHeadings_unified.
    rewrite U, unifyLineEnds_scan, crlf_joined by exact H.
    apply crToNl_without, join_without;
      [repeat constructor; discriminate|exact Hcr]. }
  assert (B : normalizePlain (join [cr] lines) = normalizePlain (join [nl] lines)).
  { unfold normalizePlain. f_equal. apply markHeadings_unified.
    rewrite U, unifyLineEnds_scan.
    rewrite crlf_absent
      by (apply join_without; [repeat constructor; discriminate|exact Hnl]).
    apply cr_joined, H. }
  rewrite A, B. repeat split.
Qed.

(** The theorem on two lines. *)
Lemma line_ends_are_unified_witness :
  normalizePlain (js "Call me" ++ [cr; nl] ++ js "Ishmael.")
  = normalizePlain (js "Call me" ++ [nl] ++ js "Ishmael.")
  /\ normalizePlain (js "Call me" ++ [cr] ++ js "Ishmael.")
     = normalizePlain (js "Call me" ++ [nl] ++ js "Ishmael.").
Proof.
  destruct (line_ends_are_unified [js "Call me"; js "Ishmael."]) as (A & B & _).
  - repeat constructor; discriminate.
  - split; [exact A|exact B].
Defined.

(** ** Pagination *)

Lemma renderStep_loadStep (a : pageAcc) (p : jsstring) :
  renderStep a p = loadStep a p.
Proof. reflexivity. Qed.

Lemma fold_render_load (ps : list jsstring) (a : pageAcc) :
  fold_left renderStep ps a = fold_left loadStep ps a.
Proof.
  revert a; induction ps as [|p ps IH]; intros a; simpl.
  - reflexivity.
  - rewrite renderStep_loadStep. apply IH.
Qed.

Lemma renderPages_loadPages (text : jsstring) :
  renderPages text = loadPages text.
Proof.
  unfold renderPages, loadPages, closePages.
  rewrite fold_render_load. reflexivity.
Qed.

Lemma loadPages_empty : loadPages [] = [].
Proof. vm_compute. reflexivity. Qed.

(** C4: the page list computed at render time is the one computed at load
    time, for every content; so the page count stored at load is the
    length of the list the renderer indexes, and the text shown is the
    entry of the load-time list at the current index (the empty string
    when there is none). *)
Theorem pagination_paths_agree :
  (forall text : jsstring, renderPages text = loadPages text)
  /\ (forall (raw contentUrl : jsstring) (st : ReaderState),
        let st' := processBookContent (Some raw) contentUrl st in
        totalPages st' = Z.of_nat (length (renderPages (content st'))))
  /\ (forall st : ReaderState,
        getCurrentPageContent st = pageAt (loadPages (content st)) (currentPage st)).
Proof.
  split; [exact renderPages_loadPages|]. split.
  - intros raw contentUrl st st'. subst st'. rewrite renderPages_loadPages.
    reflexivity.
  - intros st. unfold getCurrentPageContent.
    destruct (content st) as [|x s] eqn:E; simpl.
    + rewrite loadPages_empty. unfold pageAt.
      destruct (currentPage st <? 0)%Z; reflexivity.
    + rewrite renderPages_loadPages. reflexivity.
Qed.

(** *** Paragraphs *)









(** *** Words *)

Lemma wsRuns_skip (s : jsstring) :
  wsRuns true s = wsRuns false (dropWhile isWhiteSpace s).
Proof.
  induction s as [|x s IH]; [reflexivity|]. cbn [wsRuns dropWhile].
  destruct (isWhiteSpace x) eqn:E; [exact IH|].
  cbn [wsRuns]. rewrite E. reflexivity.
Qed.

Lemma split_go_ws_length (n : nat) :
  forall (s : jsstring) (prev : option N) (piece : jsstring),
    (length s < n)%nat ->
    length (split_go flags_g re_ws_run n prev s piece) = S (wsRuns false s).
Proof.
  induction n as [|n IH]; intros s prev piece Hlen; [lia|].
  destruct s as [|x s]; [reflexivity|]. cbn [split_go wsRuns].
  rewrite rexec_ws_run. destruct (isWhiteSpace x).
  - replace (length (dropWhile isWhiteSpace s) =? length (x :: s))%nat with false.
    2:{ symmetry. apply Nat.eqb_neq.
        pose proof (dropWhile_length isWhiteSpace s). simpl. lia. }
    cbn [andb length]. rewrite IH.
    + rewrite wsRuns_skip. reflexivity.
    + pose proof (dropWhile_length isWhiteSpace s). simpl in Hlen. lia.
  - apply IH. simpl in Hlen. lia.
Qed.

Lemma split_ws_length (t : jsstring) :
  length (split flags_g re_ws_run t) = S (wsRuns false t).
Proof.
  destruct t as [|x t]; [reflexivity|].
  unfold split. apply split_go_ws_length. simpl. lia.
Qed.

Lemma tokens_runs (s : jsstring) : forall w : bool,
  (tokens (negb w) s + bit (endsWs w s) = wsRuns w s + bit w)%nat.
Proof.
  induction s as [|x s IH]; intros w; [reflexivity|].
  cbn [tokens wsRuns endsWs]. destruct (isWhiteSpace x) eqn:E.
  - specialize (IH true). cbn [negb bit] in IH. destruct w; cbn [bit]; lia.
  - specialize (IH false). cbn [negb bit] in IH. destruct w; cbn [negb bit]; lia.
Qed.

Lemma endsWs_snoc (w : bool) (s : jsstring) (x : N) :
  endsWs w (s ++ [x]) = isWhiteSpace x.
Proof. revert w; induction s as [|y s IH]; intros w; [reflexivity|apply IH]. Qed.

Lemma tokens_skip (s : jsstring) :
  tokens false (dropWhile isWhiteSpace s) = tokens false s.
Proof.
  induction s as [|x s IH]; [reflexivity|]. cbn [tokens dropWhile].
  destruct (isWhiteSpace x) eqn:E; [exact IH|]. cbn [tokens]. rewrite E.
  reflexivity.
Qed.

Lemma tokens_allWs (b : bool) (w : jsstring) : allWs w -> tokens b w = 0%nat.
Proof.
  intros H; revert b; induction H as [|x w Hx _ IH]; intros b; [reflexivity|].
  cbn [tokens]. rewrite Hx. apply IH.
Qed.

Lemma tokens_app_ws (s w : jsstring) : forall b : bool,
  allWs w -> tokens b (s ++ w) = tokens b s.
Proof.
  induction s as [|x s IH]; intros b Hw.
  - cbn [app tokens]. apply tokens_allWs, Hw.
  - cbn [app tokens]. destruct (isWhiteSpace x); rewrite IH by exact Hw; reflexivity.
Qed.

Lemma tokens_trim (s : jsstring) : tokens false (trim s) = tokens false s.
Proof.
  unfold trim. destruct (trimEnd_split (trimStart s)) as (w & E & Hw).
  rewrite <- (tokens_skip s). fold (trimStart s). rewrite E at 2.
  rewrite tokens_app_ws by exact Hw. reflexivity.
Qed.

Lemma wsRuns_head (s : jsstring) :
  match s with x :: _ => isWhiteSpace x = false | [] => True end ->
  wsRuns true s = wsRuns false s.
Proof. destruct s as [|x s]; [reflexivity|]. intros H. cbn [wsRuns]. rewrite H. reflexivity. Qed.

(** The word count of the program is the number of tokens, except that
    a text without any token counts for one word. *)
Lemma countWords_tokens (s : jsstring) :
  countWords s = Nat.max 1 (tokens false s).
Proof.
  unfold countWords. rewrite split_ws_length, <- (tokens_trim s).
  pose proof (tokens_runs (trim s) true) as H. cbn [negb bit] in H.
  rewrite (wsRuns_head _ (trim_head s)) in H.
  destruct (trimEnd_last (trimStart s)) as [E|(r & x & E & Hx)]; fold (trim s) in E.
  - rewrite E in *. reflexivity.
  - rewrite E in H. rewrite endsWs_snoc, Hx in H. cbn [bit] in H.
    rewrite E. lia.
Qed.




(** *** The budget *)





Lemma bufferOf_snoc (g : list jsstring) (p : jsstring) :
  bufferOf (g ++ [p]) = bufferOf g ++ p ++ [nl; nl].
Proof.
  unfold bufferOf. rewrite map_app, concat_app. cbn [map concat].
  rewrite app_nil_r. reflexivity.
Qed.

Lemma fold_loadStep_groups (ps : list jsstring) :
  forall (a : pageAcc) (groups : list (list jsstring)) (g : list jsstring),
    acc_pages a = map pageOf groups ->
    acc_content a = bufferOf g ->
    exists (groups' : list (list jsstring)) (g' : list jsstring),
      concat groups ++ g ++ ps = concat groups' ++ g'
      /\ acc_pages (fold_left loadStep ps a) = map pageOf groups'
      /\ acc_content (fold_left loadStep ps a) = bufferOf g'.
Proof.
  induction ps as [|p ps IH]; intros a groups g Hp Hc.
  - exists groups, g. rewrite app_nil_r. auto.
  - cbn [fold_left].
    destruct ((wordsPerPage <? acc_words a + countWords p)%nat
              && truthy (trim (acc_content a))) eqn:Econd.
    + replace (loadStep a p)
        with (mkAcc (acc_pages a ++ [trim (acc_content a)])
                (p ++ [nl; nl]) (countWords p))
        by (unfold loadStep; rewrite Econd; reflexivity).
      destruct (IH (mkAcc (acc_pages a ++ [trim (acc_content a)])
                      (p ++ [nl; nl]) (countWords p))
                  (groups ++ [g]) [p]) as (groups' & g' & E & H1 & H2).
      * cbn [acc_pages]. rewrite map_app, Hp, Hc. reflexivity.
      * cbn [acc_content]. unfold bufferOf. cbn [map concat].
        rewrite app_nil_r. reflexivity.
      * exists groups', g'. split; [|split; assumption].
        rewrite <- E, concat_app. cbn [concat]. rewrite app_nil_r, <- !app_assoc.
        reflexivity.
    + replace (loadStep a p)
        with (mkAcc (acc_pages a) (acc_content a ++ p ++ [nl; nl])
                (acc_words a + countWords p))
        by (unfold loadStep; rewrite Econd; reflexivity).
      destruct (IH (mkAcc (acc_pages a) (acc_content a ++ p ++ [nl; nl])
                      (acc_words a + countWords p))
                  groups (g ++ [p])) as (groups' & g' & E & H1 & H2).
      * exact Hp.
      * cbn [acc_content]. rewrite bufferOf_snoc, Hc. reflexivity.
      * exists groups', g'. split; [|split; assumption].
        rewrite <- E, <- !app_assoc. reflexivity.
Qed.

(** The pages are made of consecutive groups of whole paragraphs. *)
Lemma loadPages_groups (text : jsstring) :
  exists (groups : list (list jsstring)) (last : list jsstring),
    concat groups ++ last = split flags_g re_blank_lines text
    /\ loadPages text
       = map pageOf groups
         ++ (if truthy (pageOf last) then [pageOf last] else []).
Proof.
  destruct (fold_loadStep_groups (split flags_g re_blank_lines text)
              emptyAcc [] []) as (groups & g & E & H1 & H2);
    [reflexivity|reflexivity|].
  exists groups, g. split; [symmetry; exact E|].
  unfold loadPages, closePages, pageOf. rewrite H1, H2.
  destruct (truthy (trim (bufferOf g))); [reflexivity|].
  rewrite app_nil_r. reflexivity.
Qed.



(** A paragraph of 401 words is a page of its own. *)
Example oversized_paragraph_is_its_own_page :
  loadPages threeParagraphs = [js "Before."; longParagraph; js "After."]
  /\ countWords longParagraph = 401%nat.
Proof. split; vm_compute; reflexivity. Qed.

(** *** The words of the pages *)

Lemma wordsFrom_sep (a : jsstring) (x : N) (b : jsstring) : forall w : jsstring,
  isWhiteSpace x = true ->
  wordsFrom w (a ++ x :: b) = wordsFrom w a ++ wordsOf b.
Proof.
  induction a as [|y a IH]; intros w Hx; cbn [app wordsFrom].
  - rewrite Hx. reflexivity.
  - destruct (isWhiteSpace y).
    + rewrite IH by exact Hx. rewrite app_assoc. reflexivity.
    + apply IH, Hx.
Qed.

Lemma wordsOf_skip (s : jsstring) : wordsOf (dropWhile isWhiteSpace s) = wordsOf s.
Proof.
  induction s as [|x s IH]; [reflexivity|]. cbn [dropWhile].
  destruct (isWhiteSpace x) eqn:E; [|reflexivity].
  rewrite IH. unfold wordsOf. cbn [wordsFrom]. rewrite E. reflexivity.
Qed.

Lemma wordsOf_ws_prefix (w s : jsstring) : allWs w -> wordsOf (w ++ s) = wordsOf s.
Proof.
  induction 1 as [|x w Hx _ IH]; [reflexivity|].
  unfold wordsOf. cbn [app wordsFrom]. rewrite Hx. exact IH.
Qed.

Lemma wordsFrom_ws_suffix (s w : jsstring) : forall v : jsstring,
  allWs w -> wordsFrom v (s ++ w) = wordsFrom v s.
Proof.
  intros v Hw. destruct Hw as [|x w Hx Hw].
  - rewrite app_nil_r. reflexivity.
  - rewrite wordsFrom_sep by exact Hx.
    rewrite <- (app_nil_r w), wordsOf_ws_prefix by exact Hw.
    apply app_nil_r.
Qed.

Lemma wordsOf_trim (s : jsstring) : wordsOf (trim s) = wordsOf s.
Proof.
  unfold trim. destruct (trimEnd_split (trimStart s)) as (w & E & Hw).
  rewrite <- (wordsOf_skip s). fold (trimStart s). rewrite E at 2.
  unfold wordsOf. rewrite wordsFrom_ws_suffix by exact Hw. reflexivity.
Qed.

Lemma dropWhile_nl_words (s : jsstring) : wordsOf (dropWhile isNl s) = wordsOf s.
Proof.
  induction s as [|x s IH]; [reflexivity|]. cbn [dropWhile].
  destruct (isNl x) eqn:E; [|reflexivity].
  rewrite IH. apply isNl_eq in E. subst x. reflexivity.
Qed.

(** The words of a text are those of its paragraphs. *)
Lemma split_go_paragraph_words (n : nat) :
  forall (s : jsstring) (prev : option N) (piece : jsstring),
    (length s < n)%nat ->
    concat (map wordsOf (split_go flags_g re_blank_lines n prev s piece))
    = wordsOf (piece ++ s).
Proof.
  induction n as [|n IH]; intros s prev piece Hlen; [lia|].
  destruct s as [|x s]; cbn [split_go].
  - cbn [map concat]. rewrite !app_nil_r. reflexivity.
  - rewrite rexec_blank_lines.
    assert (Hstep : forall prev',
              concat (map wordsOf (split_go flags_g re_blank_lines n prev' s (piece ++ [x])))
              = wordsOf (piece ++ x :: s)).
    { intros prev'. rewrite IH by (simpl in Hlen; lia).
      rewrite <- app_assoc. reflexivity. }
    destruct s as [|b s']; [apply Hstep|].
    destruct (isNl x) eqn:Ex; cbn [andb]; [|apply Hstep].
    destruct (isNl b) eqn:Eb; [|apply Hstep].
    replace (length (dropWhile isNl s') =? length (x :: b :: s'))%nat with false.
    2:{ symmetry. apply Nat.eqb_neq.
        pose proof (dropWhile_length isNl s'). simpl. lia. }
    cbn [andb map concat]. rewrite IH.
    2:{ pose proof (dropWhile_length isNl s'). simpl in Hlen. lia. }
    cbn [app]. rewrite dropWhile_nl_words.
    apply isNl_eq in Ex, Eb. subst x b.
    unfold wordsOf at 3. rewrite wordsFrom_sep by reflexivity.
    reflexivity.
Qed.

Lemma paragraph_words (text : jsstring) :
  concat (map wordsOf (split flags_g re_blank_lines text)) = wordsOf text.
Proof.
  destruct text as [|x t]; [reflexivity|].
  unfold split. rewrite split_go_paragraph_words by (simpl; lia). reflexivity.
Qed.

Lemma bufferOf_words (g : list jsstring) : wordsOf (bufferOf g) = concat (map wordsOf g).
Proof.
  induction g as [|p g IH]; [reflexivity|].
  unfold bufferOf in *. cbn [map concat]. rewrite <- app_assoc.
  unfold wordsOf at 1. cbn [app]. rewrite wordsFrom_sep by reflexivity.
  f_equal. rewrite <- IH. reflexivity.
Qed.

Lemma pageOf_words (g : list jsstring) : wordsOf (pageOf g) = concat (map wordsOf g).
Proof. unfold pageOf. rewrite wordsOf_trim. apply bufferOf_words. Qed.

Lemma wordsOf_empty (s : jsstring) : truthy s = false -> wordsOf s = [].
Proof. destruct s; [reflexivity|discriminate]. Qed.

(** The source's own word split, empty pieces aside. *)
Lemma split_go_words (n : nat) :
  forall (s : jsstring) (prev : option N) (piece : jsstring),
    (length s < n)%nat ->
    List.filter truthy (split_go flags_g re_ws_run n prev s piece)
    = wordsFrom piece s.
Proof.
  induction n as [|n IH]; intros s prev piece Hlen; [lia|].
  destruct s as [|x s]; cbn [split_go wordsFrom].
  - cbn [List.filter]. destruct (truthy piece); reflexivity.
  - rewrite rexec_ws_run. destruct (isWhiteSpace x).
    + replace (length (dropWhile isWhiteSpace s) =? length (x :: s))%nat with false.
      2:{ symmetry. apply Nat.eqb_neq.
          pose proof (dropWhile_length isWhiteSpace s). simpl. lia. }
      cbn [andb List.filter]. rewrite IH.
      2:{ pose proof (dropWhile_length isWhiteSpace s). simpl in Hlen. lia. }
      fold (wordsOf (dropWhile isWhiteSpace s)). rewrite wordsOf_skip.
      destruct (truthy piece); reflexivity.
    + apply IH. simpl in Hlen. lia.
Qed.

Lemma split_words (s : jsstring) :
  List.filter truthy (split flags_g re_ws_run s) = wordsOf s.
Proof.
  destruct s as [|x t]; [reflexivity|].
  unfold split. apply split_go_words. simpl. lia.
Qed.

Lemma loadPages_words (text : jsstring) :
  concat (map wordsOf (loadPages text)) = wordsOf text.
Proof.
  destruct (loadPages_groups text) as (groups & last & E & ->).
  rewrite <- paragraph_words, <- E. clear E.
  rewrite !map_app, !concat_app. f_equal.
  - rewrite map_map. induction groups as [|g groups IH]; [reflexivity|].
    cbn [map concat]. rewrite pageOf_words, IH, map_app, concat_app. reflexivity.
  - destruct (truthy (pageOf last)) eqn:T.
    + cbn [map concat]. rewrite pageOf_words. apply app_nil_r.
    + rewrite <- (pageOf_words last), (wordsOf_empty _ T). reflexivity.
Qed.

(** X7: pagination loses no word, adds none and keeps their order: the
    words of the pages, one page after the other, are the words of the
    text; the words are what the program's own split at white space
    gives, empty pieces aside. *)
Theorem pagination_keeps_the_words (text : jsstring) :
  concat (map wordsOf (loadPages text)) = wordsOf text
  /\ (forall s : jsstring,
        List.filter truthy (split flags_g re_ws_run s) = wordsOf s).
Proof. split; [apply loadPages_words|exact split_words]. Qed.

Lemma wordsFrom_length (s : jsstring) : forall w : jsstring,
  length (wordsFrom w s) = (bit (truthy w) + tokens (truthy w) s)%nat.
Proof.
  induction s as [|x s IH]; intros w; cbn [wordsFrom tokens].
  - destruct (truthy w); cbn; lia.
  - destruct (isWhiteSpace x).
    + rewrite length_app, IH. destruct (truthy w); cbn; lia.
    + rewrite IH. replace (truthy (w ++ [x])) with true by (destruct w; reflexivity).
      destruct (truthy w); cbn; lia.
Qed.

(** X8: the program's word count of a paragraph is the number of its
    words, except that a paragraph without any word, the empty one
    included, counts for one. *)
Theorem countWords_counts_words (paragraph : jsstring) :
  countWords paragraph = Nat.max 1 (length (wordsOf paragraph))
  /\ countWords [] = 1%nat
  /\ length (wordsOf paragraph)
     = length (List.filter truthy (split flags_g re_ws_run paragraph)).
Proof.
  split; [|split; [reflexivity|]].
  - rewrite countWords_tokens. unfold wordsOf. rewrite wordsFrom_length. reflexivity.
  - rewrite split_words. reflexivity.
Qed.

Lemma blank_is_space (x : N) : isSpaceTab x = true -> isWhiteSpace x = true.
Proof. intros H. apply spaceTab_cases in H as [->| ->]; reflexivity. Qed.

Lemma nl_is_space (x : N) : isNl x = true -> isWhiteSpace x = true.
Proof. intros H. apply isNl_eq in H. subst x. reflexivity. Qed.

Lemma squeeze_words (s : jsstring) : forall (b : bool) (w : jsstring),
  (b = true -> w = []) -> wordsFrom w (squeeze b s) = wordsFrom w s.
Proof.
  induction s as [|x s IH]; intros b w Hb; [reflexivity|]. cbn [squeeze].
  destruct (isSpaceTab x) eqn:E.
  - pose proof (blank_is_space x E) as Hx. cbn [wordsFrom]. rewrite Hx.
    destruct b.
    + rewrite (Hb eq_refl). apply (IH true []). reflexivity.
    + cbn [wordsFrom]. rewrite (IH true []) by reflexivity. reflexivity.
  - cbn [wordsFrom]. destruct (isWhiteSpace x).
    + rewrite (IH false []) by discriminate. reflexivity.
    + apply IH. discriminate.
Qed.

Lemma dropAfterNl_words (s : jsstring) : forall (b : bool) (w : jsstring),
  (b = true -> w = []) -> wordsFrom w (dropAfterNl b s) = wordsFrom w s.
Proof.
  induction s as [|x s IH]; intros b w Hb; [reflexivity|]. cbn [dropAfterNl].
  destruct (b && isSpaceTab x) eqn:E.
  - apply andb_prop in E as [-> E]. rewrite (Hb eq_refl).
    cbn [wordsFrom]. rewrite (blank_is_space x E). apply (IH true []). reflexivity.
  - cbn [wordsFrom]. destruct (isWhiteSpace x) eqn:W.
    + rewrite (IH _ []) by reflexivity. reflexivity.
    + apply IH. intros Hn. apply nl_is_space in Hn. congruence.
Qed.

Lemma dropBeforeNl_words (s : jsstring) : forall w : jsstring,
  wordsFrom w (dropBeforeNl s) = wordsFrom w s.
Proof.
  induction s as [|x s IH]; intros w; [reflexivity|]. cbn [dropBeforeNl].
  destruct (isSpaceTab x && beforeNl s) eqn:E.
  - apply andb_prop in E as [Ex Es]. cbn [wordsFrom]. rewrite (blank_is_space x Ex).
    rewrite <- (IH []). unfold beforeNl in Es.
    destruct (dropWhile isSpaceTab s) as [|y rest] eqn:D; [discriminate|].
    rewrite (dropBeforeNl_run s y rest D Es). cbn [wordsFrom].
    rewrite (nl_is_space y Es). reflexivity.
  - cbn [wordsFrom]. destruct (isWhiteSpace x); rewrite IH; reflexivity.
Qed.

Lemma capNl_words (s : jsstring) : forall (k : nat) (w : jsstring),
  ((1 <= k)%nat -> w = []) -> wordsFrom w (capNl k s) = wordsFrom w s.
Proof.
  induction s as [|x s IH]; intros k w Hk; [reflexivity|]. cbn [capNl].
  destruct (isNl x) eqn:E.
  - pose proof (nl_is_space x E) as Hx. destruct (Nat.leb_spec 2 k).
    + rewrite (Hk ltac:(lia)). cbn [wordsFrom]. rewrite Hx.
      apply (IH k []). reflexivity.
    + cbn [wordsFrom]. rewrite Hx, (IH (S k) []) by reflexivity. reflexivity.
  - cbn [wordsFrom]. destruct (isWhiteSpace x).
    + rewrite (IH 0%nat []) by reflexivity. reflexivity.
    + apply IH. lia.
Qed.

Lemma collapseSpace_words (s : jsstring) : wordsOf (collapseSpace s) = wordsOf s.
Proof.
  rewrite collapseSpace_scan, wordsOf_trim. unfold wordsOf.
  rewrite capNl_words, dropBeforeNl_words, dropAfterNl_words, squeeze_words;
    try reflexivity; discriminate.
Qed.

Lemma collapseSpacePlain_words (s : jsstring) :
  wordsOf (collapseSpacePlain s) = wordsOf s.
Proof.
  rewrite collapseSpacePlain_scan, wordsOf_trim. unfold wordsOf.
  rewrite capNl_words, squeeze_words; try reflexivity; discriminate.
Qed.

(** X6: the white-space clean-up of either branch changes no word; so
    the pages of a markup source hold, in order, the words left by the
    tag and entity rules, and those of a plain-text source the words
    left by the line-ending and heading rules. *)
Theorem cleanup_changes_no_word (text : jsstring) :
  wordsOf (collapseSpace text) = wordsOf text
  /\ wordsOf (collapseSpacePlain text) = wordsOf text
  /\ wordsOf (normalizeMarkup text) = wordsOf (stripMarkup text)
  /\ wordsOf (normalizePlain text) = wordsOf (markHeadings text)
  /\ concat (map wordsOf (loadPages (normalizeMarkup text)))
     = wordsOf (stripMarkup text)
  /\ concat (map wordsOf (loadPages (normalizePlain text)))
     = wordsOf (markHeadings text).
Proof.
  repeat split; rewrite ?loadPages_words;
    first [apply collapseSpace_words | apply collapseSpacePlain_words].
Qed.

(** *** Pages with content *)

Lemma fold_loadStep_tidy (ps : list jsstring) : forall a : pageAcc,
  Forall tidyPage (acc_pages a) ->
  Forall tidyPage (acc_pages (fold_left loadStep ps a)).
Proof.
  induction ps as [|p ps IH]; intros a Ha; [exact Ha|]. cbn [fold_left].
  apply IH. unfold loadStep.
  destruct (wordsPerPage <? acc_words a + countWords p)%nat; cbn [andb]; [|exact Ha].
  destruct (truthy (trim (acc_content a))) eqn:T; [|exact Ha].
  cbn [acc_pages]. apply Forall_app. split; [exact Ha|].
  constructor; [|constructor]. split; [exact T|apply trim_trim].
Qed.

Lemma loadPages_tidy (text : jsstring) : Forall tidyPage (loadPages text).
Proof.
  unfold loadPages, closePages.
  pose proof (fold_loadStep_tidy (split flags_g re_blank_lines text) emptyAcc
                ltac:(constructor)) as H.
  destruct (truthy (trim (acc_content _))) eqn:T; [|exact H].
  apply Forall_app. split; [exact H|].
  constructor; [|constructor]. split; [exact T|apply trim_trim].
Qed.

Lemma wordsFrom_started (s : jsstring) : forall w : jsstring,
  truthy w = true -> wordsFrom w s <> [].
Proof.
  induction s as [|y s IH]; intros w Hw; cbn [wordsFrom].
  - rewrite Hw. discriminate.
  - destruct (isWhiteSpace y).
    + rewrite Hw. discriminate.
    + apply IH. destruct w; reflexivity.
Qed.

Lemma trimmed_has_word (s : jsstring) : truthy (trim s) = true -> wordsOf s <> [].
Proof.
  intros T. rewrite <- wordsOf_trim. pose proof (trim_head s) as H.
  destruct (trim s) as [|x r]; [discriminate|].
  unfold wordsOf. cbn [wordsFrom]. rewrite H. apply wordsFrom_started. reflexivity.
Qed.

Lemma tidy_has_word (page : jsstring) : tidyPage page -> wordsOf page <> [].
Proof. intros [T E]. apply trimmed_has_word. rewrite E. exact T. Qed.

Lemma loadPages_nil (text : jsstring) : loadPages text = [] <-> trim text = [].
Proof.
  split.
  - intros E. pose proof (loadPages_words text) as W. rewrite E in W. cbn in W.
    destruct (trim text) as [|x r] eqn:T; [reflexivity|].
    exfalso. apply (trimmed_has_word text); [rewrite T; reflexivity|].
    symmetry. exact W.
  - intros E. pose proof (loadPages_words text) as W.
    rewrite <- (wordsOf_trim text), E in W.
    pose proof (loadPages_tidy text) as H.
    destruct (loadPages text) as [|page pages]; [reflexivity|].
    inversion H as [|? ? Hp _]; subst. apply tidy_has_word in Hp.
    cbn [map concat] in W. destruct (wordsOf page); [congruence|discriminate].
Qed.

Lemma normalize_trimmed (raw contentUrl : jsstring) :
  trim (normalize raw contentUrl) = normalize raw contentUrl.
Proof. unfold normalize. destruct (isMarkupSource contentUrl); apply trim_trim. Qed.

(** X9: no page is empty, and no page starts or ends with white
    space. *)
Theorem pages_are_nonempty_and_trimmed (text : jsstring) :
  Forall (fun page => truthy page = true /\ trim page = page) (loadPages text).
Proof. exact (loadPages_tidy text). Qed.

(** X10: a text gives no page exactly when it is blank; so a book that
    has been processed has a page count of 0 exactly when its content
    is the empty string. *)
Theorem no_page_iff_blank_text :
  (forall text : jsstring, loadPages text = [] <-> trim text = [])
  /\ (forall (raw contentUrl : jsstring) (st : ReaderState),
        let st' := processBookContent (Some raw) contentUrl st in
        totalPages st' = 0%Z <-> content st' = []).
Proof.
  split; [exact loadPages_nil|].
  intros raw contentUrl st st'. subst st'. cbn.
  rewrite <- (normalize_trimmed raw contentUrl) at 2.
  rewrite <- loadPages_nil.
  destruct (loadPages (normalize raw contentUrl)); cbn; split; intros H;
    try reflexivity; try discriminate; lia.
Qed.

Lemma getCurrentPageContent_pageAt (st : ReaderState) :
  getCurrentPageContent st = pageAt (loadPages (content st)) (currentPage st).
Proof.
  unfold getCurrentPageContent.
  destruct (content st) as [|x s] eqn:E; simpl.
  - rewrite loadPages_empty. unfold pageAt.
    destruct (currentPage st <? 0)%Z; reflexivity.
  - rewrite renderPages_loadPages. reflexivity.
Qed.

Lemma pageAt_blank (pages : list jsstring) (i : Z) :
  Forall tidyPage pages ->
  pageAt pages i = [] <-> ~ (0 <= i < Z.of_nat (length pages))%Z.
Proof.
  intros H. unfold pageAt. destruct (Z.ltb_spec i 0); [split; [lia|reflexivity]|].
  destruct (pages !! Z.to_nat i) as [page|] eqn:E.
  - pose proof (lookup_lt_Some _ _ _ E) as Hlt.
    rewrite Forall_forall in H.
    destruct (H page (list_elem_of_lookup_2 _ _ _ E)) as [T _].
    split; [|lia]. intros ->. discriminate.
  - apply lookup_ge_None in E. split; [lia|reflexivity].
Qed.

(** X13: after a jump to [index] the text shown is empty exactly when
    [index] is no page of the book. *)
Theorem page_shown_is_blank_iff_out_of_range
    (raw contentUrl : jsstring) (st : ReaderState) (index : Z) :
  let st' := seek index (processBookContent (Some raw) contentUrl st) in
  getCurrentPageContent st' = [] <-> ~ (0 <= index < totalPages st')%Z.
Proof.
  intros st'. rewrite getCurrentPageContent_pageAt. subst st'. cbn.
  apply pageAt_blank, loadPages_tidy.
Qed.

(** *** How many pages, and where they break *)

Lemma fold_loadStep_count (ps : list jsstring) : forall a : pageAcc,
  (length (acc_pages (fold_left loadStep ps a))
   + bit (truthy (trim (acc_content (fold_left loadStep ps a))))
   <= length (acc_pages a) + bit (truthy (trim (acc_content a))) + length ps)%nat.
Proof.
  induction ps as [|p ps IH]; intros a; cbn [fold_left length]; [lia|].
  etransitivity; [apply IH|]. unfold loadStep.
  destruct (wordsPerPage <? acc_words a + countWords p)%nat; cbn [andb].
  - destruct (truthy (trim (acc_content a))) eqn:T; cbn [acc_pages acc_content].
    + rewrite length_app. cbn [length bit].
      destruct (truthy (trim (p ++ [nl; nl]))); cbn [bit]; lia.
    + destruct (truthy (trim (acc_content a ++ p ++ [nl; nl]))); cbn [bit]; lia.
  - cbn [acc_pages acc_content].
    destruct (truthy (trim (acc_content a ++ p ++ [nl; nl]))),
             (truthy (trim (acc_content a))); cbn [bit]; lia.
Qed.

Lemma loadPages_count (text : jsstring) :
  (length (loadPages text) <= length (split flags_g re_blank_lines text))%nat.
Proof.
  unfold loadPages, closePages.
  pose proof (fold_loadStep_count (split flags_g re_blank_lines text) emptyAcc) as H.
  change (length (acc_pages emptyAcc) + bit (truthy (trim (acc_content emptyAcc))))%nat
    with 0%nat in H.
  destruct (truthy (trim (acc_content _))); cbn [bit] in H.
  - rewrite length_app. cbn [length]. lia.
  - lia.
Qed.

Lemma fold_loadStep_fits (ps : list jsstring) : forall a : pageAcc,
  (acc_words a + list_sum (map countWords ps) <= wordsPerPage)%nat ->
  fold_left loadStep ps a
  = mkAcc (acc_pages a) (acc_content a ++ bufferOf ps)
          (acc_words a + list_sum (map countWords ps)).
Proof.
  induction ps as [|p ps IH]; intros a H; cbn [fold_left].
  - unfold bufferOf. cbn. rewrite app_nil_r, Nat.add_0_r. destruct a; reflexivity.
  - change (list_sum (map countWords (p :: ps)))
      with (countWords p + list_sum (map countWords ps))%nat in *.
    replace (loadStep a p)
      with (mkAcc (acc_pages a) (acc_content a ++ p ++ [nl; nl])
              (acc_words a + countWords p)).
    2:{ unfold loadStep.
        replace (wordsPerPage <? acc_words a + countWords p)%nat with false;
          [reflexivity|].
        symmetry. apply Nat.ltb_ge. lia. }
    rewrite IH by (cbn [acc_words]; lia). cbn [acc_pages acc_content acc_words].
    unfold bufferOf. cbn [map concat]. rewrite <- !app_assoc, Nat.add_assoc.
    reflexivity.
Qed.

(** X11: there are no more pages than paragraphs, and a text whose
    paragraphs are within the budget of 400 words together is one page
    (no page when it is blank). *)
Theorem page_count_bounds (text : jsstring) :
  let paragraphs := split flags_g re_blank_lines text in
  (length (loadPages text) <= length paragraphs)%nat
  /\ ((list_sum (map countWords paragraphs) <= wordsPerPage)%nat ->
      loadPages text
      = if truthy (pageOf paragraphs) then [pageOf paragraphs] else []).
Proof.
  intros paragraphs. split; [apply loadPages_count|].
  intros H. unfold loadPages, closePages. fold paragraphs.
  rewrite fold_loadStep_fits by exact H. reflexivity.
Qed.

(** The theorem on a text of two short paragraphs. *)
Lemma page_count_bounds_witness :
  loadPages twoParagraphs = [twoParagraphs].
Proof.
  destruct (page_count_bounds twoParagraphs) as [_ H].
  rewrite H; [reflexivity|]. vm_compute. lia.
Defined.

Lemma head_app_some {A : Type} (l k : list A) (x : A) :
  head l = Some x -> head (l ++ k) = Some x.
Proof. destruct l; [discriminate|exact id]. Qed.

Lemma groupWords_snoc (g : list jsstring) (p : jsstring) :
  groupWords (g ++ [p]) = (groupWords g + countWords p)%nat.
Proof.
  unfold groupWords. rewrite map_app, list_sum_app. cbn. lia.
Qed.

Lemma fold_loadStep_breaks (ps : list jsstring) :
  forall (a : pageAcc) (groups : list (list jsstring)) (g : list jsstring),
    acc_pages a = map pageOf groups ->
    acc_content a = bufferOf g ->
    acc_words a = groupWords g ->
    forcedBreaks groups g ->
    exists (groups' : list (list jsstring)) (g' : list jsstring),
      concat groups ++ g ++ ps = concat groups' ++ g'
      /\ acc_pages (fold_left loadStep ps a) = map pageOf groups'
      /\ acc_content (fold_left loadStep ps a) = bufferOf g'
      /\ forcedBreaks groups' g'.
Proof.
  induction ps as [|p ps IH]; intros a groups g Hp Hc Hw Hf.
  - exists groups, g. rewrite app_nil_r. auto.
  - cbn [fold_left].
    destruct ((wordsPerPage <? acc_words a + countWords p)%nat
              && truthy (trim (acc_content a))) eqn:Econd.
    + replace (loadStep a p)
        with (mkAcc (acc_pages a ++ [trim (acc_content a)])
                (p ++ [nl; nl]) (countWords p))
        by (unfold loadStep; rewrite Econd; reflexivity).
      apply andb_prop in Econd as [Eover Etrim]. apply Nat.ltb_lt in Eover.
      destruct (IH (mkAcc (acc_pages a ++ [trim (acc_content a)])
                      (p ++ [nl; nl]) (countWords p))
                  (groups ++ [g]) [p]) as (groups' & g' & E & H1 & H2 & H3).
      * cbn [acc_pages]. rewrite map_app, Hp, Hc. reflexivity.
      * cbn [acc_content]. unfold bufferOf. cbn [map concat].
        rewrite app_nil_r. reflexivity.
      * cbn [acc_words]. unfold groupWords. cbn. lia.
      * intros i gi Hi. apply lookup_app_Some in Hi as [Hi1|[Hlen Hi2]].
        -- pose proof (lookup_lt_Some _ _ _ Hi1) as Hlt.
           destruct (Hf i gi Hi1) as (Ht & p0 & Hh & Hb).
           split; [exact Ht|]. exists p0. split; [|exact Hb].
           rewrite drop_app_le by lia. rewrite concat_app. cbn [concat].
           rewrite app_nil_r. apply head_app_some. exact Hh.
        -- apply list_lookup_singleton_Some in Hi2 as [Hi0 <-].
           split; [unfold pageOf; rewrite <- Hc; exact Etrim|].
           exists p. rewrite drop_ge by (rewrite length_app; simpl; lia).
           split; [reflexivity|]. rewrite <- Hw. exact Eover.
      * exists groups', g'. split; [|split; [|split]]; try assumption.
        rewrite <- E, concat_app. cbn [concat]. rewrite app_nil_r, <- !app_assoc.
        reflexivity.
    + replace (loadStep a p)
        with (mkAcc (acc_pages a) (acc_content a ++ p ++ [nl; nl])
                (acc_words a + countWords p))
        by (unfold loadStep; rewrite Econd; reflexivity).
      destruct (IH (mkAcc (acc_pages a) (acc_content a ++ p ++ [nl; nl])
                      (acc_words a + countWords p))
                  groups (g ++ [p])) as (groups' & g' & E & H1 & H2 & H3).
      * exact Hp.
      * cbn [acc_content]. rewrite bufferOf_snoc, Hc. reflexivity.
      * cbn [acc_words]. rewrite groupWords_snoc, Hw. reflexivity.
      * intros i gi Hi. destruct (Hf i gi Hi) as (Ht & p0 & Hh & Hb).
        split; [exact Ht|]. exists p0. split; [|exact Hb].
        rewrite app_assoc. apply head_app_some. exact Hh.
      * exists groups', g'. split; [|split; [|split]]; try assumption.
        rewrite <- E, <- !app_assoc. reflexivity.
Qed.

(** X12: pages are filled greedily: every page but the last is
    followed by a paragraph that would have taken it over the budget of
    400 words, as the program counts them. *)
Theorem page_breaks_are_forced (text : jsstring) :
  exists (groups : list (list jsstring)) (last : list jsstring),
    concat groups ++ last = split flags_g re_blank_lines text
    /\ loadPages text
       = map pageOf groups ++ (if truthy (pageOf last) then [pageOf last] else [])
    /\ forall (i : nat) (g : list jsstring),
         groups !! i = Some g ->
         truthy (pageOf g) = true
         /\ exists p : jsstring,
              head (concat (drop (S i) groups) ++ last) = Some p
              /\ (400 < list_sum (map countWords g) + countWords p)%nat.
Proof.
  destruct (fold_loadStep_breaks (split flags_g re_blank_lines text)
              emptyAcc [] []) as (groups & g & E & H1 & H2 & H3);
    [reflexivity|reflexivity|reflexivity|intros i gi Hi; discriminate Hi|].
  exists groups, g. split; [symmetry; exact E|]. split; [|exact H3].
  unfold loadPages, closePages, pageOf. rewrite H1, H2.
  destruct (truthy (trim (bufferOf g))); [reflexivity|].
  rewrite app_nil_r. reflexivity.
Qed.

(** ** Settings *)

(** C8: a settings update (font size, line height, theme, font family)
    changes neither the page count, nor the current page index, nor the
    content; the page list and the text shown are the same before and
    after, and the budget is the constant 400. *)
Theorem updateSettings_keeps_pagination (u : SettingsUpdate) (st : ReaderState) :
  totalPages (updateSettings u st) = totalPages st
  /\ currentPage (updateSettings u st) = currentPage st
  /\ content (updateSettings u st) = content st
  /\ renderPages (content (updateSettings u st)) = renderPages (content st)
  /\ getCurrentPageContent (updateSettings u st) = getCurrentPageContent st
  /\ wordsPerPage = 400%nat.
Proof. destruct u; repeat split; reflexivity. Qed.

(** ** Navigation *)




(** *** Repeated steps, reset and bookmark *)

Lemma handleNextPage_total (st : ReaderState) :
  totalPages (handleNextPage st) = totalPages st.
Proof. unfold handleNextPage. destruct (_ <? _)%Z; reflexivity. Qed.

Lemma handlePrevPage_total (st : ReaderState) :
  totalPages (handlePrevPage st) = totalPages st.
Proof. unfold handlePrevPage. destruct (_ >? _)%Z; reflexivity. Qed.

Lemma iter_next_total (k : nat) (st : ReaderState) :
  totalPages (Nat.iter k handleNextPage st) = totalPages st.
Proof.
  induction k as [|k IH]; [reflexivity|]. rewrite Nat.iter_succ.
  rewrite handleNextPage_total. exact IH.
Qed.

Lemma iter_prev_total (k : nat) (st : ReaderState) :
  totalPages (Nat.iter k handlePrevPage st) = totalPages st.
Proof.
  induction k as [|k IH]; [reflexivity|]. rewrite Nat.iter_succ.
  rewrite handlePrevPage_total. exact IH.
Qed.

Lemma iter_next_page (k : nat) (st : ReaderState) :
  currentPage (Nat.iter k handleNextPage st)
  = Z.max (currentPage st)
      (Z.min (currentPage st + Z.of_nat k) (totalPages st - 1)).
Proof.
  induction k as [|k IH]; [cbn; lia|]. rewrite Nat.iter_succ.
  unfold handleNextPage at 1. rewrite iter_next_total, IH.
  destruct (Z.ltb_spec
              (Z.max (currentPage st)
                 (Z.min (currentPage st + Z.of_nat k) (totalPages st - 1)))
              (totalPages st - 1)); cbn [currentPage setCurrentPage]; [|rewrite IH]; lia.
Qed.

Lemma iter_prev_page (k : nat) (st : ReaderState) :
  currentPage (Nat.iter k handlePrevPage st)
  = Z.min (currentPage st) (Z.max (currentPage st - Z.of_nat k) 0).
Proof.
  induction k as [|k IH]; [cbn; lia|]. rewrite Nat.iter_succ.
  unfold handlePrevPage at 1. rewrite IH.
  destruct (Z.gtb_spec
              (Z.min (currentPage st) (Z.max (currentPage st - Z.of_nat k) 0)) 0);
    cbn [currentPage setCurrentPage]; [|rewrite IH]; lia.
Qed.

(** X14: pressing Next [k] times moves [k] pages on and stops at the
    last page; pressing Previous [k] times moves [k] pages back and
    stops at the first; neither changes the page count; inside the book
    each undoes the other. *)
Theorem repeated_navigation_stops_at_the_ends (st : ReaderState) (k : nat) :
  currentPage (Nat.iter k handleNextPage st)
  = Z.max (currentPage st) (Z.min (currentPage st + Z.of_nat k) (totalPages st - 1))
  /\ currentPage (Nat.iter k handlePrevPage st)
     = Z.min (currentPage st) (Z.max (currentPage st - Z.of_nat k) 0)
  /\ totalPages (Nat.iter k handleNextPage st) = totalPages st
  /\ totalPages (Nat.iter k handlePrevPage st) = totalPages st
  /\ ((currentPage st < totalPages st - 1)%Z -> (0 <= currentPage st)%Z ->
      handlePrevPage (handleNextPage st) = st)
  /\ ((0 < currentPage st)%Z -> (currentPage st < totalPages st)%Z ->
      handleNextPage (handlePrevPage st) = st).
Proof.
  split; [apply iter_next_page|]. split; [apply iter_prev_page|].
  split; [apply iter_next_total|]. split; [apply iter_prev_total|].
  split.
  - intros H1 H2. unfold handleNextPage.
    destruct (Z.ltb_spec (currentPage st) (totalPages st - 1)); [|lia].
    unfold handlePrevPage. cbn [currentPage setCurrentPage].
    destruct (Z.gtb_spec (currentPage st + 1) 0); [|lia].
    destruct st as [a b c d cp tp e f]; unfold setCurrentPage; cbn. f_equal. lia.
  - intros H1 H2. unfold handlePrevPage.
    destruct (Z.gtb_spec (currentPage st) 0); [|lia].
    unfold handleNextPage. cbn [currentPage totalPages setCurrentPage].
    destruct (Z.ltb_spec (currentPage st - 1) (totalPages st - 1)); [|lia].
    destruct st as [a b c d cp tp e f]; unfold setCurrentPage; cbn. f_equal. lia.
Qed.

(** The theorem on a book of three pages. *)
Lemma repeated_navigation_stops_at_the_ends_witness :
  let st := processBookContent (Some threeParagraphs) (js "book.txt") initialState in
  currentPage (Nat.iter 5 handleNextPage st) = 2%Z
  /\ handlePrevPage (handleNextPage st) = st.
Proof.
  intros st.
  destruct (repeated_navigation_stops_at_the_ends st 5) as (Hn & _ & _ & _ & Hu & _).
  split.
  - rewrite Hn. vm_compute. reflexivity.
  - apply Hu; vm_compute; [reflexivity|discriminate].
Defined.

(** X15: resetting lands on a valid first page from any state, also
    after a jump outside the book, and changes nothing but the index
    and the bookmark; toggling the bookmark twice gives the state back
    and never changes the page shown. *)
Theorem reset_returns_to_a_valid_page (st : ReaderState) :
  pageInRange (resetProgress st)
  /\ currentPage (resetProgress st) = 0%Z
  /\ isBookmarked (resetProgress st) = false
  /\ content (resetProgress st) = content st
  /\ totalPages (resetProgress st) = totalPages st
  /\ resetProgress (resetProgress st) = resetProgress st
  /\ (forall index : Z, resetProgress (seek index st) = resetProgress st)
  /\ toggleBookmark (toggleBookmark st) = st
  /\ currentPage (toggleBookmark st) = currentPage st
  /\ getCurrentPageContent (toggleBookmark st) = getCurrentPageContent st.
Proof.
  destruct st as [a b c d cp tp e f].
  unfold pageInRange, resetProgress, toggleBookmark, seek, setCurrentPage,
    setIsBookmarked, getCurrentPageContent. cbn.
  repeat split; try reflexivity; try lia.
  destruct e; reflexivity.
Qed.

(** ** Retrieval *)

Lemma prop_absent (o : list (jsstring * jsstring)) (key : jsstring) :
  forallb (fun k => negb (eqs k key)) (keys o) = true -> prop o key = None.
Proof.
  induction o as [|[k v] o IH]; simpl; [reflexivity|].
  intros H. apply andb_prop in H as [H1 H2].
  destruct (eqs k key); [discriminate H1|]. apply IH, H2.
Qed.

Lemma unreadable_keys_exclude (ks : list jsstring) (key : jsstring) :
  isReadableFormat key = true ->
  forallb (fun k => negb (isReadableFormat k)) ks = true ->
  forallb (fun k => negb (eqs k key)) ks = true.
Proof.
  intros Hkey. induction ks as [|k ks IH]; simpl; [reflexivity|].
  intros H. apply andb_prop in H as [H1 H2]. rewrite (IH H2), andb_true_r.
  destruct (eqs k key) eqn:E; [|reflexivity].
  apply eqs_eq in E. subst k. rewrite Hkey in H1. discriminate H1.
Qed.

Lemma filter_unreadable (ks : list jsstring) :
  forallb (fun k => negb (isReadableFormat k)) ks = true ->
  List.filter isReadableFormat ks = [].
Proof.
  induction ks as [|k ks IH]; simpl; [reflexivity|].
  intros H. apply andb_prop in H as [H1 H2].
  destruct (isReadableFormat k); [discriminate H1|]. apply IH, H2.
Qed.

Lemma resolve_unreadable (book : Book) :
  noReadableKey book = true -> resolveContentUrl book = [].
Proof.
  unfold noReadableKey, resolveContentUrl. intros H.
  set (fs := default [] (formats book)) in *.
  rewrite !(prop_absent fs), (filter_unreadable _ H); simpl; try reflexivity;
    apply unreadable_keys_exclude; try exact H; vm_compute; reflexivity.
Qed.

(** C1, refuted: opening a book whose format map is empty fetches nothing
    and records no error; the reader ends loaded, showing one page of the
    demonstration text. *)
Lemma empty_formats_open_is_not_an_error :
  noReadableKey emptyFormatsBook = true
  /\ snd (openBook offline emptyFormatsBook initialState) = []
  /\ error (fst (openBook offline emptyFormatsBook initialState)) = None
  /\ ~ (exists message : jsstring,
          error (fst (openBook offline emptyFormatsBook initialState))
          = Some message)
  /\ loading (fst (openBook offline emptyFormatsBook initialState)) = false
  /\ totalPages (fst (openBook offline emptyFormatsBook initialState)) = 1%Z
  /\ content (fst (openBook offline emptyFormatsBook initialState))
     = normalizeMarkup (generateDemoContent emptyFormatsBook).
Proof.
  assert (E : error (fst (openBook offline emptyFormatsBook initialState)) = None)
    by (vm_compute; reflexivity).
  split; [reflexivity|]. split; [vm_compute; reflexivity|].
  split; [exact E|]. split; [rewrite E; intros [m H]; discriminate H|].
  repeat split; vm_compute; reflexivity.
Qed.

(** C1, amended: when no format key contains [text] or [html], format
    resolution finds no URL and the open attempt makes no network call;
    the failure is caught inside [loadBookContent], which processes the
    demonstration text as markup, so the reader ends loaded with no
    error recorded. *)
Theorem no_readable_format_falls_back
    (net : network) (book : Book) (st : ReaderState) :
  noReadableKey book = true ->
  resolveContentUrl book = []
  /\ snd (loadBookContent net book st) = []
  /\ fst (loadBookContent net book st)
     = processBookContent (Some (generateDemoContent book)) (js "demo")
         (setError None (setLoading true st))
  /\ content (fst (loadBookContent net book st))
     = normalizeMarkup (generateDemoContent book)
  /\ error (fst (loadBookContent net book st)) = None
  /\ loading (fst (loadBookContent net book st)) = false.
Proof.
  intros H. pose proof (resolve_unreadable book H) as R.
  assert (L : loadBookContent net book st
              = (processBookContent (Some (generateDemoContent book)) (js "demo")
                   (setError None (setLoading true st)), [])).
  { unfold loadBookContent, retrieve. rewrite R. reflexivity. }
  rewrite L. cbn [fst snd].
  split; [exact R|]. split; [reflexivity|]. split; [reflexivity|].
  split; [|split; reflexivity].
  unfold processBookContent.
  cbn [content setContent setLoading setTotalPages].
  apply normalize_demo.
Qed.

(** The theorem on a book with an empty format map. *)
Lemma no_readable_format_falls_back_witness :
  noReadableKey emptyFormatsBook = true
  /\ snd (loadBookContent offline emptyFormatsBook initialState) = []
  /\ error (fst (loadBookContent offline emptyFormatsBook initialState)) = None.
Proof.
  assert (H : noReadableKey emptyFormatsBook = true) by reflexivity.
  split; [exact H|].
  destruct (no_readable_format_falls_back offline emptyFormatsBook initialState H)
    as (_ & Hu & _ & _ & He & _).
  split; [exact Hu | exact He].
Defined.

Lemma relays_are_read_raw :
  Forall (fun proxy => forall response,
            proxyText proxy response = Some <$> body response) corsProxies.
Proof.
  repeat constructor; intros response; unfold proxyText;
    repeat match goal with
           | |- context [includes ?a ?b] =>
               let v := eval vm_compute in (includes a b) in
               change (includes a b) with v
           end; reflexivity.
Qed.

(** C5, refuted: with a failing direct retrieval and a first relay that
    answers with the envelope, the text handed on is the envelope itself,
    not its [contents]. *)
Lemma first_relay_envelope_is_not_unwrapped :
  directAttempt envelopeNetwork (resolveContentUrl plainTextBook) = Failed
  /\ fst (fst (retrieve envelopeNetwork plainTextBook)) = Some envelope
  /\ fst (fst (retrieve envelopeNetwork plainTextBook)) <> Some (js "text")
  /\ content (fst (loadBookContent envelopeNetwork plainTextBook initialState))
     = envelope.
Proof.
  repeat split; try (vm_compute; reflexivity).
  vm_compute. discriminate.
Qed.

(** C5, amended: when the direct retrieval fails and the first relay
    answers with a success status, the text handed on is that response's
    body as it is (every relay of the list is read as raw text: the
    envelope branch is for a relay whose URL contains [allorigins], and
    the list has none); it is normalised as markup or as plain text
    according to the content URL. *)
Theorem first_relay_body_is_used_raw
    (net : network) (book : Book) (enc payload : jsstring) (response : Response) :
  truthy (resolveContentUrl book) = true ->
  directAttempt net (resolveContentUrl book) = Failed ->
  encodeURIComponent (resolveContentUrl book) = Some enc ->
  net 1%nat (js "https://cors-anywhere.herokuapp.com/" ++ enc) = Some response ->
  ok response = true ->
  body response = Some payload ->
  retrieve net book
  = (Some payload, resolveContentUrl book,
     [resolveContentUrl book; js "https://cors-anywhere.herokuapp.com/" ++ enc])
  /\ (forall st : ReaderState,
        content (fst (loadBookContent net book st))
        = normalize payload (resolveContentUrl book))
  /\ Forall (fun proxy => forall r, proxyText proxy r = Some <$> body r) corsProxies.
Proof.
  intros Hurl Hdirect Henc Hnet Hok Hbody.
  assert (R : retrieve net book
              = (Some payload, resolveContentUrl book,
                 [resolveContentUrl book;
                  js "https://cors-anywhere.herokuapp.com/" ++ enc])).
  { unfold retrieve. rewrite Hurl, Hdirect. simpl negb. cbv iota.
    unfold corsProxies. cbn [tryProxies]. rewrite Henc.
    change (js "https://cors-anywhere.herokuapp.com/" ++ enc)
      with (js "https://cors-anywhere.herokuapp.com/" ++ enc) in Hnet.
    rewrite Hnet, Hok.
    pose proof relays_are_read_raw as F. unfold corsProxies in F.
    inversion F as [|? ? Hp _]; subst. rewrite Hp, Hbody. reflexivity. }
  split; [exact R|]. split; [|exact relays_are_read_raw].
  intros st. unfold loadBookContent. rewrite R. reflexivity.
Qed.

(** The theorem on the network of the scenario. *)
Lemma first_relay_body_is_used_raw_witness :
  fst (fst (retrieve envelopeNetwork plainTextBook)) = Some envelope.
Proof.
  destruct (first_relay_body_is_used_raw envelopeNetwork plainTextBook
              (js "https%3A%2F%2Fwww.gutenberg.org%2Ffiles%2F84%2F84-0.txt")
              envelope
              (mkResponse true (Some envelope) (Some (Some (js "text")))))
    as (R & _).
  - reflexivity.
  - reflexivity.
  - vm_compute. reflexivity.
  - reflexivity.
  - reflexivity.
  - reflexivity.
  - rewrite R. reflexivity.
Defined.

(** *** Every open attempt ends with a book to read *)

Lemma tryProxies_text (net : network) (contentUrl : jsstring) (proxies : list jsstring) :
  Forall (fun proxy => forall r, proxyText proxy r = Some <$> body r) proxies ->
  forall n : nat,
    fst (tryProxies net contentUrl proxies n) = Failed
    \/ exists text, fst (tryProxies net contentUrl proxies n) = Got (Some text).
Proof.
  induction 1 as [|proxy rest Hp _ IH]; intros n; cbn [tryProxies]; [left; reflexivity|].
  destruct (encodeURIComponent contentUrl) as [enc|]; [|apply IH].
  destruct (net n (proxy ++ enc)) as [response|]; [|apply IH].
  destruct (ok response); [|apply IH].
  rewrite Hp. destruct (body response) as [text|]; [|apply IH].
  right. exists text. reflexivity.
Qed.

Lemma tryProxies_urls (net : network) (contentUrl : jsstring) (proxies : list jsstring) :
  forall n : nat,
    snd (tryProxies net contentUrl proxies n)
    `prefix_of` match encodeURIComponent contentUrl with
                | Some enc => map (fun proxy => proxy ++ enc) proxies
                | None => []
                end.
Proof.
  induction proxies as [|proxy rest IH]; intros n; cbn [tryProxies].
  - destruct (encodeURIComponent contentUrl); apply prefix_nil.
  - specialize (IH (S n)). destruct (encodeURIComponent contentUrl) as [enc|] eqn:E.
    + cbn [map].
      destruct (net n (proxy ++ enc)) as [response|];
        [destruct (ok response); [destruct (proxyText proxy response)|]|];
        cbn [snd fst]; try (apply prefix_cons, IH).
      apply prefix_cons, prefix_nil.
    + clear IH. induction rest as [|p r IHr]; cbn [tryProxies]; rewrite ?E; [apply prefix_nil|].
      exact IHr.
Qed.

Lemma retrieve_text (net : network) (book : Book) :
  exists text source urls, retrieve net book = (Some text, source, urls).
Proof.
  unfold retrieve. destruct (negb (truthy (resolveContentUrl book))); [eauto|].
  unfold directAttempt.
  assert (H : exists text source urls,
             match tryProxies net (resolveContentUrl book) corsProxies 1 with
             | (Got text, urls) =>
                 (text, resolveContentUrl book, resolveContentUrl book :: urls)
             | (Failed, urls) =>
                 (Some (generateDemoContent book), js "demo", resolveContentUrl book :: urls)
             end = (Some text, source, urls)).
  { pose proof (tryProxies_text net (resolveContentUrl book) corsProxies
                  relays_are_read_raw 1) as H.
    destruct (tryProxies net (resolveContentUrl book) corsProxies 1) as [a urls].
    cbn [fst] in H. destruct H as [->|[text ->]]; eauto. }
  destruct (net 0%nat (resolveContentUrl book)) as [response|]; [|exact H].
  destruct (ok response); [|exact H].
  destruct (body response) as [text|]; [|exact H]. eauto.
Qed.

(** X1: whatever the network answers and whatever formats the book has,
    opening it ends with the loading flag down and no error recorded,
    on page 0 and without bookmark; the page count is that of the
    content, the index is in range, the settings are as they were. *)
Theorem openBook_always_ends_ready (net : network) (book : Book) (st : ReaderState) :
  let st' := fst (openBook net book st) in
  error st' = None
  /\ loading st' = false
  /\ currentPage st' = 0%Z
  /\ isBookmarked st' = false
  /\ totalPages st' = Z.of_nat (length (loadPages (content st')))
  /\ pageInRange st'
  /\ settings st' = settings st
  /\ showSettings st' = showSettings st.
Proof.
  unfold openBook, loadBookContent.
  destruct (retrieve_text net book) as (text & source & urls & ->).
  cbn. unfold pageInRange. cbn. repeat split; try reflexivity; lia.
Qed.

(** X2: the requests of an open attempt are an initial part of this
    list: the content URL, then each relay of the list followed by the
    encoded content URL, in the list's order.  So there are at most
    six, none without a content URL, and one when the direct retrieval
    succeeds. *)
Theorem requests_follow_the_relay_list (net : network) (book : Book) (st : ReaderState) :
  let contentUrl := resolveContentUrl book in
  let requests := snd (loadBookContent net book st) in
  requests `prefix_of`
    (if truthy contentUrl
     then contentUrl ::
          match encodeURIComponent contentUrl with
          | Some enc => map (fun proxy => proxy ++ enc) corsProxies
          | None => []
          end
     else [])
  /\ (length requests <= 6)%nat
  /\ (forall text, directAttempt net contentUrl = Got text ->
        truthy contentUrl = true -> requests = [contentUrl]).
Proof.
  intros contentUrl requests.
  assert (P : requests `prefix_of`
    (if truthy contentUrl
     then contentUrl ::
          match encodeURIComponent contentUrl with
          | Some enc => map (fun proxy => proxy ++ enc) corsProxies
          | None => []
          end
     else [])).
  { subst requests. unfold loadBookContent, retrieve. fold contentUrl.
    destruct (truthy contentUrl); cbn [negb]; [|reflexivity].
    destruct (directAttempt net contentUrl).
    - cbn [snd]. apply prefix_cons, prefix_nil.
    - pose proof (tryProxies_urls net contentUrl corsProxies 1) as H.
      destruct (tryProxies net contentUrl corsProxies 1) as [[text|] urls];
        cbn [snd] in *; apply prefix_cons, H. }
  split; [exact P|]. split.
  - apply prefix_length in P. etransitivity; [exact P|].
    destruct (truthy contentUrl); [|simpl; lia].
    destruct (encodeURIComponent contentUrl); simpl; lia.
  - intros text Hd Ht. subst requests. unfold loadBookContent, retrieve.
    fold contentUrl. rewrite Ht, Hd. reflexivity.
Qed.

Lemma prop_truthy (o : list (jsstring * jsstring)) (key : jsstring) :
  truthy (default [] (prop o key)) = true ->
  prop o key = Some (default [] (prop o key)).
Proof. destruct (prop o key); [reflexivity|discriminate]. Qed.

(** X3: a content URL that is found is the value of one of the book's
    formats whose key contains [text] or [html]. *)
Theorem resolveContentUrl_is_a_readable_entry (book : Book) :
  truthy (resolveContentUrl book) = true ->
  exists key : jsstring,
    isReadableFormat key = true
    /\ prop (default [] (formats book)) key = Some (resolveContentUrl book).
Proof.
  unfold resolveContentUrl. set (fs := default [] (formats book)).
  destruct (truthyO (prop fs (js "text/html"))) eqn:E1.
  { intros H. exists (js "text/html"). split; [reflexivity|apply prop_truthy, H]. }
  destruct (truthyO (prop fs (js "text/plain; charset=utf-8"))) eqn:E2.
  { intros H. exists (js "text/plain; charset=utf-8").
    split; [reflexivity|apply prop_truthy, H]. }
  destruct (truthyO (prop fs (js "text/plain"))) eqn:E3.
  { intros H. exists (js "text/plain"). split; [reflexivity|apply prop_truthy, H]. }
  destruct (List.filter isReadableFormat (keys fs)) as [|first rest] eqn:F;
    [discriminate|].
  intros H. exists first. split; [|apply prop_truthy, H].
  assert (Hin : In first (List.filter isReadableFormat (keys fs)))
    by (rewrite F; left; reflexivity).
  apply List.filter_In in Hin. apply Hin.
Qed.

(** The theorem on a book with one plain-text format. *)
Lemma resolveContentUrl_is_a_readable_entry_witness :
  exists key : jsstring,
    isReadableFormat key = true
    /\ prop (default [] (formats plainTextBook)) key
       = Some (js "https://www.gutenberg.org/files/84/84-0.txt").
Proof.
  apply (resolveContentUrl_is_a_readable_entry plainTextBook). reflexivity.
Defined.

(** *** The content URL inside a relay's URL *)

Lemma separator_cases (c : N) :
  isUrlSeparator c = true ->
  c = 47 \/ c = 63 \/ c = 38 \/ c = 35 \/ c = 58 \/ c = 61 \/ c = 32.
Proof. unfold isUrlSeparator, code. cbn. intros H. bools; lia. Qed.

Lemma hexDigit_no_separator (d c : N) : isUrlSeparator c = true -> hexDigit d <> c.
Proof.
  intros H. apply separator_cases in H. unfold hexDigit.
  destruct (N.ltb_spec d 10); lia.
Qed.

Lemma pct_no_separator (b c : N) :
  isUrlSeparator c = true -> Forall (fun x => x <> c) (pct b).
Proof.
  intros H. unfold pct. repeat constructor; try (apply hexDigit_no_separator, H).
  apply separator_cases in H. unfold code. cbn. lia.
Qed.

Lemma unreserved_no_separator (x c : N) :
  isUrlSeparator c = true -> isUnreserved x = true -> x <> c.
Proof.
  intros H Hx. apply separator_cases in H.
  unfold isUnreserved, isUpper, isLower, isDigit, code in Hx. cbn in Hx.
  bools; lia.
Qed.

Lemma encodeURIComponent_no_separator (c : N) (Hc : isUrlSeparator c = true) :
  forall (n : nat) (s enc : jsstring),
    (length s < n)%nat ->
    encodeURIComponent s = Some enc -> Forall (fun x => x <> c) enc.
Proof.
  induction n as [|n IH]; intros s enc Hn; [lia|].
  destruct s as [|x s]; cbn [encodeURIComponent].
  - intros [= <-]. constructor.
  - assert (Hs : forall (t : jsstring) (pre out : jsstring),
               (length t <= length s)%nat ->
               Forall (fun x => x <> c) pre ->
               app pre <$> encodeURIComponent t = Some out ->
               Forall (fun x => x <> c) out).
    { intros t pre out Ht Hpre E.
      destruct (encodeURIComponent t) as [e|] eqn:Et; [|discriminate].
      injection E as <-. apply Forall_app. split; [exact Hpre|].
      apply (IH t e); [simpl in Hn; lia|exact Et]. }
    destruct (isUnreserved x) eqn:U.
    { intros E. destruct (encodeURIComponent s) as [e|] eqn:Es; [|discriminate].
      injection E as <-. constructor; [apply (unreserved_no_separator _ _ Hc U)|].
      apply (IH s e); [simpl in Hn; lia|exact Es]. }
    destruct (x <? 0x80).
    { apply Hs; [lia|apply pct_no_separator, Hc]. }
    destruct (x <? 0x800).
    { apply Hs; [lia|]. apply Forall_app; split; apply pct_no_separator, Hc. }
    destruct ((0xD800 <=? x) && (x <=? 0xDBFF)).
    { destruct s as [|y s']; [discriminate|].
      destruct ((0xDC00 <=? y) && (y <=? 0xDFFF)); [|discriminate].
      apply Hs; [simpl; lia|].
      repeat (apply Forall_app; split); apply pct_no_separator, Hc. }
    destruct ((0xDC00 <=? x) && (x <=? 0xDFFF)); [discriminate|].
    apply Hs; [lia|].
    repeat (apply Forall_app; split); apply pct_no_separator, Hc.
Qed.

Lemma encodeURIComponent_ascii (s : jsstring) :
  Forall (fun x => x < 0x80) s -> is_Some (encodeURIComponent s).
Proof.
  induction 1 as [|x s Hx _ IH]; [eexists; reflexivity|].
  cbn [encodeURIComponent]. destruct IH as [e ->].
  destruct (isUnreserved x); [eexists; reflexivity|].
  replace (x <? 0x80) with true by (symmetry; apply N.ltb_lt; exact Hx).
  eexists; reflexivity.
Qed.

(** X4: the content URL reaches a relay as one opaque component: what
    [encodeURIComponent] returns holds none of [/ ? & # : =] nor a
    space; and it returns for every URL of ASCII characters, so such a
    URL is always asked of the first relay when the direct retrieval
    has failed. *)
Theorem relay_urls_embed_the_content_url_opaquely :
  (forall s enc c : _,
     encodeURIComponent s = Some enc ->
     isUrlSeparator c = true -> Forall (fun x => x <> c) enc)
  /\ (forall s : jsstring,
        Forall (fun x => x < 0x80) s -> is_Some (encodeURIComponent s))
  /\ (forall (net : network) (book : Book) (st : ReaderState),
        let contentUrl := resolveContentUrl book in
        truthy contentUrl = true ->
        Forall (fun x => x < 0x80) contentUrl ->
        directAttempt net contentUrl = Failed ->
        exists enc more,
          encodeURIComponent contentUrl = Some enc
          /\ snd (loadBookContent net book st)
             = contentUrl :: (js "https://cors-anywhere.herokuapp.com/" ++ enc) :: more).
Proof.
  split; [|split].
  - intros s enc c E Hc.
    apply (encodeURIComponent_no_separator c Hc (S (length s)) s enc); [lia|exact E].
  - exact encodeURIComponent_ascii.
  - intros net book st contentUrl Ht Ha Hd.
    destruct (encodeURIComponent_ascii contentUrl Ha) as [enc E].
    exists enc.
    assert (R : snd (loadBookContent net book st)
                = contentUrl :: snd (tryProxies net contentUrl corsProxies 1)).
    { unfold loadBookContent, retrieve. fold contentUrl. rewrite Ht, Hd. cbn [negb].
      destruct (tryProxies net contentUrl corsProxies 1) as [[text|] urls];
        reflexivity. }
    rewrite R. unfold corsProxies. cbn [tryProxies]. rewrite E.
    destruct (net 1%nat (js "https://cors-anywhere.herokuapp.com/" ++ enc))
      as [response|]; [destruct (ok response);
                       [destruct (proxyText _ response)|]|];
      cbn [fst snd]; eexists; split; reflexivity.
Qed.

(** The theorem on a book with one plain-text format, off line. *)
Lemma relay_urls_embed_the_content_url_opaquely_witness :
  exists enc more,
    encodeURIComponent (resolveContentUrl plainTextBook) = Some enc
    /\ snd (loadBookContent offline plainTextBook initialState)
       = resolveContentUrl plainTextBook
         :: (js "https://cors-anywhere.herokuapp.com/" ++ enc) :: more.
Proof.
  destruct relay_urls_embed_the_content_url_opaquely as (_ & _ & H).
  apply (H offline plainTextBook initialState).
  - reflexivity.
  - vm_compute. repeat constructor.
  - reflexivity.
Defined.

(** ** Search *)

Lemma dedupFilter_fresh (seen : gset jsstring) (bs : list Book) (b : Book) :
  b ∈ dedupFilter seen bs -> dedupKey b ∉ seen.
Proof.
  revert seen; induction bs as [|x bs IH]; intros seen; simpl.
  - intros H. inversion H.
  - destruct (decide (dedupKey x ∈ seen)) as [Hin|Hnot].
    + apply IH.
    + intros H. apply elem_of_cons in H as [->|H]; [exact Hnot|].
      apply IH in H. set_solver.
Qed.

Lemma dedupFilter_NoDup (seen : gset jsstring) (bs : list Book) :
  NoDup (dedupKey <$> dedupFilter seen bs).
Proof.
  revert seen; induction bs as [|x bs IH]; intros seen; simpl.
  - constructor.
  - destruct (decide (dedupKey x ∈ seen)) as [Hin|Hnot]; [apply IH|].
    simpl. constructor; [|apply IH].
    intros H. apply list_elem_of_fmap in H as (b & Hk & Hb).
    apply dedupFilter_fresh in Hb. set_solver.
Qed.

Lemma dedupFilter_sublist (seen : gset jsstring) (bs : list Book) :
  sublist (dedupFilter seen bs) bs.
Proof.
  revert seen; induction bs as [|x bs IH]; intros seen; simpl.
  - constructor.
  - destruct (decide (dedupKey x ∈ seen)).
    + apply sublist_cons, IH.
    + apply sublist_skip, IH.
Qed.






(** *** Deduplication as an operation on lists *)

Lemma union_absorb (k : jsstring) (A B : gset jsstring) :
  k ∈ A -> A ∪ ({[k]} ∪ B) = A ∪ B.
Proof.
  intros H. apply set_eq. intros x.
  rewrite !elem_of_union, elem_of_singleton. split; [|tauto].
  intros [?|[->|?]]; tauto.
Qed.

Lemma union_swap (k : jsstring) (A B : gset jsstring) :
  A ∪ ({[k]} ∪ B) = {[k]} ∪ (A ∪ B).
Proof.
  apply set_eq. intros x. rewrite !elem_of_union. tauto.
Qed.

Lemma dedupFilter_filter (bs : list Book) : forall seen extra : gset jsstring,
  dedupFilter (extra ∪ seen) bs
  = filter (fun b => dedupKey b ∉ extra) (dedupFilter seen bs).
Proof.
  induction bs as [|b bs IH]; intros seen extra; [reflexivity|].
  cbn [dedupFilter].
  destruct (decide (dedupKey b ∈ seen)) as [Hs|Hs].
  - rewrite decide_True by (apply elem_of_union; right; exact Hs). apply IH.
  - destruct (decide (dedupKey b ∈ extra)) as [He|He].
    + rewrite decide_True by (apply elem_of_union; left; exact He).
      rewrite filter_cons_False by (intros H; apply H, He).
      rewrite <- IH, union_absorb by exact He. reflexivity.
    + rewrite decide_False by (rewrite elem_of_union; tauto).
      rewrite filter_cons_True by exact He.
      rewrite <- IH, union_swap. reflexivity.
Qed.

Lemma dedupFilter_app (g o : list Book) : forall seen : gset jsstring,
  dedupFilter seen (g ++ o)
  = dedupFilter seen g
    ++ dedupFilter (list_to_set (dedupKey <$> g) ∪ seen) o.
Proof.
  induction g as [|b g IH]; intros seen; cbn [app dedupFilter fmap list_fmap list_to_set].
  - rewrite (left_id_L ∅ (∪)). reflexivity.
  - destruct (decide (dedupKey b ∈ seen)) as [Hs|Hs].
    + rewrite IH. f_equal. f_equal. apply set_eq. intros x.
      rewrite !elem_of_union, elem_of_singleton. split; [tauto|].
      intros [[->|?]|?]; tauto.
    + cbn [app]. f_equal. rewrite IH. f_equal. f_equal. apply set_eq. intros x.
      rewrite !elem_of_union. tauto.
Qed.

Lemma dedupFilter_distinct (bs : list Book) : forall seen : gset jsstring,
  NoDup (dedupKey <$> bs) ->
  (forall b, b ∈ bs -> dedupKey b ∉ seen) ->
  dedupFilter seen bs = bs.
Proof.
  induction bs as [|b bs IH]; intros seen Hnd Hfresh; [reflexivity|].
  cbn [dedupFilter]. cbn [fmap list_fmap] in Hnd.
  apply NoDup_cons in Hnd as [Hb Hnd].
  rewrite decide_False by (apply Hfresh; left).
  f_equal. apply IH; [exact Hnd|].
  intros b' Hb' Hin. apply elem_of_union in Hin as [Hin|Hin].
  - apply elem_of_singleton in Hin. apply Hb. rewrite <- Hin.
    apply list_elem_of_fmap. exists b'. split; [reflexivity|exact Hb'].
  - apply (Hfresh b'); [right; exact Hb'|exact Hin].
Qed.

(** X16: deduplicating twice changes nothing more, and a list is left
    as it is exactly when its keys are distinct. *)
Theorem deduplicateBooks_is_idempotent (bs : list Book) :
  deduplicateBooks (deduplicateBooks bs) = deduplicateBooks bs
  /\ (deduplicateBooks bs = bs <-> NoDup (dedupKey <$> bs)).
Proof.
  assert (H : forall l, NoDup (dedupKey <$> l) -> deduplicateBooks l = l).
  { intros l Hl. apply dedupFilter_distinct; [exact Hl|].
    intros b _. apply not_elem_of_empty. }
  split; [apply H, dedupFilter_NoDup|]. split; [|apply H].
  intros E. rewrite <- E. apply dedupFilter_NoDup.
Qed.

(** X17: in a merged list the records of the first list win: the
    result is the first list deduplicated, followed by the records of
    the deduplicated second list whose key the first list does not
    have. *)
Theorem merged_list_prefers_the_first_source (g o : list Book) :
  deduplicateBooks (g ++ o)
  = deduplicateBooks g
    ++ filter (fun b => dedupKey b ∉ (dedupKey <$> g)) (deduplicateBooks o).
Proof.
  unfold deduplicateBooks. rewrite dedupFilter_app, dedupFilter_filter. f_equal.
  apply list_filter_iff. intros b. rewrite elem_of_list_to_set. reflexivity.
Qed.

Lemma toLowerCase_app (a b : jsstring) :
  toLowerCase (a ++ b) = toLowerCase a ++ toLowerCase b.
Proof. apply map_app. Qed.

(** X18: records that are not the same book can share a key, and then
    the second is dropped: the key joins the title and the first author
    with a hyphen, so a hyphen can be read on either side; and it
    prints a missing first author as [undefined], which can be an
    author's name. *)
Theorem different_books_can_share_a_key (first second : Book) :
  (exists t u a : jsstring,
     title first = t ++ js "-" ++ u /\ head (authors first) = Some a
     /\ title second = t /\ head (authors second) = Some (u ++ js "-" ++ a))
  \/ (title second = title first /\ authors first = []
      /\ head (authors second) = Some (js "Undefined")) ->
  dedupKey first = dedupKey second
  /\ deduplicateBooks [first; second] = [first].
Proof.
  intros H.
  assert (E : dedupKey first = dedupKey second).
  { unfold dedupKey. destruct H as [(t & u & a & H1 & H2 & H3 & H4)|(H1 & H2 & H3)].
    - rewrite H1, H2, H3, H4, !toLowerCase_app, <- !app_assoc. reflexivity.
    - rewrite H1, H2, H3. reflexivity. }
  split; [exact E|].
  unfold deduplicateBooks. cbn [dedupFilter].
  rewrite decide_False by apply not_elem_of_empty. rewrite <- E.
  rewrite decide_True by (apply elem_of_union; left; apply elem_of_singleton; reflexivity).
  reflexivity.
Qed.

(** The theorem on two titles that divide [Jean-Christophe-Rolland]
    differently. *)
Lemma different_books_can_share_a_key_witness :
  deduplicateBooks
    [mkBook (js "gutenberg-1") (js "Jean-Christophe") [js "Rolland"]
       None None None None None None None;
     mkBook (js "openlibrary-2") (js "Jean") [js "Christophe-Rolland"]
       None None None None None None None]
  = [mkBook (js "gutenberg-1") (js "Jean-Christophe") [js "Rolland"]
       None None None None None None None].
Proof.
  apply different_books_can_share_a_key. left.
  exists (js "Jean"), (js "Christophe"), (js "Rolland").
  repeat split; reflexivity.
Defined.

(** ** Reading progress *)

Ltac div10 n :=
  let q := fresh "q" in
  let r := fresh "r" in
  pose proof (N.div_mod n 10 ltac:(discriminate));
  pose proof (N.mod_lt n 10 ltac:(discriminate));
  set (q := n / 10) in *; set (r := n mod 10) in *; clearbody q r.

Lemma digitsGo_value (fuel : nat) : forall n acc,
  n < 2 ^ N.of_nat (S fuel) ->
  fold_left horner (digitsGo fuel n acc) 0 = fold_left horner acc n.
Proof.
  induction fuel as [|f IH]; intros n acc Hn.
  - change (2 ^ N.of_nat 1) with 2 in Hn.
    cbn [digitsGo fold_left]. div10 n. f_equal. unfold horner. lia.
  - cbn [digitsGo]. div10 n. destruct (N.eqb_spec q 0) as [E|E].
    + cbn [fold_left]. f_equal. unfold horner. lia.
    + rewrite IH.
      * cbn [fold_left]. f_equal. unfold horner. lia.
      * rewrite Nat2N.inj_succ, N.pow_succ_r' in Hn. lia.
Qed.

Lemma digitsOfN_value (n : N) : digitsValue (digitsOfN n) = n.
Proof.
  unfold digitsValue, digitsOfN.
  change (fold_left _ ?l 0) with (fold_left horner l 0).
  rewrite digitsGo_value; [reflexivity|].
  rewrite Nat2N.inj_succ, N2Nat.id.
  destruct n as [|p]; [reflexivity|].
  apply N.log2_spec. reflexivity.
Qed.

Lemma isDigit_mod10 (n : N) : isDigit (48 + n mod 10) = true.
Proof.
  div10 n. unfold isDigit.
  apply andb_true_intro; split; apply N.leb_le; lia.
Qed.

Lemma digitsGo_digits (fuel : nat) : forall n acc,
  Forall (fun d => isDigit d = true) acc ->
  Forall (fun d => isDigit d = true) (digitsGo fuel n acc).
Proof.
  induction fuel as [|f IH]; intros n acc Hacc; cbn [digitsGo].
  - constructor; [apply isDigit_mod10|exact Hacc].
  - destruct (n / 10 =? 0).
    + constructor; [apply isDigit_mod10|exact Hacc].
    + apply IH. constructor; [apply isDigit_mod10|exact Hacc].
Qed.

(** The first digit is not a zero unless the number is 0, printed as one
    digit. *)
Lemma digitsGo_head (fuel : nat) : forall n acc,
  n < 2 ^ N.of_nat (S fuel) -> n <> 0 ->
  exists d rest, digitsGo fuel n acc = d :: rest /\ d <> 48.
Proof.
  induction fuel as [|f IH]; intros n acc Hn Hz; cbn [digitsGo].
  - change (2 ^ N.of_nat 1) with 2 in Hn. div10 n.
    eexists _, _. split; [reflexivity|]. lia.
  - div10 n. destruct (N.eqb_spec q 0) as [E|E].
    + eexists _, _. split; [reflexivity|]. lia.
    + apply IH; [|exact E].
      rewrite Nat2N.inj_succ, N.pow_succ_r' in Hn. lia.
Qed.

Lemma digitsOfN_head (n : N) :
  exists d rest, digitsOfN n = d :: rest /\ (d =? 48) && truthy rest = false.
Proof.
  destruct n as [|p].
  - exists 48, []. split; reflexivity.
  - destruct (digitsGo_head (N.to_nat (N.log2 (N.pos p))) (N.pos p) [])
      as (d & rest & E & Hd).
    + rewrite Nat2N.inj_succ, N2Nat.id. apply N.log2_spec. reflexivity.
    + discriminate.
    + exists d, rest. split; [exact E|].
      apply N.eqb_neq in Hd. rewrite Hd. reflexivity.
Qed.

Lemma digitsOfN_digits (n : N) : Forall (fun d => isDigit d = true) (digitsOfN n).
Proof. apply digitsGo_digits. constructor. Qed.

Lemma spanDigits_app (ds : jsstring) (x : N) (rest : jsstring) :
  Forall (fun d => isDigit d = true) ds -> isDigit x = false ->
  spanDigits (ds ++ x :: rest) = (ds, x :: rest).
Proof.
  intros Hds Hx. induction Hds as [|d ds Hd _ IH]; simpl.
  - rewrite Hx. reflexivity.
  - rewrite Hd, IH. reflexivity.
Qed.

Lemma parseNumber_digitsOfN (n : N) (x : N) (rest : jsstring) :
  endsNumber x = true ->
  parseNumber (digitsOfN n ++ x :: rest) = Some (Z.of_N n, x :: rest).
Proof.
  intros Hx. apply andb_prop in Hx as [Hx1 Hx2].
  apply negb_true_iff in Hx1, Hx2.
  destruct (digitsOfN_head n) as (d & more & E & Hz).
  pose proof (digitsOfN_digits n) as Hd.
  pose proof (digitsOfN_value n) as Hv.
  unfold parseNumber. rewrite E in *. cbn [app].
  assert (Hneg : (d =? code "-") = false).
  { inversion Hd as [|? ? H1 _]; subst. apply N.eqb_neq. intros ->. discriminate H1. }
  rewrite Hneg.
  change (d :: more ++ x :: rest) with ((d :: more) ++ x :: rest).
  rewrite (spanDigits_app _ _ _ Hd Hx1). cbn [fst snd].
  rewrite Hz, Hx2, Hv. reflexivity.
Qed.

Lemma parseNumber_numberToString (z : Z) (x : N) (rest : jsstring) :
  endsNumber x = true ->
  parseNumber (numberToString z ++ x :: rest) = Some (z, x :: rest).
Proof.
  intros Hx. unfold numberToString.
  destruct (Z.ltb_spec z 0) as [Hneg|Hpos].
  - pose proof (parseNumber_digitsOfN (Z.to_N (- z)) x rest Hx) as P.
    apply andb_prop in Hx as [Hx1 Hx2]. apply negb_true_iff in Hx1, Hx2.
    destruct (digitsOfN_head (Z.to_N (- z))) as (d & more & E & Hz).
    pose proof (digitsOfN_digits (Z.to_N (- z))) as Hd.
    pose proof (digitsOfN_value (Z.to_N (- z))) as Hv.
    unfold parseNumber. cbn [app]. rewrite N.eqb_refl. cbn [tail].
    rewrite (spanDigits_app _ _ _ Hd Hx1). rewrite E in *. cbn [fst snd].
    rewrite Hz, Hx2, Hv. rewrite Z2N.id by lia.
    replace (- - z)%Z with z by lia. reflexivity.
  - rewrite parseNumber_digitsOfN by exact Hx. rewrite Z2N.id by lia. reflexivity.
Qed.

Lemma hexVal_hexLower (d : N) : d < 16 -> hexVal (hexLower d) = Some d.
Proof.
  intros H. 
  assert (C : d = 0 \/ d = 1 \/ d = 2 \/ d = 3 \/ d = 4 \/ d = 5 \/ d = 6 \/ d = 7
              \/ d = 8 \/ d = 9 \/ d = 10 \/ d = 11 \/ d = 12 \/ d = 13 \/ d = 14
              \/ d = 15) by lia.
  repeat (destruct C as [->|C]; [reflexivity|]). subst d. reflexivity.
Qed.

(** The four hexadecimal digits of a code unit. *)
Lemma hex_digits (x : N) :
  x < 65536 ->
  exists a b c d,
    x / 4096 = a /\ (x / 256) mod 16 = b /\ (x / 16) mod 16 = c /\ x mod 16 = d
    /\ a < 16 /\ b < 16 /\ c < 16 /\ d < 16
    /\ a * 4096 + b * 256 + c * 16 + d = x.
Proof.
  intros Hx. eexists _, _, _, _. repeat (split; [reflexivity|]).
  replace (x / 256) with (x / 16 / 16) by (rewrite N.Div0.div_div; reflexivity).
  replace (x / 4096) with (x / 16 / 16 / 16)
    by (rewrite !N.Div0.div_div; reflexivity).
  pose proof (N.div_mod x 16 ltac:(discriminate)) as E1.
  pose proof (N.mod_lt x 16 ltac:(discriminate)) as L1.
  pose proof (N.div_mod (x / 16) 16 ltac:(discriminate)) as E2.
  pose proof (N.mod_lt (x / 16) 16 ltac:(discriminate)) as L2.
  pose proof (N.div_mod (x / 16 / 16) 16 ltac:(discriminate)) as E3.
  pose proof (N.mod_lt (x / 16 / 16) 16 ltac:(discriminate)) as L3.
  set (q1 := x / 16) in *. set (r1 := x mod 16) in *.
  set (q2 := q1 / 16) in *. set (r2 := q1 mod 16) in *.
  set (q3 := q2 / 16) in *. set (r3 := q2 mod 16) in *.
  clearbody q1 r1 q2 r2 q3 r3. 
  assert (q3 < 16) by lia.
  assert (r3 = q3 mod 16 -> True) by auto.
  repeat split; try lia.
Qed.

Lemma parseChars_uEscape (x : N) (t : jsstring) :
  x < 65536 -> parseChars (uEscape x ++ t) = consChar x (parseChars t).
Proof.
  intros Hx. destruct (hex_digits x Hx) as (a & b & c & d & Ea & Eb & Ec & Ed
                                            & La & Lb & Lc & Ld & Sum).
  unfold uEscape. rewrite Ea, Eb, Ec, Ed.
  change (js "\u" ++ [hexLower a; hexLower b; hexLower c; hexLower d])
    with (92 :: code "u" :: [hexLower a; hexLower b; hexLower c; hexLower d]).
  cbn [app parseChars].
  change (92 =? 34) with false. change (92 =? 92) with true.
  change (code "u" =? code "u") with true. cbv iota.
  rewrite !hexVal_hexLower by assumption. rewrite Sum. reflexivity.
Qed.

Lemma parseChars_raw (x : N) (t : jsstring) :
  (x =? 34) = false -> (x =? 92) = false -> (x <? 32) = false ->
  parseChars (x :: t) = consChar x (parseChars t).
Proof. intros H1 H2 H3. cbn [parseChars]. rewrite H1, H2, H3. reflexivity. Qed.

Lemma parseChars_letter (e c : N) (t : jsstring) :
  (e =? code "u") = false -> unescape e = Some c ->
  parseChars (92 :: e :: t) = consChar c (parseChars t).
Proof.
  intros H1 H2. cbn [parseChars]. change (92 =? 34) with false.
  change (92 =? 92) with true. cbv iota. rewrite H1, H2. reflexivity.
Qed.

Lemma surrogate_bounds (x : N) :
  isHighSurrogate x = true \/ isLowSurrogate x = true ->
  x < 65536 /\ (x =? 34) = false /\ (x =? 92) = false /\ (x <? 32) = false.
Proof.
  unfold isHighSurrogate, isLowSurrogate.
  intros [H|H]; apply andb_prop in H as [H1 H2]; apply N.leb_le in H1, H2;
    (split; [lia|]); repeat split;
    try (apply N.eqb_neq; lia); apply N.ltb_ge; lia.
Qed.

(** What [JSON.stringify] writes for a string, [JSON.parse] reads back. *)
Lemma parseChars_quoteChars (n : nat) : forall (s rest : jsstring),
  (length s <= n)%nat ->
  parseChars (quoteChars s ++ 34 :: rest) = Some (s, rest).
Proof.
  induction n as [|n IH]; intros s rest Hlen.
  - destruct s; [reflexivity|simpl in Hlen; lia].
  - destruct s as [|x s]; [reflexivity|].
    assert (IHs : parseChars (quoteChars s ++ 34 :: rest) = Some (s, rest))
      by (apply IH; simpl in Hlen; lia).
    cbn [quoteChars].
    destruct (x =? 8) eqn:E8.
    { apply N.eqb_eq in E8. subst x. rewrite <- app_assoc.
      change (js "\b" ++ quoteChars s ++ 34 :: rest)
        with (92 :: code "b" :: (quoteChars s ++ 34 :: rest)).
      rewrite (parseChars_letter _ 8) by reflexivity. rewrite IHs. reflexivity. }
    destruct (x =? 9) eqn:E9.
    { apply N.eqb_eq in E9. subst x. rewrite <- app_assoc.
      change (js "\t" ++ quoteChars s ++ 34 :: rest)
        with (92 :: code "t" :: (quoteChars s ++ 34 :: rest)).
      rewrite (parseChars_letter _ 9) by reflexivity. rewrite IHs. reflexivity. }
    destruct (x =? 10) eqn:E10.
    { apply N.eqb_eq in E10. subst x. rewrite <- app_assoc.
      change (js "\n" ++ quoteChars s ++ 34 :: rest)
        with (92 :: code "n" :: (quoteChars s ++ 34 :: rest)).
      rewrite (parseChars_letter _ 10) by reflexivity. rewrite IHs. reflexivity. }
    destruct (x =? 12) eqn:E12.
    { apply N.eqb_eq in E12. subst x. rewrite <- app_assoc.
      change (js "\f" ++ quoteChars s ++ 34 :: rest)
        with (92 :: code "f" :: (quoteChars s ++ 34 :: rest)).
      rewrite (parseChars_letter _ 12) by reflexivity. rewrite IHs. reflexivity. }
    destruct (x =? 13) eqn:E13.
    { apply N.eqb_eq in E13. subst x. rewrite <- app_assoc.
      change (js "\r" ++ quoteChars s ++ 34 :: rest)
        with (92 :: code "r" :: (quoteChars s ++ 34 :: rest)).
      rewrite (parseChars_letter _ 13) by reflexivity. rewrite IHs. reflexivity. }
    destruct (x =? 34) eqn:E34.
    { apply N.eqb_eq in E34. subst x. rewrite <- app_assoc.
      change ([92; 34] ++ quoteChars s ++ 34 :: rest)
        with (92 :: 34 :: (quoteChars s ++ 34 :: rest)).
      rewrite (parseChars_letter _ 34) by reflexivity. rewrite IHs. reflexivity. }
    destruct (x =? 92) eqn:E92.
    { apply N.eqb_eq in E92. subst x. rewrite <- app_assoc.
      change ([92; 92] ++ quoteChars s ++ 34 :: rest)
        with (92 :: 92 :: (quoteChars s ++ 34 :: rest)).
      rewrite (parseChars_letter _ 92) by reflexivity. rewrite IHs. reflexivity. }
    destruct (x <? 32) eqn:Elow.
    { rewrite <- app_assoc, parseChars_uEscape, IHs; [reflexivity|].
      apply N.ltb_lt in Elow. lia. }
    destruct (isHighSurrogate x) eqn:Ehigh.
    { destruct (surrogate_bounds x (or_introl Ehigh)) as (Hx & _).
      destruct s as [|y s'].
      - cbn [app]. change (uEscape x ++ [34] ++ rest) with (uEscape x ++ 34 :: rest).
        rewrite parseChars_uEscape by exact Hx. reflexivity.
      - destruct (isLowSurrogate y) eqn:Ey.
        + destruct (surrogate_bounds y (or_intror Ey)) as (_ & Y1 & Y2 & Y3).
          cbn [app]. rewrite (parseChars_raw x) by assumption.
          rewrite (parseChars_raw y) by assumption.
          rewrite (IH s' rest) by (simpl in Hlen; lia). reflexivity.
        + rewrite <- app_assoc, parseChars_uEscape, IHs by exact Hx. reflexivity. }
    destruct (isLowSurrogate x) eqn:Elo.
    { destruct (surrogate_bounds x (or_intror Elo)) as (Hx & _).
      rewrite <- app_assoc, parseChars_uEscape, IHs by exact Hx. reflexivity. }
    cbn [app]. rewrite (parseChars_raw x) by assumption. rewrite IHs. reflexivity.
Qed.

Lemma parse_quoted (s rest : jsstring) :
  parseChars (quoteChars s ++ 34 :: rest) = Some (s, rest).
Proof. apply (parseChars_quoteChars (length s)). lia. Qed.

Lemma parseNumber_head (s : jsstring) (z : Z) (rest : jsstring) :
  parseNumber s = Some (z, rest) ->
  exists x s', s = x :: s' /\ ((x =? code "-") || isDigit x = true).
Proof.
  destruct s as [|x s']; [discriminate|]. intros H. exists x, s'.
  split; [reflexivity|]. unfold parseNumber in H.
  destruct (x =? code "-") eqn:E; [reflexivity|]. cbn [orb].
  cbn [spanDigits] in H. destruct (isDigit x); [reflexivity|]. discriminate H.
Qed.

Lemma parseValue_S (f : nat) (s : jsstring) :
  parseValue (S f) s
  = match skipSpace s with
    | [] => None
    | x :: s' =>
        if x =? code "{" then
          match skipSpace s' with
          | y :: s'' =>
              if y =? code "}" then Some (JObj [], s'')
              else
                match parseMembers f (y :: s'') with
                | Some (ms, rest) => Some (JObj ms, rest)
                | None => None
                end
          | [] => None
          end
        else if x =? code "[" then
          match skipSpace s' with
          | y :: s'' =>
              if y =? code "]" then Some (JArr [], s'')
              else
                match parseItems f (y :: s'') with
                | Some (vs, rest) => Some (JArr vs, rest)
                | None => None
                end
          | [] => None
          end
        else if x =? 34 then
          match parseChars s' with
          | Some (str, rest) => Some (JStr str, rest)
          | None => None
          end
        else if startsWith (x :: s') (js "true")
        then Some (JBool true, drop 4 (x :: s'))
        else if startsWith (x :: s') (js "false")
        then Some (JBool false, drop 5 (x :: s'))
        else if startsWith (x :: s') (js "null")
        then Some (JNull, drop 4 (x :: s'))
        else
          match parseNumber (x :: s') with
          | Some (z, rest) => Some (JNum z, rest)
          | None => None
          end
    end.
Proof. reflexivity. Qed.

Lemma parseMembers_S (f : nat) (s : jsstring) :
  parseMembers (S f) s
  = match skipSpace s with
    | q :: s' =>
        if q =? 34 then
          match parseChars s' with
          | Some (k, s1) =>
              match skipSpace s1 with
              | colon :: s2 =>
                  if colon =? code ":" then
                    match parseValue f s2 with
                    | Some (v, s3) =>
                        match skipSpace s3 with
                        | c :: s4 =>
                            if c =? code "," then
                              match parseMembers f s4 with
                              | Some (ms, rest) => Some ((k, v) :: ms, rest)
                              | None => None
                              end
                            else if c =? code "}" then Some ([(k, v)], s4)
                            else None
                        | [] => None
                        end
                    | None => None
                    end
                  else None
              | [] => None
              end
          | None => None
          end
        else None
    | [] => None
    end.
Proof. reflexivity. Qed.

Lemma parseValue_number (f : nat) (s : jsstring) (z : Z) (rest : jsstring) :
  parseNumber s = Some (z, rest) ->
  parseValue (S f) s = Some (JNum z, rest).
Proof.
  intros H. destruct (parseNumber_head s z rest H) as (x & s' & -> & Hx).
  assert (Hc : isJsonSpace x = false /\ (x =? code "{") = false
               /\ (x =? code "[") = false /\ (x =? 34) = false
               /\ (x =? code "t") = false /\ (x =? code "f") = false
               /\ (x =? code "n") = false).
  { destruct (x =? code "-") eqn:E.
    - apply N.eqb_eq in E. subst x. repeat split; reflexivity.
    - cbn [orb] in Hx. unfold isDigit in Hx.
      apply andb_prop in Hx as [H1 H2]. apply N.leb_le in H1, H2.
      unfold isJsonSpace.
      repeat split; repeat (apply orb_false_intro); apply N.eqb_neq;
        vm_compute; intros ->; vm_compute in H1, H2; congruence. }
  destruct Hc as (C1 & C2 & C3 & C4 & C5 & C6 & C7).
  rewrite parseValue_S. unfold skipSpace. cbn [dropWhile]. rewrite C1, C2, C3, C4.
  unfold js. cbn [list_ascii_of_string map startsWith].
  change (N_of_ascii "t") with (code "t").
  change (N_of_ascii "f") with (code "f").
  change (N_of_ascii "n") with (code "n").
  rewrite C5, C6, C7. cbn [andb]. rewrite H. reflexivity.
Qed.

Lemma parseMembers_more (f : nat) (s' s2 s4 : jsstring) (k : jsstring) (v : json) :
  parseChars s' = Some (k, 58 :: s2) ->
  parseValue f s2 = Some (v, 44 :: s4) ->
  parseMembers (S f) (34 :: s')
  = match parseMembers f s4 with
    | Some (ms, rest) => Some ((k, v) :: ms, rest)
    | None => None
    end.
Proof.
  intros Hk Hv. rewrite parseMembers_S. unfold skipSpace at 1. cbn [dropWhile].
  change (isJsonSpace 34) with false. cbv iota. rewrite N.eqb_refl, Hk.
  unfold skipSpace at 1. cbn [dropWhile]. change (isJsonSpace 58) with false.
  cbv iota. change (58 =? code ":") with true. cbv iota. rewrite Hv.
  unfold skipSpace at 1. cbn [dropWhile]. change (isJsonSpace 44) with false.
  cbv iota. change (44 =? code ",") with true. cbv iota. reflexivity.
Qed.

Lemma parseMembers_last (f : nat) (s' s2 s4 : jsstring) (k : jsstring) (v : json) :
  parseChars s' = Some (k, 58 :: s2) ->
  parseValue f s2 = Some (v, 125 :: s4) ->
  parseMembers (S f) (34 :: s') = Some ([(k, v)], s4).
Proof.
  intros Hk Hv. rewrite parseMembers_S. unfold skipSpace at 1. cbn [dropWhile].
  change (isJsonSpace 34) with false. cbv iota. rewrite N.eqb_refl, Hk.
  unfold skipSpace at 1. cbn [dropWhile]. change (isJsonSpace 58) with false.
  cbv iota. change (58 =? code ":") with true. cbv iota. rewrite Hv.
  unfold skipSpace at 1. cbn [dropWhile]. change (isJsonSpace 125) with false.
  cbv iota. change (125 =? code ",") with false.
  change (125 =? code "}") with true. cbv iota. reflexivity.
Qed.

Lemma parseValue_object (f : nat) (s' rest : jsstring) (ms : list (jsstring * json)) :
  parseMembers f (34 :: s') = Some (ms, rest) ->
  parseValue (S f) (123 :: 34 :: s') = Some (JObj ms, rest).
Proof.
  intros H. rewrite parseValue_S. unfold skipSpace. cbn [dropWhile].
  change (isJsonSpace 123) with false. cbv iota.
  change (123 =? code "{") with true. cbv iota. cbn [dropWhile].
  change (isJsonSpace 34) with false. cbv iota.
  change (34 =? code "}") with false. cbv iota. rewrite H. reflexivity.
Qed.

Lemma stringify_progress (page : Z) (b : bool) (now : jsstring) :
  stringify (progressRecord page b now)
  = js "{" ++ [34] ++ js "page" ++ [34] ++ js ":" ++ numberToString page
    ++ js "," ++ [34] ++ js "isBookmarked" ++ [34] ++ js ":" ++ boolText b
    ++ js "," ++ [34] ++ js "lastRead" ++ [34] ++ js ":" ++ [34]
    ++ quoteChars now ++ [34] ++ js "}".
Proof.
  unfold progressRecord. cbn [stringify map join fst snd].
  unfold quote. destruct b; cbn [boolText]; rewrite <- !app_assoc; reflexivity.
Qed.

Lemma parse_progress (page : Z) (b : bool) (now : jsstring) :
  JSON_parse (stringify (progressRecord page b now))
  = Some (progressRecord page b now).
Proof.
  rewrite stringify_progress. unfold JSON_parse.
  set (tail3 := quoteChars now ++ [34] ++ js "}").
  set (tail2 := boolText b ++ js "," ++ [34] ++ js "lastRead" ++ [34] ++ js ":" ++ [34] ++ tail3).
  set (tail1 := numberToString page ++ js "," ++ [34] ++ js "isBookmarked" ++ [34] ++ js ":" ++ tail2).
  change (js "{" ++ [34] ++ js "page" ++ [34] ++ js ":" ++ tail1)
    with (123 :: 34 :: (js "page" ++ 34 :: 58 :: tail1)).
  cbn [length]. rewrite length_app. change (length (js "page")) with 4%nat.
  cbn [Nat.add].
  assert (H3 : forall f, parseValue (S f) (34 :: tail3) = Some (JStr now, [125])).
  { intros f. subst tail3. rewrite parseValue_S. unfold skipSpace. cbn [dropWhile].
    change (isJsonSpace 34) with false. cbv iota.
    change (34 =? code "{") with false. change (34 =? code "[") with false.
    cbv iota. rewrite N.eqb_refl.
    change ([34] ++ js "}") with (34 :: [125]).
    rewrite (parse_quoted now [125]). reflexivity. }
  assert (H2 : forall f, parseValue (S f) tail2
                         = Some (JBool b, 44 :: 34 :: (js "lastRead" ++ 34 :: 58 :: 34 :: tail3))).
  { intros f. subst tail2. destruct b; reflexivity. }
  assert (H1 : forall f, parseValue (S f) tail1
                         = Some (JNum page, 44 :: 34 :: (js "isBookmarked" ++ 34 :: 58 :: tail2))).
  { intros f. subst tail1. apply parseValue_number.
    apply (parseNumber_numberToString page 44). reflexivity. }
  assert (M3 : forall f, parseMembers (S (S f))
                           (34 :: (js "lastRead" ++ 34 :: 58 :: 34 :: tail3))
                         = Some ([(js "lastRead", JStr now)], [])).
  { intros f. eapply parseMembers_last; [reflexivity|apply H3]. }
  assert (M2 : forall f, parseMembers (S (S (S f)))
                           (34 :: (js "isBookmarked" ++ 34 :: 58 :: tail2))
                         = Some ([(js "isBookmarked", JBool b);
                                  (js "lastRead", JStr now)], [])).
  { intros f. erewrite parseMembers_more; [|reflexivity|apply H2].
    rewrite M3. reflexivity. }
  assert (M1 : forall f, parseMembers (S (S (S (S f))))
                           (34 :: (js "page" ++ 34 :: 58 :: tail1))
                         = Some ([(js "page", JNum page);
                                  (js "isBookmarked", JBool b);
                                  (js "lastRead", JStr now)], [])).
  { intros f. erewrite parseMembers_more; [|reflexivity|apply H1].
    rewrite M2. reflexivity. }
  rewrite (parseValue_object _ _ _ _ (M1 _)). reflexivity.
Qed.

Lemma progressKey_inj (a b : jsstring) : progressKey a = progressKey b -> a = b.
Proof. unfold progressKey. apply app_inv_head. Qed.

Lemma stringify_progress_truthy (page : Z) (b : bool) (now : jsstring) :
  truthy (stringify (progressRecord page b now)) = true.
Proof. rewrite stringify_progress. reflexivity. Qed.

Lemma get_after_save (localStorage : gmap jsstring jsstring)
    (bookId : jsstring) (page : Z) (b : bool) (now : jsstring) :
  getReadingProgress (saveReadingProgress localStorage bookId page b now) bookId
  = ProgressValue (progressRecord page b now).
Proof.
  unfold getReadingProgress, saveReadingProgress.
  rewrite lookup_insert_eq, stringify_progress_truthy, parse_progress.
  reflexivity.
Qed.

Lemma get_other_after_save (localStorage : gmap jsstring jsstring)
    (bookId other : jsstring) (page : Z) (b : bool) (now : jsstring) :
  other <> bookId ->
  getReadingProgress (saveReadingProgress localStorage bookId page b now) other
  = getReadingProgress localStorage other.
Proof.
  intros Hne. unfold getReadingProgress, saveReadingProgress.
  rewrite lookup_insert_ne; [reflexivity|].
  intros E. apply progressKey_inj in E. congruence.
Qed.

(** C10: after [saveReadingProgress(bookId, page, isBookmarked)], made at
    a time whose timestamp is [now], [getReadingProgress(bookId)] returns
    the saved record, whose [page] and [isBookmarked] members are the
    saved values; a save for another book id in between does not change
    that, and the save leaves what is stored and returned for every
    other book id as it was. *)
Theorem reading_progress_round_trip
    (localStorage : gmap jsstring jsstring)
    (bookId : jsstring) (page : Z) (bookmarked : bool) (now : jsstring) :
  let saved := saveReadingProgress localStorage bookId page bookmarked now in
  (exists v : json,
     getReadingProgress saved bookId = ProgressValue v
     /\ member (js "page") v = Some (JNum page)
     /\ member (js "isBookmarked") v = Some (JBool bookmarked))
  /\ (forall other : jsstring, other <> bookId ->
        saved !! progressKey other = localStorage !! progressKey other
        /\ getReadingProgress saved other = getReadingProgress localStorage other)
  /\ (forall (other : jsstring) (page' : Z) (bookmarked' : bool) (now' : jsstring),
        other <> bookId ->
        getReadingProgress
          (saveReadingProgress saved other page' bookmarked' now') bookId
        = getReadingProgress saved bookId).
Proof.
  intros saved. split; [|split].
  - exists (progressRecord page bookmarked now).
    split; [apply get_after_save|]. split; reflexivity.
  - intros other Hne. split; [|apply get_other_after_save, Hne].
    unfold saved, saveReadingProgress. apply lookup_insert_ne.
    intros E. apply progressKey_inj in E. congruence.
  - intros other page' bookmarked' now' Hne.
    apply get_other_after_save. congruence.
Qed.

(** The theorem on an empty store. *)
Lemma reading_progress_round_trip_witness :
  let saved :=
    saveReadingProgress ∅ (js "gutenberg-84") 12 true
      (js "2026-11-02T10:00:00.000Z") in
  (exists v : json,
     getReadingProgress saved (js "gutenberg-84") = ProgressValue v
     /\ member (js "page") v = Some (JNum 12)
     /\ member (js "isBookmarked") v = Some (JBool true))
  /\ getReadingProgress saved (js "gutenberg-2701") = ProgressNull.
Proof.
  intros saved.
  destruct (reading_progress_round_trip ∅ (js "gutenberg-84") 12 true
              (js "2026-11-02T10:00:00.000Z")) as (Hv & Ho & _).
  split; [exact Hv|].
  destruct (Ho (js "gutenberg-2701")) as [_ H].
  - discriminate.
  - exact H.
Defined.

(** ** Requests of the service *)

Lemma occurrences_app (c : N) (a b : jsstring) :
  occurrences c (a ++ b) = (occurrences c a + occurrences c b)%nat.
Proof. unfold occurrences. rewrite List.filter_app, length_app. reflexivity. Qed.

Lemma occurrences_none (c : N) (s : jsstring) :
  Forall (fun x => x <> c) s -> occurrences c s = 0%nat.
Proof.
  induction 1 as [|x s Hx _ IH]; [reflexivity|].
  unfold occurrences in *. cbn [List.filter].
  destruct (N.eqb_spec c x); [congruence|exact IH].
Qed.

Lemma delimiter_cases (c : N) :
  isDelimiter c = true -> c = 38 \/ c = 61 \/ c = 63 \/ c = 35.
Proof. unfold isDelimiter, code. cbn. intros H. bools; lia. Qed.

Lemma hexDigit_plain (d c : N) : isDelimiter c = true -> hexDigit d <> c.
Proof.
  intros H. apply delimiter_cases in H. unfold hexDigit.
  destruct (N.ltb_spec d 10); lia.
Qed.

Lemma formByte_plain (b c : N) :
  isDelimiter c = true -> Forall (fun x => x <> c) (formByte b).
Proof.
  intros H. pose proof (delimiter_cases c H) as Hc. unfold formByte.
  destruct (b =? 32).
  { repeat constructor. unfold code. cbn. lia. }
  destruct (isFormSafe b) eqn:E.
  { repeat constructor. unfold isFormSafe, isUpper, isLower, isDigit, code in E.
    cbn in E. bools; lia. }
  unfold pct. repeat constructor; try (apply hexDigit_plain, H).
  unfold code. cbn. lia.
Qed.

Lemma formEncode_plain (s : jsstring) (c : N) :
  isDelimiter c = true -> Forall (fun x => x <> c) (formEncode s).
Proof.
  intros H. unfold formEncode.
  induction (scalarValues s) as [|cp cps IH]; [constructor|].
  cbn [flat_map]. apply Forall_app. split; [|exact IH].
  induction (utf8 cp) as [|b bs IHb]; [constructor|].
  cbn [flat_map]. apply Forall_app. split; [apply formByte_plain, H|exact IHb].
Qed.

Lemma occurrences_pair (c : N) (name value : jsstring) :
  isDelimiter c = true ->
  occurrences c (formEncode name ++ js "=" ++ formEncode value)
  = occurrences c (js "=").
Proof.
  intros H. rewrite !occurrences_app.
  rewrite !(occurrences_none c (formEncode _)) by (apply formEncode_plain, H).
  lia.
Qed.

Lemma occurrences_params (c : N) (params : list (jsstring * jsstring)) :
  isDelimiter c = true ->
  occurrences c (serializeParams params)
  = (length params * occurrences c (js "=")
     + (length params - 1) * occurrences c (js "&"))%nat.
Proof.
  intros H. unfold serializeParams.
  induction params as [|[name value] params IH]; [reflexivity|].
  destruct params as [|p params].
  - cbn [map join length]. rewrite occurrences_pair by exact H. lia.
  - change (occurrences c
              ((formEncode name ++ js "=" ++ formEncode value) ++ js "&" ++
               join (js "&")
                 (map (fun '(name, value) => formEncode name ++ js "=" ++ formEncode value)
                    (p :: params)))
            = (length ((name, value) :: p :: params) * occurrences c (js "=")
               + (length ((name, value) :: p :: params) - 1) * occurrences c (js "&"))%nat).
    rewrite occurrences_app, occurrences_pair, occurrences_app, IH by exact H.
    cbn [length Nat.sub]. rewrite Nat.sub_0_r. lia.
Qed.

Lemma formEncode_keeps_safe (s : jsstring) :
  forallb (fun c => isFormSafe c) s = true -> formEncode s = s.
Proof.
  induction s as [|x s IH]; [reflexivity|]. cbn [forallb]. intros H.
  apply andb_prop in H as [Hx Hs]. unfold formEncode in *. cbn [scalarValues].
  assert (Hlt : x < 0x80).
  { unfold isFormSafe, isUpper, isLower, isDigit, code in Hx. cbn in Hx. bools; lia. }
  replace (isHighSurrogate x) with false
    by (symmetry; unfold isHighSurrogate; apply andb_false_intro1, N.leb_gt; lia).
  replace (isLowSurrogate x) with false
    by (symmetry; unfold isLowSurrogate; apply andb_false_intro1, N.leb_gt; lia).
  cbn [flat_map]. rewrite (IH Hs). unfold utf8.
  replace (x <? 0x80) with true by (symmetry; apply N.ltb_lt; exact Hlt).
  cbn [flat_map app]. unfold formByte. rewrite Hx.
  replace (x =? 32) with false; [reflexivity|].
  symmetry. apply N.eqb_neq. intros ->. discriminate Hx.
Qed.

Lemma digits_safe (n : N) : forallb (fun c => isFormSafe c) (digitsOfN n) = true.
Proof.
  pose proof (digitsOfN_digits n) as H. induction H as [|x l Hx _ IH]; [reflexivity|].
  cbn [forallb]. rewrite IH, andb_true_r. unfold isFormSafe. rewrite Hx.
  rewrite orb_true_r. reflexivity.
Qed.

Lemma formEncode_number (z : Z) : formEncode (numberToString z) = numberToString z.
Proof.
  apply formEncode_keeps_safe. unfold numberToString.
  destruct (z <? 0)%Z; [cbn [forallb]|]; rewrite digits_safe; reflexivity.
Qed.

Lemma serializeParams_cons (p : jsstring * jsstring)
    (params : list (jsstring * jsstring)) :
  serializeParams (p :: params)
  = pairText p ++ flat_map (fun q => js "&" ++ pairText q) params.
Proof.
  unfold serializeParams. revert p.
  induction params as [|q params IH]; intros [name value].
  - cbn [map join flat_map]. rewrite app_nil_r. reflexivity.
  - specialize (IH q). destruct q as [name' value'].
    change (join (js "&")
              (map (fun '(name, value) => formEncode name ++ js "=" ++ formEncode value)
                 ((name, value) :: (name', value') :: params)))
      with (pairText (name, value) ++ js "&" ++
            join (js "&")
              (map (fun '(name, value) => formEncode name ++ js "=" ++ formEncode value)
                 ((name', value') :: params))).
    rewrite IH. cbn [flat_map]. rewrite <- !app_assoc. reflexivity.
Qed.

(** X19: the URL of either search request starts with the provider's
    address, the encoded query and the page, and holds one [name=value]
    pair per parameter (2 to 5 for Gutendex, 3 or 4 for Open Library),
    joined by [&], whatever the query and the filters contain: the
    encoded values hold none of [& = ? #]. *)
Theorem search_urls_keep_parameters_apart
    (query : jsstring) (filters : SearchFilters) (page : Z) :
  let g := gutenbergSearchUrl query filters page in
  let o := openLibrarySearchUrl query filters page in
  let ng := length (gutenbergParams query filters page) in
  let no := length (openLibraryParams query filters page) in
  (2 <= ng <= 5)%nat /\ (3 <= no <= 4)%nat
  /\ (exists rest : jsstring,
        g = js "https://gutendex.com/books?search=" ++ formEncode query
            ++ js "&page=" ++ numberToString page ++ rest)
  /\ (exists rest : jsstring,
        o = js "https://openlibrary.org/search.json?q=" ++ formEncode query
            ++ js "&page=" ++ numberToString page ++ js "&limit=10" ++ rest)
  /\ occurrences (code "?") g = 1%nat
  /\ occurrences (code "=") g = ng
  /\ occurrences (code "&") g = (ng - 1)%nat
  /\ occurrences (code "#") g = 0%nat
  /\ occurrences (code "?") o = 1%nat
  /\ occurrences (code "=") o = no
  /\ occurrences (code "&") o = (no - 1)%nat
  /\ occurrences (code "#") o = 0%nat.
Proof.
  intros g o ng no.
  assert (Hg : (2 <= ng <= 5)%nat).
  { subst ng. unfold gutenbergParams. rewrite !length_app.
    destruct (negb (eqs (filter_language filters) (js "all"))),
             (negb (eqs (filter_format filters) (js "all"))),
             (eqs (sortBy filters) (js "downloads")),
             (eqs (sortBy filters) (js "title")),
             (eqs (sortBy filters) (js "author")); cbn [length]; lia. }
  assert (Ho : (3 <= no <= 4)%nat).
  { subst no. unfold openLibraryParams. rewrite !length_app.
    destruct (negb (eqs (filter_language filters) (js "all"))); cbn [length]; lia. }
  split; [exact Hg|]. split; [exact Ho|].
  split.
  { subst g. unfold gutenbergSearchUrl, gutenbergParams. cbn [app].
    rewrite !serializeParams_cons. cbn [flat_map]. unfold pairText. cbn [fst snd].
    rewrite (formEncode_keeps_safe (js "search")), (formEncode_keeps_safe (js "page")),
      formEncode_number by reflexivity.
    eexists. rewrite <- !app_assoc. cbn [app]. reflexivity. }
  split.
  { subst o. unfold openLibrarySearchUrl, openLibraryParams. cbn [app].
    rewrite !serializeParams_cons. cbn [flat_map]. unfold pairText at 1 2 3.
    cbn [fst snd].
    rewrite (formEncode_keeps_safe (js "q")), (formEncode_keeps_safe (js "page")),
      (formEncode_keeps_safe (js "limit")), (formEncode_keeps_safe (js "10")),
      formEncode_number by reflexivity.
    eexists. rewrite <- !app_assoc. cbn [app]. reflexivity. }
  subst g o. unfold gutenbergSearchUrl, openLibrarySearchUrl.
  rewrite !occurrences_app, !occurrences_params by reflexivity.
  fold ng no.
  change (occurrences (code "?") GUTENBERG_API) with 0%nat.
  change (occurrences (code "=") GUTENBERG_API) with 0%nat.
  change (occurrences (code "&") GUTENBERG_API) with 0%nat.
  change (occurrences (code "#") GUTENBERG_API) with 0%nat.
  change (occurrences (code "?") OPENLIBRARY_API) with 0%nat.
  change (occurrences (code "=") OPENLIBRARY_API) with 0%nat.
  change (occurrences (code "&") OPENLIBRARY_API) with 0%nat.
  change (occurrences (code "#") OPENLIBRARY_API) with 0%nat.
  repeat match goal with
         | |- context [occurrences ?c (js ?s)] =>
             let v := eval vm_compute in (occurrences c (js s)) in
             change (occurrences c (js s)) with v
         end.
  repeat split; lia.
Qed.

Lemma searchOpenLibrary_length
    (fetch : jsstring -> option (Reply OpenLibraryPage))
    (query : jsstring) (filters : SearchFilters) (page : Z) (o : SearchResult) :
  searchOpenLibrary fetch query filters page = Some o ->
  (length (books o) <= 10)%nat.
Proof.
  unfold searchOpenLibrary.
  destruct (fetch _) as [response|]; [|discriminate].
  destruct (reply_ok response); [|discriminate].
  destruct (reply_json response) as [data|]; [|discriminate].
  intros E. injection E as <-. cbn [books].
  rewrite length_map, length_take. lia.
Qed.

Lemma dedupFilter_length (seen : gset jsstring) (bs : list Book) :
  (length (dedupFilter seen bs) <= length bs)%nat.
Proof. apply sublist_length, dedupFilter_sublist. Qed.

(** X20: when the results of the two providers are merged, nothing is
    cut and [hasMore] is false: fewer than 10 records come from the
    first provider and at most 10 from the second, so the merged list
    has 19 at most. *)
Theorem merged_search_is_never_cut
    (fetchGutenberg : jsstring -> option (Reply GutendexPage))
    (fetchOpenLibrary : jsstring -> option (Reply OpenLibraryPage))
    (query : jsstring) (filters : SearchFilters) (page : Z) (r : SearchResult) :
  searchBooks (searchGutenberg fetchGutenberg) (searchOpenLibrary fetchOpenLibrary)
    query filters page
  = (Some r, [Gutenberg; OpenLibrary]) ->
  (length (books r) <= 19)%nat
  /\ hasMore r = false
  /\ exists g o : SearchResult,
       searchGutenberg fetchGutenberg query filters page = Some g
       /\ searchOpenLibrary fetchOpenLibrary query filters page = Some o
       /\ (length (books g) < 10)%nat
       /\ (length (books o) <= 10)%nat
       /\ books r = deduplicateBooks (books g ++ books o)
       /\ totalCount r = (totalCount g + totalCount o)%Z.
Proof.
  unfold searchBooks.
  destruct (searchGutenberg fetchGutenberg query filters page) as [g|]; [|discriminate].
  destruct (Nat.ltb_spec (length (books g)) 10) as [Hg|Hg]; [|discriminate].
  destruct (searchOpenLibrary fetchOpenLibrary query filters page) as [o|] eqn:Eo;
    [|discriminate].
  pose proof (searchOpenLibrary_length _ _ _ _ _ Eo) as Ho.
  pose proof (dedupFilter_length ∅ (books g ++ books o)) as Hd.
  rewrite length_app in Hd. fold (deduplicateBooks (books g ++ books o)) in Hd.
  assert (Hmore : (20 <=? length (deduplicateBooks (books g ++ books o)))%nat = false)
    by (apply Nat.leb_gt; lia).
  rewrite Hmore. intros E.
  assert (Er : r = mkResult (take 20 (deduplicateBooks (books g ++ books o)))
                     (totalCount g + totalCount o)%Z false) by congruence.
  subst r. cbn [books hasMore totalCount].
  split; [rewrite length_take; lia|].
  split; [reflexivity|].
  exists g, o. repeat split; try assumption; try reflexivity.
  apply take_ge. lia.
Qed.

(** The theorem on one record from each provider. *)
Lemma merged_search_is_never_cut_witness :
  let fetchGutenberg := fun _ => Some (mkReply true (Some (mkPage [oneHit] 1 None))) in
  let fetchOpenLibrary := fun _ => Some (mkReply true (Some (mkDocs [oneDoc] 1))) in
  exists r : SearchResult,
    searchBooks (searchGutenberg fetchGutenberg) (searchOpenLibrary fetchOpenLibrary)
      (js "moby dick") anyFilters 1
    = (Some r, [Gutenberg; OpenLibrary])
    /\ hasMore r = false.
Proof.
  intros fetchGutenberg fetchOpenLibrary. eexists. split; [vm_compute; reflexivity|].
  eapply (merged_search_is_never_cut fetchGutenberg fetchOpenLibrary
            (js "moby dick") anyFilters 1).
  vm_compute. reflexivity.
Defined.

Lemma replaceFirst_prefix (pattern replacement rest : jsstring) :
  replaceFirst pattern replacement (pattern ++ rest) = replacement ++ rest.
Proof.
  assert (H : startsWith (pattern ++ rest) pattern = true).
  { induction pattern as [|x p IH]; [destruct rest; reflexivity|].
    cbn [app startsWith]. rewrite N.eqb_refl. exact IH. }
  replace (replaceFirst pattern replacement (pattern ++ rest))
    with (if startsWith (pattern ++ rest) pattern
          then replacement ++ drop (length pattern) (pattern ++ rest)
          else match pattern ++ rest with
               | [] => []
               | x :: s' => x :: replaceFirst pattern replacement s'
               end)
    by (destruct (pattern ++ rest); reflexivity).
  rewrite H, drop_app_length. reflexivity.
Qed.

Lemma startsWith_prefix (s sub : jsstring) :
  startsWith s sub = true <-> exists rest, s = sub ++ rest.
Proof.
  revert s; induction sub as [|y sub IH]; intros s.
  - split; [intros _; exists s; reflexivity|destruct s; reflexivity].
  - destruct s as [|x s]; cbn [startsWith].
    + split; [discriminate|intros [rest E]; discriminate E].
    + rewrite andb_true_iff, N.eqb_eq, IH. split.
      * intros [-> [rest ->]]. exists rest. reflexivity.
      * intros [rest E]. injection E as -> ->. split; [reflexivity|eauto].
Qed.

(** X21: [getBookDetails] asks nothing and returns [null] for an id
    that does not start with [gutenberg-]; otherwise it asks for what
    follows that prefix, under [/books/]; for the id of a search hit
    that is the hit's number, and a reply with the same record gives
    the hit back with all its subjects instead of the first five. *)
Theorem getBookDetails_asks_for_the_hit
    (fetch : jsstring -> option (Reply GutendexItem)) :
  (forall bookId : jsstring,
     startsWith bookId (js "gutenberg-") = false ->
     getBookDetails fetch bookId = (None, []))
  /\ (forall rest : jsstring,
        snd (getBookDetails fetch (js "gutenberg-" ++ rest))
        = [js "https://gutendex.com/books/" ++ rest])
  /\ (forall item : GutendexItem,
        fetch (js "https://gutendex.com/books/" ++ numberToString (item_id item))
        = Some (mkReply true (Some item)) ->
        let hit := gutenbergBook item in
        getBookDetails fetch (bookId hit)
        = (Some (mkBook (bookId hit) (title hit) (authors hit) (coverUrl hit)
                   (description hit) (publishYear hit) (language hit)
                   (Some (item_subjects item)) (formats hit) (downloadCount hit)),
           [js "https://gutendex.com/books/" ++ numberToString (item_id item)])).
Proof.
  assert (U : forall rest,
             GUTENBERG_API ++ js "/" ++ replaceFirst (js "gutenberg-") [] (js "gutenberg-" ++ rest)
             = js "https://gutendex.com/books/" ++ rest).
  { intros rest. rewrite replaceFirst_prefix. reflexivity. }
  assert (S : forall rest, startsWith (js "gutenberg-" ++ rest) (js "gutenberg-") = true).
  { intros rest. apply startsWith_prefix. eauto. }
  split; [|split].
  - intros bookId H. unfold getBookDetails. rewrite H. reflexivity.
  - intros rest. unfold getBookDetails. rewrite S, U.
    destruct (fetch _) as [response|]; [|reflexivity].
    destruct (reply_ok response); [|reflexivity].
    destruct (reply_json response); reflexivity.
  - intros item H hit. subst hit. unfold getBookDetails.
    change (bookId (gutenbergBook item))
      with (js "gutenberg-" ++ numberToString (item_id item)).
    rewrite S, U, H. reflexivity.
Qed.

(** The theorem on the sample record. *)
Lemma getBookDetails_asks_for_the_hit_witness :
  let fetch := fun _ : jsstring => Some (mkReply true (Some oneHit)) in
  fst (getBookDetails fetch (js "gutenberg-2701"))
  = Some (mkBook (js "gutenberg-2701") (js "Moby Dick") [js "Melville, Herman"]
            None (Some (js "Whaling")) (Some (js "Classic")) (Some (js "EN"))
            (Some [js "Whaling"])
            (Some [(js "text/html", js "https://www.gutenberg.org/ebooks/2701.html.images")])
            (Some 5000%Z)).
Proof.
  intros fetch.
  destruct (getBookDetails_asks_for_the_hit fetch) as (_ & _ & H).
  specialize (H oneHit eq_refl). cbv zeta in H.
  change (bookId (gutenbergBook oneHit)) with (js "gutenberg-2701") in H.
  rewrite H. reflexivity.
Defined.

(** ** Downloads *)

Lemma found_letter_or_digit (x : N) :
  clsFound flags_gi (fun c => isLower c || isDigit c) x = true ->
  isLower x = true \/ isDigit x = true \/ isUpper x = true.
Proof.
  unfold clsFound, flags_gi, ignoreCase, upperAscii, lowerAscii.
  destruct (isLower x) eqn:L; [auto|]. destruct (isDigit x) eqn:D; [auto|].
  destruct (isUpper x) eqn:U; [auto|]. rewrite L, D. discriminate.
Qed.

Lemma lowerUnit_name (x : N) :
  isLower x = true \/ isDigit x = true \/ isUpper x = true ->
  isNameChar (lowerUnit x) = true.
Proof.
  unfold isNameChar, lowerUnit, isLower, isDigit, isUpper.
  intros [H|[H|H]]; apply andb_prop in H as [H1 H2];
    apply N.leb_le in H1, H2.
  - replace ((65 <=? x) && (x <=? 90)) with false
      by (symmetry; apply andb_false_intro2, N.leb_gt; lia).
    replace ((192 <=? x) && (x <=? 222) && negb (x =? 215)) with false
      by (symmetry; apply andb_false_intro1, andb_false_intro1, N.leb_gt; lia).
    replace (97 <=? x) with true by (symmetry; apply N.leb_le; lia).
    replace (x <=? 122) with true by (symmetry; apply N.leb_le; lia).
    reflexivity.
  - replace ((65 <=? x) && (x <=? 90)) with false
      by (symmetry; apply andb_false_intro1, N.leb_gt; lia).
    replace ((192 <=? x) && (x <=? 222) && negb (x =? 215)) with false
      by (symmetry; apply andb_false_intro1, andb_false_intro1, N.leb_gt; lia).
    replace (48 <=? x) with true by (symmetry; apply N.leb_le; lia).
    replace (x <=? 57) with true by (symmetry; apply N.leb_le; lia).
    rewrite orb_true_r. reflexivity.
  - replace (65 <=? x) with true by (symmetry; apply N.leb_le; lia).
    replace (x <=? 90) with true by (symmetry; apply N.leb_le; lia).
    cbn [andb].
    replace (97 <=? x + 32) with true by (symmetry; apply N.leb_le; lia).
    replace (x + 32 <=? 122) with true by (symmetry; apply N.leb_le; lia).
    reflexivity.
Qed.

Lemma sanitized_unit (x : N) :
  isNameChar
    (lowerUnit (if clsOk flags_gi true (fun c => isLower c || isDigit c) x
                then code "_" else x)) = true.
Proof.
  unfold clsOk. cbn [xorb].
  destruct (clsFound flags_gi (fun c => isLower c || isDigit c) x) eqn:E; cbn [negb].
  - apply lowerUnit_name, found_letter_or_digit, E.
  - reflexivity.
Qed.

Lemma sanitized_title (t : jsstring) :
  toLowerCase (replace_all flags_gi re_unsafe [TLit (js "_")] t)
  = map (fun x => lowerUnit (if clsOk flags_gi true (fun c => isLower c || isDigit c) x
                             then code "_" else x)) t.
Proof.
  unfold re_unsafe. rewrite replace_all_cls. unfold toLowerCase.
  induction t as [|x t IH]; [reflexivity|]. cbn [flat_map map].
  rewrite map_app, IH.
  destruct (clsOk flags_gi true _ x); reflexivity.
Qed.

Lemma splitAt_last (c : N) (s : jsstring) : forall piece : jsstring,
  Forall (fun x => x <> c) piece ->
  exists before extension : jsstring,
    last (splitAt c piece s) = Some extension
    /\ Forall (fun x => x <> c) extension
    /\ piece ++ s = before ++ extension.
Proof.
  induction s as [|x s IH]; intros piece Hp; cbn [splitAt].
  - exists [], piece. rewrite app_nil_r. auto.
  - destruct (N.eqb_spec x c) as [->|Hx].
    + destruct (IH [] ltac:(constructor)) as (before & e & E & He & Hs).
      exists (piece ++ c :: before), e. rewrite last_cons, E.
      split; [reflexivity|]. split; [exact He|].
      cbn [app] in Hs. rewrite Hs, <- app_assoc. reflexivity.
    + destruct (IH (piece ++ [x])) as (before & e & E & He & Hs).
      { apply Forall_app. split; [exact Hp|]. constructor; [exact Hx|constructor]. }
      exists before, e. split; [exact E|]. split; [exact He|].
      rewrite <- Hs, <- app_assoc. reflexivity.
Qed.

(** X22: the name a book is saved under is the title with every code
    unit that is not an ASCII letter or digit replaced by an
    underscore, in lower case, then a dot and what follows the last [/]
    of the format; so it has no [/] in it. *)
Theorem download_filename_is_safe (book : Book) (format : jsstring) :
  exists stem extension : jsstring,
    downloadFilename book format = stem ++ js "." ++ extension
    /\ length stem = length (title book)
    /\ Forall (fun c => isNameChar c = true) stem
    /\ Forall (fun c => c <> code "/") extension
    /\ (exists before : jsstring, format = before ++ extension)
    /\ Forall (fun c => c <> code "/") (downloadFilename book format).
Proof.
  destruct (splitAt_last (code "/") format [] ltac:(constructor))
    as (before & extension & E & He & Hs).
  exists (toLowerCase (replace_all flags_gi re_unsafe [TLit (js "_")] (title book))),
    extension.
  assert (Hname : Forall (fun c => isNameChar c = true)
                    (toLowerCase (replace_all flags_gi re_unsafe [TLit (js "_")]
                                    (title book)))).
  { rewrite sanitized_title. apply Forall_map, Forall_forall.
    intros x _. apply sanitized_unit. }
  assert (Hfile : downloadFilename book format
                  = toLowerCase (replace_all flags_gi re_unsafe [TLit (js "_")]
                                   (title book)) ++ js "." ++ extension).
  { unfold downloadFilename, pop, splitChar. rewrite E. reflexivity. }
  split; [exact Hfile|].
  split; [rewrite sanitized_title; apply length_map|].
  split; [exact Hname|]. split; [exact He|]. split; [exists before; exact Hs|].
  rewrite Hfile. apply Forall_app. split.
  - eapply Forall_impl; [exact Hname|]. intros c Hc ->. discriminate Hc.
  - constructor; [discriminate|exact He].
Qed.

Ltac outcome :=
  cbn [fst snd length truthy negb];
  repeat match goal with
         | |- _ /\ _ => split
         | |- _ -> _ => intros
         | |- Forall _ [] => constructor
         | |- Forall _ [_] => constructor
         end;
  try discriminate; try lia; try congruence; eauto.

(** X23: a download makes one request at most, to the relay with the
    encoded URL; it throws one of two messages, or clicks a link to the
    book's own URL without any request (always so for a URL that names
    [gutenberg.org]), or saves what the relay answers; without a URL
    for the format it throws before any request. *)
Theorem downloadBook_outcomes
    (fetch : jsstring -> option Response) (book : Book) (format : jsstring) :
  let result := fst (downloadBook fetch book format) in
  let requests := snd (downloadBook fetch book format) in
  let url := ownUrl book format in
  (length requests <= 1)%nat
  /\ Forall (fun request =>
               exists enc, encodeURIComponent url = Some enc
                           /\ request = CORS_PROXY ++ enc) requests
  /\ (truthy url = false ->
      requests = [] /\ exists message, result = DownloadThrows message)
  /\ (includes url (js "gutenberg.org") = true ->
      requests = [] /\ result = LinkClicked url (downloadFilename book format))
  /\ match result with
     | DownloadThrows message => message = notAvailable \/ message = downloadFailed
     | LinkClicked href download =>
         href = url /\ download = downloadFilename book format /\ requests = []
     | BlobSaved _ download =>
         download = downloadFilename book format
         /\ includes url (js "gutenberg.org") = false
         /\ exists enc, requests = [CORS_PROXY ++ enc]
     end.
Proof.
  unfold downloadBook, ownUrl.
  destruct (formats book) as [fs|]; [|outcome].
  destruct (getProperty fs format) as [url| |]; [|outcome..].
  destruct url as [|x url]; [outcome|]. cbn [truthy negb].
  destruct (includes (x :: url) (js "gutenberg.org")) eqn:G; [outcome|].
  destruct (encodeURIComponent (x :: url)) as [enc|] eqn:Enc; [|outcome].
  destruct (fetch (CORS_PROXY ++ enc)) as [response|]; [|outcome].
  destruct (ok response); [|outcome].
  destruct (jsonContents response) as [contents|]; outcome.
Qed.

(** ** An Open Library record in the reader *)

Lemma includes_after_api (key : jsstring) :
  includes (OPENLIBRARY_API ++ key) (js "html") = includes key (js "html").
Proof.
  unfold OPENLIBRARY_API.
  cbv [js list_ascii_of_string map N_of_ascii N_of_digits app].
  cbn [includes startsWith N.eqb Pos.eqb andb orb N.add N.mul Pos.add Pos.mul Pos.succ].
  reflexivity.
Qed.

(** X24: for an Open Library record the reader fetches the work's page
    (the record's only format, under the key [text/html]) and
    normalises it as plain text, unless the work's key itself contains
    [html]; a record without a key has no format to read. *)
Theorem openLibrary_page_is_read_as_plain_text (item : OpenLibraryDoc) :
  let book := openLibraryBook item in
  match doc_key item with
  | Some (x :: key) =>
      resolveContentUrl book = OPENLIBRARY_API ++ x :: key
      /\ isMarkupSource (resolveContentUrl book) = includes (x :: key) (js "html")
      /\ (includes (x :: key) (js "html") = false ->
          forall text, normalize text (resolveContentUrl book) = normalizePlain text)
  | _ => resolveContentUrl book = [] /\ noReadableKey book = true
  end.
Proof.
  intros book. subst book.
  destruct (doc_key item) as [[|x key]|] eqn:K; [split; unfold resolveContentUrl, noReadableKey, openLibraryBook; cbn [formats]; rewrite K; reflexivity| |split; unfold resolveContentUrl, noReadableKey, openLibraryBook; cbn [formats]; rewrite K; reflexivity].
  assert (R : resolveContentUrl (openLibraryBook item) = OPENLIBRARY_API ++ x :: key).
  { unfold resolveContentUrl, openLibraryBook. cbn [formats]. rewrite K. reflexivity. }
  assert (M : isMarkupSource (OPENLIBRARY_API ++ x :: key) = includes (x :: key) (js "html")).
  { unfold isMarkupSource. rewrite includes_after_api.
    replace (eqs (OPENLIBRARY_API ++ x :: key) (js "demo")) with false by reflexivity.
    apply orb_false_r. }
  rewrite R. split; [reflexivity|]. split; [exact M|].
  intros H text. unfold normalize. rewrite M, H. reflexivity.
Qed.

(** ** The card *)

(** X25: a text that fits is shown as it is; a longer one is cut to
    [maxLength] code units followed by three dots, which can make it
    longer than it was; the two revisions of the card differ only on
    the empty text with a negative bound. *)
Theorem truncateText_bounds (text : jsstring) (maxLength : Z) :
  ((Z.of_nat (length text) <= maxLength)%Z -> truncateText text maxLength = text)
  /\ ((0 <= maxLength < Z.of_nat (length text))%Z ->
      truncateText text maxLength = take (Z.to_nat maxLength) text ++ js "..."
      /\ Z.of_nat (length (truncateText text maxLength)) = (maxLength + 3)%Z)
  /\ ((0 <= maxLength)%Z ->
      (Z.of_nat (length (truncateText text maxLength)) <= maxLength + 3)%Z
      /\ take (Z.to_nat maxLength) (truncateText text maxLength)
         = take (Z.to_nat maxLength) text)
  /\ ((0 <= maxLength)%Z \/ text <> [] ->
      truncateTextChecked text maxLength = truncateText text maxLength)
  /\ ((maxLength < 0)%Z ->
      truncateText [] maxLength = js "..." /\ truncateTextChecked [] maxLength = []).
Proof.
  assert (L : forall m, (0 <= m < Z.of_nat (length text))%Z ->
              Z.of_nat (length (take (Z.to_nat m) text ++ js "...")) = (m + 3)%Z).
  { intros m H. rewrite length_app, length_take.
    change (length (js "...")) with 3%nat. lia. }
  unfold truncateTextChecked, truncateText.
  split; [|split; [|split; [|split]]].
  - intros H. apply Z.leb_le in H. rewrite H. reflexivity.
  - intros H. destruct (Z.leb_spec (Z.of_nat (length text)) maxLength); [lia|].
    split; [reflexivity|apply L, H].
  - intros H. destruct (Z.leb_spec (Z.of_nat (length text)) maxLength).
    + split; [lia|reflexivity].
    + split; [rewrite L; lia|].
      rewrite take_app_le by (rewrite length_take; lia). apply take_idemp.
  - intros H. destruct text as [|x text]; [|reflexivity].
    destruct H as [H|H]; [|contradiction]. cbn [truthy negb length].
    destruct (Z.leb_spec (Z.of_nat 0) maxLength); [reflexivity|lia].
  - intros H. cbn [truthy negb length].
    destruct (Z.leb_spec (Z.of_nat 0) maxLength); [lia|].
    split; [|reflexivity]. destruct maxLength; try lia. reflexivity.
Qed.

(** The theorem on a title of nine code units cut at four. *)
Lemma truncateText_bounds_witness :
  truncateText (js "Moby Dick") 4 = js "Moby..."
  /\ truncateTextChecked (js "Moby Dick") 4 = js "Moby...".
Proof.
  destruct (truncateText_bounds (js "Moby Dick") 4) as (_ & H & _ & E & _).
  rewrite E by (left; lia). destruct H as [H _]; [vm_compute; split; congruence|].
  rewrite H. split; reflexivity.
Defined.

Lemma prop_of_key (fs : list (jsstring * jsstring)) (key : jsstring) :
  In key (keys fs) -> exists url, prop fs key = Some url.
Proof.
  induction fs as [|[k v] fs IH]; [intros []|]. cbn [keys map fst In prop].
  intros [->|H].
  - rewrite eqs_refl. eauto.
  - destruct (eqs k key); [eauto|]. apply IH, H.
Qed.

Lemma downloadBook_not_available
    (fetch : jsstring -> option Response) (book : Book) (format : jsstring)
    (fs : list (jsstring * jsstring)) (url : jsstring) :
  formats book = Some fs -> prop fs format = Some url ->
  fst (downloadBook fetch book format) = DownloadThrows notAvailable <-> url = [].
Proof.
  intros F P. unfold downloadBook, getProperty. rewrite F, P.
  destruct url as [|x url]; [split; reflexivity|]. cbn [truthy negb].
  split; [|discriminate].
  destruct (includes (x :: url) (js "gutenberg.org")); [discriminate|].
  destruct (encodeURIComponent (x :: url)) as [enc|]; [|discriminate].
  destruct (fetch (CORS_PROXY ++ enc)) as [response|]; [|discriminate].
  destruct (ok response); [|discriminate].
  destruct (jsonContents response); discriminate.
Qed.

(** X26: the card offers only formats the book has, so the download it
    starts ends with the toast for a format that is not available
    exactly when the format's URL is empty; it offers no format named
    [text/plain], which the reader prefers. *)
Theorem card_offers_formats_of_the_book
    (fetch : jsstring -> option Response) (book : Book) (format : jsstring)
    (st : Index.State) :
  In format (getAvailableFormats book) ->
  exists (fs : list (jsstring * jsstring)) (url : jsstring),
    formats book = Some fs
    /\ prop fs format = Some url
    /\ (head (Index.toasts (fst (Index.handleDownload fetch book format st)))
        = Some (Index.mkToast (js "Download failed")
                  (js "Format not available for download") true)
        <-> url = [])
    /\ ~ In (js "text/plain") (getAvailableFormats book)
    /\ ~ In (js "text/plain; charset=utf-8") (getAvailableFormats book).
Proof.
  unfold getAvailableFormats. destruct (formats book) as [fs|] eqn:F; [|intros []].
  intros H. apply List.filter_In in H as [Hk _].
  destruct (prop_of_key fs format Hk) as [url P].
  exists fs, url. split; [reflexivity|]. split; [exact P|]. split; [|split].
  - rewrite <- (downloadBook_not_available fetch book format fs url F P).
    unfold Index.handleDownload.
    destruct (downloadBook fetch book format) as [[message|href name|contents name] requests];
      cbn [fst Index.toasts head]; split; intros E; try discriminate E.
    + injection E as ->. reflexivity.
    + injection E as ->. reflexivity.
  - intros H. apply List.filter_In in H as [_ H]. discriminate H.
  - intros H. apply List.filter_In in H as [_ H]. discriminate H.
Qed.

(** The theorem on the sample record's only format. *)
Lemma card_offers_formats_of_the_book_witness :
  exists (fs : list (jsstring * jsstring)) (url : jsstring),
    formats (gutenbergBook oneHit) = Some fs
    /\ prop fs (js "text/html") = Some url
    /\ url <> [].
Proof.
  destruct (card_offers_formats_of_the_book (fun _ => None) (gutenbergBook oneHit)
              (js "text/html") Index.initialState) as (fs & url & F & P & H & _).
  - vm_compute. left. reflexivity.
  - exists fs, url. split; [exact F|]. split; [exact P|].
    intros E. apply H in E. vm_compute in E. discriminate E.
Defined.

(** ** The search box and the page *)

Lemma truthy_nonempty (s : jsstring) : truthy s = true -> s <> [].
Proof. destruct s; [discriminate|discriminate]. Qed.

(** X27: the search box calls [onSearch] only with a query that is
    trimmed and not empty; a filter change keeps the query and searches
    with the changed filters; a blank query makes no call.  The
    placeholder index stays within the five placeholders. *)
Theorem search_box_sends_trimmed_queries
    (st : BookSearch.State) (key : BookSearch.FilterKey) (value : jsstring) :
  match BookSearch.handleSearch st with
  | Some (q, f) => trim q = q /\ q <> [] /\ q = trim (BookSearch.query st)
                   /\ f = BookSearch.filters st
  | None => trim (BookSearch.query st) = []
  end
  /\ match snd (BookSearch.handleFilterChange key value st) with
     | Some (q, f) =>
         trim q = q /\ q <> [] /\ q = trim (BookSearch.query st)
         /\ f = BookSearch.filters (fst (BookSearch.handleFilterChange key value st))
     | None => trim (BookSearch.query st) = []
     end
  /\ BookSearch.filters (fst (BookSearch.handleFilterChange key value st))
     = BookSearch.withFilter key value (BookSearch.filters st)
  /\ BookSearch.query (fst (BookSearch.handleFilterChange key value st))
     = BookSearch.query st
  /\ ((BookSearch.placeholderIndex (BookSearch.tick st) < 5)%nat
      /\ is_Some (BookSearch.placeholder (BookSearch.tick st))).
Proof.
  unfold BookSearch.handleSearch, BookSearch.handleFilterChange. cbn [fst snd].
  destruct (truthy (trim (BookSearch.query st))) eqn:T.
  - pose proof (truthy_nonempty _ T) as N.
    repeat split; try apply trim_trim; try exact N.
    + unfold BookSearch.tick. cbn [BookSearch.placeholderIndex].
      apply Nat.mod_upper_bound. discriminate.
    + apply lookup_lt_is_Some. unfold BookSearch.tick, BookSearch.placeholder.
      cbn [BookSearch.placeholderIndex]. apply Nat.mod_upper_bound. discriminate.
  - assert (E : trim (BookSearch.query st) = [])
      by (destruct (trim (BookSearch.query st)); [reflexivity|discriminate]).
    repeat split; try exact E.
    + unfold BookSearch.tick. cbn [BookSearch.placeholderIndex].
      apply Nat.mod_upper_bound. discriminate.
    + apply lookup_lt_is_Some. unfold BookSearch.tick, BookSearch.placeholder.
      cbn [BookSearch.placeholderIndex]. apply Nat.mod_upper_bound. discriminate.
Qed.

(** X28: a search always ends with the loading flag down and on page 1;
    when it fails the list shown, [hasMore] and [searchPerformed] stay
    as they were and the toast carries the one message of
    [searchBooks]; when it succeeds the list and [hasMore] are the
    result's.  When the first provider fails the second is not asked.
    [loadMoreBooks] changes nothing. *)
Theorem index_search_keeps_the_list_on_failure
    (searchGutenberg searchOpenLibrary :
       jsstring -> SearchFilters -> Z -> option SearchResult)
    (query : jsstring) (filters : SearchFilters) (st : Index.State) :
  let st' := fst (Index.handleSearch searchGutenberg searchOpenLibrary query filters st) in
  Index.loading st' = false
  /\ Index.currentPage st' = 1%Z
  /\ Index.currentReader st' = Index.currentReader st
  /\ Index.viewMode st' = Index.viewMode st
  /\ match fst (searchBooks searchGutenberg searchOpenLibrary query filters 1) with
     | Some result =>
         Index.books st' = books result
         /\ Index.hasMore st' = hasMore result
         /\ Index.searchPerformed st' = true
         /\ Index.toasts st'
            = Index.mkToast (js "Search completed")
                (js "Found " ++ numberToString (Z.of_nat (length (books result)))
                 ++ js " books") false :: Index.toasts st
     | None =>
         Index.books st' = Index.books st
         /\ Index.hasMore st' = Index.hasMore st
         /\ Index.searchPerformed st' = Index.searchPerformed st
         /\ Index.toasts st'
            = Index.mkToast (js "Search failed")
                (js "Failed to search books. Please try again.") true
              :: Index.toasts st
     end
  /\ (searchGutenberg query filters 1%Z = None ->
      snd (Index.handleSearch searchGutenberg searchOpenLibrary query filters st)
      = [Gutenberg]
      /\ Index.books st' = Index.books st)
  /\ Index.loadMoreBooks st = st.
Proof.
  intros st'. subst st'. unfold Index.handleSearch.
  assert (Hg : searchGutenberg query filters 1%Z = None ->
               searchBooks searchGutenberg searchOpenLibrary query filters 1
               = (None, [Gutenberg])).
  { intros H. unfold searchBooks. rewrite H. reflexivity. }
  assert (Hl : Index.loadMoreBooks st = st).
  { unfold Index.loadMoreBooks. destruct st as [b l v r p h c t].
    cbn. destruct h, l; reflexivity. }
  destruct (searchBooks searchGutenberg searchOpenLibrary query filters 1)
    as [[result|] asked] eqn:E; cbn [fst snd];
    repeat split; try reflexivity; try exact Hl;
    match goal with
    | Hn : searchGutenberg _ _ _ = None |- _ => specialize (Hg Hn); congruence
    end.
Qed.
